(** * Repair-process simulation (src/app.py): a shallow embedding

    The program is a discrete-event simulation written on top of SimPy:
    [run_simulation] builds an [Environment] and a [Container], starts the
    generators [vehicle_generator] and [metrics_observer] as processes and
    runs the event loop until the horizon.

    The embedding keeps the event loop explicit.  The environment is its
    clock, its heap of scheduled events and its event counter; the container
    is its level and its two request queues; the [counters] dict, which has
    three fixed keys, is three integer fields.  Every generator is a set of
    resumption functions, one per [yield].  Simulated time is an exact
    rational; [random.expovariate] reads the stream [draws], whose k-th
    element stands for the k-th value of [-log(1 - random())] of the seeded
    generator.

    The program computes with binary64 floats, which round the sum
    [now + delay] and absorb a delay below the spacing of the clock.  The
    properties below rest on the order of the events and on the integer
    counters, which rounding preserves, or they are stated for whole-number
    times that binary64 adds exactly.  Whether the event loop reaches the
    horizon is settled for exact time only (section Termination).

    SimPy itself is not part of the repository.  What the program uses of
    it is embedded from its implementation: [Environment.schedule], [step]
    and [run], the events [Timeout] and [Initialize], [Process._resume],
    and [Container] with [BaseResource._trigger_get] and [_trigger_put]. *)

From Stdlib Require Import ZArith QArith Qround List Bool Lia Lqa Permutation.
Import ListNotations.
Open Scope Z_scope.

(** ** Exceptions *)

Inductive value_error : Type :=
| CapacityNotPositive   (* Container.__init__ : capacity <= 0 *)
| InitNegative          (* Container.__init__ : init < 0 *)
| InitAboveCapacity     (* Container.__init__ : init > capacity *)
| AmountNotPositive     (* ContainerPut / ContainerGet : amount <= 0 *)
| NegativeDelay         (* Timeout.__init__ : delay < 0 *)
| UntilNotAfterNow.     (* Environment.run : until <= now *)

Inductive exn : Type :=
| ValueError (why : value_error)
| ZeroDivisionError     (* random.expovariate(0) *)
| RuntimeError.         (* Environment.run : schedule empty before until *)

(** ** Events

    One constructor per kind of event object the program creates, named by
    the callbacks the event carries when it is processed. *)

Inductive event : Type :=
| InitGenerator      (* Initialize of vehicle_generator *)
| InitObserver       (* Initialize of metrics_observer *)
| InitVehicle        (* Initialize of vehicle *)
| InitRepair         (* Initialize of repair_process *)
| TimeoutGenerator   (* env.timeout(expovariate(..)) yielded by vehicle_generator *)
| TimeoutObserver    (* env.timeout(record_interval) yielded by metrics_observer *)
| TimeoutRepair      (* env.timeout(repair_cycle_time) yielded by repair_process *)
| GetGranted (amount : Z)  (* a succeeded container.get: [_trigger_put; vehicle._resume] *)
| PutGranted (amount : Z)  (* a succeeded container.put: [_trigger_get; repair_process._resume] *)
| ProcessEnded       (* a process whose generator returned; no callbacks *)
| ProcessFailed (e : exn)  (* a process whose generator raised; nobody defuses it *)
| UntilEvent.        (* the event run(until=..) schedules; [StopSimulation.callback] *)

Definition URGENT : Z := 0.
Definition NORMAL : Z := 1.

(** An entry of [env._queue]: the tuple (time, priority, eid, event). *)
Record entry : Type := mkEntry {
  e_time : Q;
  e_prio : Z;
  e_eid : nat;
  e_event : event
}.

(** Python's tuple order on the first three components. *)
Definition entry_ltb (a b : entry) : bool :=
  match Qcompare (e_time a) (e_time b) with
  | Lt => true
  | Gt => false
  | Eq =>
      match Z.compare (e_prio a) (e_prio b) with
      | Lt => true
      | Gt => false
      | Eq => Nat.ltb (e_eid a) (e_eid b)
      end
  end.

(** [heapq.heappop]: the least entry and the remaining ones.  The heap is
    kept as a bag; only the entry that is popped matters. *)
Fixpoint heappop (q : list entry) : option (entry * list entry) :=
  match q with
  | [] => None
  | e :: q' =>
      match heappop q' with
      | None => Some (e, [])
      | Some (m, r) => if entry_ltb m e then Some (m, e :: r) else Some (e, q')
      end
  end.

(** ** Snapshots and final metrics *)

Record snapshot : Type := mkSnapshot {
  snap_time : Q;
  snap_available_supply : Z;
  snap_backlog : Z;
  snap_in_repair : Z;
  snap_total_arrivals : Z;
  snap_served : Z;
  snap_satisfaction_rate : Q
}.

Record final_metrics : Type := mkFinal {
  fm_demand_satisfaction_rate : Q;
  fm_total_arrivals : Z;
  fm_served : Z;
  fm_backlog : Z;
  fm_available_supply : Z;
  fm_in_repair : Z
}.

(** ** The state of one run *)

Record sim : Type := mkSim {
  now : Q;                     (* env._now *)
  queue : list entry;          (* env._queue *)
  eid : nat;                   (* next value of env._eid *)
  level : Z;                   (* container._level *)
  capacity : Z;                (* container._capacity *)
  get_queue : list Z;          (* container.get_queue: amounts of the pending gets *)
  put_queue : list Z;          (* container.put_queue: amounts of the pending puts *)
  total_arrivals : Z;          (* counters["total_arrivals"] *)
  served : Z;                  (* counters["served"] *)
  in_repair : Z;               (* counters["in_repair"] *)
  timeseries : list snapshot;
  rng : nat                    (* number of draws taken from the random stream *)
}.

Definition set_now (t : Q) (s : sim) : sim :=
  mkSim t (queue s) (eid s) (level s) (capacity s) (get_queue s) (put_queue s)
        (total_arrivals s) (served s) (in_repair s) (timeseries s) (rng s).

Definition set_queue (q : list entry) (s : sim) : sim :=
  mkSim (now s) q (eid s) (level s) (capacity s) (get_queue s) (put_queue s)
        (total_arrivals s) (served s) (in_repair s) (timeseries s) (rng s).

Definition set_eid (n : nat) (s : sim) : sim :=
  mkSim (now s) (queue s) n (level s) (capacity s) (get_queue s) (put_queue s)
        (total_arrivals s) (served s) (in_repair s) (timeseries s) (rng s).

Definition set_level (l : Z) (s : sim) : sim :=
  mkSim (now s) (queue s) (eid s) l (capacity s) (get_queue s) (put_queue s)
        (total_arrivals s) (served s) (in_repair s) (timeseries s) (rng s).

Definition set_get_queue (g : list Z) (s : sim) : sim :=
  mkSim (now s) (queue s) (eid s) (level s) (capacity s) g (put_queue s)
        (total_arrivals s) (served s) (in_repair s) (timeseries s) (rng s).

Definition set_put_queue (p : list Z) (s : sim) : sim :=
  mkSim (now s) (queue s) (eid s) (level s) (capacity s) (get_queue s) p
        (total_arrivals s) (served s) (in_repair s) (timeseries s) (rng s).

Definition set_total_arrivals (n : Z) (s : sim) : sim :=
  mkSim (now s) (queue s) (eid s) (level s) (capacity s) (get_queue s) (put_queue s)
        n (served s) (in_repair s) (timeseries s) (rng s).

Definition set_served (n : Z) (s : sim) : sim :=
  mkSim (now s) (queue s) (eid s) (level s) (capacity s) (get_queue s) (put_queue s)
        (total_arrivals s) n (in_repair s) (timeseries s) (rng s).

Definition set_in_repair (n : Z) (s : sim) : sim :=
  mkSim (now s) (queue s) (eid s) (level s) (capacity s) (get_queue s) (put_queue s)
        (total_arrivals s) (served s) n (timeseries s) (rng s).

Definition set_timeseries (ts : list snapshot) (s : sim) : sim :=
  mkSim (now s) (queue s) (eid s) (level s) (capacity s) (get_queue s) (put_queue s)
        (total_arrivals s) (served s) (in_repair s) ts (rng s).

Definition set_rng (n : nat) (s : sim) : sim :=
  mkSim (now s) (queue s) (eid s) (level s) (capacity s) (get_queue s) (put_queue s)
        (total_arrivals s) (served s) (in_repair s) (timeseries s) n.

(** ** Environment: scheduling *)

(** [Environment.schedule]: push (now + delay, priority, next(eid), event).
    The sum is exact here and rounded to binary64 in the program. *)
Definition schedule (ev : event) (priority : Z) (delay : Q) (s : sim) : sim :=
  set_eid (S (eid s))
    (set_queue (mkEntry (now s + delay)%Q priority (eid s) ev :: queue s) s).

(** [env.timeout(delay)]: a negative delay raises, else the timeout is
    scheduled at once with priority NORMAL. *)
Definition env_timeout (delay : Q) (ev : event) (s : sim) : exn + sim :=
  if Qle_bool 0 delay then inr (schedule ev NORMAL delay s)
  else inl (ValueError NegativeDelay).

(** [env.process(generator)]: the Initialize event, priority URGENT. *)
Definition env_process (init : event) (s : sim) : sim :=
  schedule init URGENT 0 s.

(** A generator that returns: the process event succeeds and is scheduled. *)
Definition process_end (s : sim) : sim := schedule ProcessEnded NORMAL 0 s.

(** A generator that raises: the process event fails and is scheduled. *)
Definition process_fail (e : exn) (s : sim) : sim :=
  schedule (ProcessFailed e) NORMAL 0 s.

(** The state the callbacks of a popped entry run in: the entry has left
    the queue and the clock is at its time. *)
Definition popped (e : entry) (q : list entry) (s : sim) : sim :=
  set_now (e_time e) (set_queue q s).

(** ** Container *)

(** [BaseResource._trigger_get] with [Container._do_get]: starting at the
    head, grant while the head can be granted, stop at the first request that
    cannot.  A granted request succeeds, which schedules it. *)
Fixpoint trigger_get_loop (pending : list Z) (s : sim) : sim :=
  match pending with
  | [] => set_get_queue [] s
  | amount :: rest =>
      if amount <=? level s
      then trigger_get_loop rest
             (schedule (GetGranted amount) NORMAL 0 (set_level (level s - amount) s))
      else set_get_queue (amount :: rest) s
  end.

Definition trigger_get (s : sim) : sim := trigger_get_loop (get_queue s) s.

(** [BaseResource._trigger_put] with [Container._do_put]. *)
Fixpoint trigger_put_loop (pending : list Z) (s : sim) : sim :=
  match pending with
  | [] => set_put_queue [] s
  | amount :: rest =>
      if amount <=? capacity s - level s
      then trigger_put_loop rest
             (schedule (PutGranted amount) NORMAL 0 (set_level (level s + amount) s))
      else set_put_queue (amount :: rest) s
  end.

Definition trigger_put (s : sim) : sim := trigger_put_loop (put_queue s) s.

(** [container.get(amount)]: the request joins [get_queue], then
    [_trigger_get] runs. *)
Definition container_get (amount : Z) (s : sim) : exn + sim :=
  if amount <=? 0 then inl (ValueError AmountNotPositive)
  else inr (trigger_get (set_get_queue (get_queue s ++ [amount]) s)).

(** [container.put(amount)]: the request joins [put_queue], then
    [_trigger_put] runs. *)
Definition container_put (amount : Z) (s : sim) : exn + sim :=
  if amount <=? 0 then inl (ValueError AmountNotPositive)
  else inr (trigger_put (set_put_queue (put_queue s ++ [amount]) s)).

(** [simpy.Container(env, init=.., capacity=..)] *)
Definition Container (init cap : Z) (s : sim) : exn + sim :=
  if cap <=? 0 then inl (ValueError CapacityNotPositive)
  else if init <? 0 then inl (ValueError InitNegative)
  else if cap <? init then inl (ValueError InitAboveCapacity)
  else inr (mkSim (now s) (queue s) (eid s) init cap [] []
                  (total_arrivals s) (served s) (in_repair s) (timeseries s) (rng s)).

(** ** The four generators *)

(** [served / total_arrivals if total_arrivals > 0 else 0] *)
Definition satisfaction (srv arrivals : Z) : Q :=
  if 0 <? arrivals then (inject_Z srv / inject_Z arrivals)%Q else 0%Q.

(** The dict built at lines 43-51. *)
Definition take_snapshot (s : sim) : snapshot :=
  mkSnapshot (now s) (level s) (Z.of_nat (length (get_queue s))) (in_repair s)
             (total_arrivals s) (served s)
             (satisfaction (served s) (total_arrivals s)).

Section Processes.

Variable draws : nat -> Q.
Variable demand_rate : Q.
Variable repair_cycle_time : Q.
Variable record_interval : Q.

(** [random.expovariate(lambd)] = [-log(1 - random()) / lambd]. *)
Definition expovariate (lambd : Q) (s : sim) : (exn + Q) * sim :=
  let x := draws (rng s) in
  let s' := set_rng (S (rng s)) s in
  if Qeq_bool lambd 0 then (inl ZeroDivisionError, s')
  else (inr (x / lambd)%Q, s').

(** repair_process (lines 6-15), from its start to
    [yield env.timeout(repair_cycle_time)]. *)
Definition repair_start (s : sim) : sim :=
  let s1 := set_in_repair (in_repair s + 1) s in
  match env_timeout repair_cycle_time TimeoutRepair s1 with
  | inl e => process_fail e s1
  | inr s2 => s2
  end.

(** repair_process, resumed by its timeout, up to [yield container.put(1)]. *)
Definition repair_put (s : sim) : sim :=
  match container_put 1 s with
  | inl e => process_fail e s
  | inr s1 => s1
  end.

(** repair_process, resumed by its put, to its end. *)
Definition repair_finish (s : sim) : sim :=
  process_end (set_in_repair (in_repair s - 1) s).

(** vehicle (lines 17-28), from its start to [yield container.get(1)]. *)
Definition vehicle_start (s : sim) : sim :=
  let s1 := set_total_arrivals (total_arrivals s + 1) s in
  match container_get 1 s1 with
  | inl e => process_fail e s1
  | inr s2 => s2
  end.

(** vehicle, resumed by its get, to its end. *)
Definition vehicle_finish (s : sim) : sim :=
  process_end (env_process InitRepair (set_served (served s + 1) s)).

(** vehicle_generator (lines 30-36), from the head of its loop to the
    yield; an exception raised on the way fails the process. *)
Definition vehicle_generator_loop (s : sim) : sim :=
  match expovariate demand_rate s with
  | (inl e, s1) => process_fail e s1
  | (inr d, s1) =>
      match env_timeout d TimeoutGenerator s1 with
      | inl e => process_fail e s1
      | inr s2 => s2
      end
  end.

(** vehicle_generator, resumed by its timeout. *)
Definition vehicle_generator_resume (s : sim) : sim :=
  vehicle_generator_loop (env_process InitVehicle s).

(** metrics_observer (lines 38-53), from the head of its loop to the
    yield. *)
Definition metrics_observer_loop (s : sim) : sim :=
  let s1 := set_timeseries (timeseries s ++ [take_snapshot s]) s in
  match env_timeout record_interval TimeoutObserver s1 with
  | inl e => process_fail e s1
  | inr s2 => s2
  end.

(** ** The event loop *)

(** What [Environment.step] does to the loop that calls it. *)
Inductive step_result : Type :=
| Continue (s : sim)
| Stop (s : sim)             (* StopSimulation, raised by the until event *)
| Raise (e : exn) (s : sim).

(** The callbacks of a popped event, in the order they were appended. *)
Definition dispatch (ev : event) (s : sim) : step_result :=
  match ev with
  | InitGenerator => Continue (vehicle_generator_loop s)
  | InitObserver => Continue (metrics_observer_loop s)
  | InitVehicle => Continue (vehicle_start s)
  | InitRepair => Continue (repair_start s)
  | TimeoutGenerator => Continue (vehicle_generator_resume s)
  | TimeoutObserver => Continue (metrics_observer_loop s)
  | TimeoutRepair => Continue (repair_put s)
  | GetGranted _ => Continue (vehicle_finish (trigger_put s))
  | PutGranted _ => Continue (repair_finish (trigger_get s))
  | ProcessEnded => Continue s
  | ProcessFailed e => Raise e s
  | UntilEvent => Stop s
  end.

(** [Environment.step] *)
Definition step (s : sim) : step_result :=
  match heappop (queue s) with
  | None => Raise RuntimeError s
  | Some (e, q) => dispatch (e_event e) (popped e q s)
  end.

(** How the event loop ends, if the fuel is enough. *)
Inductive run_result : Type :=
| Finished (s : sim)
| Failed (e : exn) (s : sim)
| OutOfFuel (s : sim).

(** The [while True: self.step()] of [Environment.run]. *)
Fixpoint run_loop (fuel : nat) (s : sim) : run_result :=
  match fuel with
  | O => OutOfFuel s
  | S fuel' =>
      match step s with
      | Continue s' => run_loop fuel' s'
      | Stop s' => Finished s'
      | Raise e s' => Failed e s'
      end
  end.

(** [env.run(until=sim_time)] *)
Definition env_run (fuel : nat) (sim_time : Q) (s : sim) : run_result :=
  if Qle_bool sim_time (now s) then Failed (ValueError UntilNotAfterNow) s
  else run_loop fuel (schedule UntilEvent URGENT (sim_time - now s) s).

End Processes.

(** [simpy.Environment()] with the empty counters and time series. *)
Definition Environment : sim :=
  mkSim 0 [] 0 0 0 [] [] 0 0 0 [] 0.

(** The dict built at lines 81-90. *)
Definition compute_final_metrics (s : sim) : final_metrics :=
  mkFinal (satisfaction (served s) (total_arrivals s))
          (total_arrivals s) (served s)
          (Z.of_nat (length (get_queue s))) (level s) (in_repair s).

(** Lines 70-77: the state [run_simulation] hands to [env.run]. *)
Definition configured (initial_supply : Z) : exn + sim :=
  match Container initial_supply initial_supply Environment with
  | inl e => inl e
  | inr s => inr (env_process InitObserver (env_process InitGenerator s))
  end.

(** What a call of [run_simulation] gives. *)
Inductive outcome : Type :=
| Returned (fm : final_metrics) (ts : list snapshot)
| Raised (e : exn)
| Diverged.      (* the fuel given to the event loop ran out *)

(** Lines 70-78, with the state the call of [env.run] ends in. *)
Definition run_simulation_state (fuel : nat) (draws : nat -> Q)
    (initial_supply : Z) (demand_rate repair_cycle_time sim_time record_interval : Q)
    : run_result :=
  match configured initial_supply with
  | inl e => Failed e Environment
  | inr s => env_run draws demand_rate repair_cycle_time record_interval fuel sim_time s
  end.

Definition default_record_interval : Q := 1.

(** The value of the parameter [record_interval=1.0] in a call. *)
Definition effective_interval (record_interval : option Q) : Q :=
  match record_interval with
  | Some r => r
  | None => default_record_interval
  end.

(** [run_simulation] (lines 55-92); [record_interval = None] is the call
    that omits the argument. *)
Definition run_simulation (fuel : nat) (draws : nat -> Q)
    (initial_supply : Z) (demand_rate repair_cycle_time sim_time : Q)
    (record_interval : option Q) : outcome :=
  match run_simulation_state fuel draws initial_supply demand_rate
          repair_cycle_time sim_time (effective_interval record_interval) with
  | Finished s => Returned (compute_final_metrics s) (timeseries s)
  | Failed e _ => Raised e
  | OutOfFuel _ => Diverged
  end.

(** * Specification-level definitions *)

(** ** Sums over the event queue *)

(** Weighted count of the entries of the event queue. *)
Fixpoint qsum (w : event -> Z) (q : list entry) : Z :=
  match q with
  | [] => 0
  | e :: q' => w (e_event e) + qsum w q'
  end.

(** Sum of an integer weight over the entries of the event queue. *)
Fixpoint esum (w : entry -> Z) (q : list entry) : Z :=
  match q with
  | [] => 0
  | e :: q' => w e + esum w q'
  end.

(** The non-strict tuple order: [a] is not after [b]. *)
Definition entry_le (a b : entry) : Prop := entry_ltb b a = false.

(** ** Bookkeeping of units and arrivals *)

(** Units that left the pool and are not back: a granted get that its
    vehicle has not consumed yet, a repair about to start, a repair under
    way. *)
Definition w_out (ev : event) : Z :=
  match ev with
  | GetGranted _ | InitRepair | TimeoutRepair => 1
  | _ => 0
  end.

(** Repairs counted by counters["in_repair"]: under way, or given back to
    the pool by a put whose event is still to be processed. *)
Definition w_rep (ev : event) : Z :=
  match ev with
  | TimeoutRepair | PutGranted _ => 1
  | _ => 0
  end.

(** Gets granted by the container whose vehicle has not resumed yet. *)
Definition w_granted (ev : event) : Z :=
  match ev with
  | GetGranted _ => 1
  | _ => 0
  end.

(** Repairs whose Initialize event is still to be processed. *)
Definition w_starting (ev : event) : Z :=
  match ev with
  | InitRepair => 1
  | _ => 0
  end.

(** Puts granted by the container whose repair has not resumed yet. *)
Definition w_returned (ev : event) : Z :=
  match ev with
  | PutGranted _ => 1
  | _ => 0
  end.

Definition amount_one (e : entry) : Prop :=
  match e_event e with
  | GetGranted a | PutGranted a => a = 1
  | _ => True
  end.

(** The bookkeeping that holds between any two steps of the event loop. *)
Record accounting (cap : Z) (s : sim) : Prop := mkAccounting {
  acc_capacity : capacity s = cap;
  acc_units : level s + qsum w_out (queue s) = cap;
  acc_repair : in_repair s = qsum w_rep (queue s);
  acc_arrivals :
    total_arrivals s
    = served s + Z.of_nat (length (get_queue s)) + qsum w_granted (queue s);
  acc_level : 0 <= level s;
  acc_gets : Forall (eq 1) (get_queue s);
  acc_puts : put_queue s = [];
  acc_amounts : Forall amount_one (queue s)
}.

Definition is_get (ev : event) : Prop :=
  match ev with
  | GetGranted _ => True
  | _ => False
  end.

Definition is_put (ev : event) : Prop :=
  match ev with
  | PutGranted _ => True
  | _ => False
  end.

(** What [_trigger_get] may change: the level, the get queue and the
    entries [new] it pushes on the event queue. *)
Record granted_by (s s' : sim) (new : list entry) : Prop := mkGranted {
  gr_queue : queue s' = new ++ queue s;
  gr_new : Forall (fun e => is_get (e_event e) /\ e_prio e = NORMAL
                            /\ e_time e = (now s + 0)%Q) new;
  gr_now : now s' = now s;
  gr_capacity : capacity s' = capacity s;
  gr_put_queue : put_queue s' = put_queue s;
  gr_total_arrivals : total_arrivals s' = total_arrivals s;
  gr_served : served s' = served s;
  gr_in_repair : in_repair s' = in_repair s;
  gr_timeseries : timeseries s' = timeseries s;
  gr_rng : rng s' = rng s
}.

(** What [_trigger_put] may change. *)
Record returned_by (s s' : sim) (new : list entry) : Prop := mkReturned {
  rt_queue : queue s' = new ++ queue s;
  rt_new : Forall (fun e => is_put (e_event e) /\ e_prio e = NORMAL
                            /\ e_time e = (now s + 0)%Q) new;
  rt_now : now s' = now s;
  rt_capacity : capacity s' = capacity s;
  rt_get_queue : get_queue s' = get_queue s;
  rt_total_arrivals : total_arrivals s' = total_arrivals s;
  rt_served : served s' = served s;
  rt_in_repair : in_repair s' = in_repair s;
  rt_timeseries : timeseries s' = timeseries s;
  rt_rng : rng s' = rng s
}.

(** ** Failed processes *)

(** Failed processes whose event is still to be processed. *)
Definition w_failed (ev : event) : Z :=
  match ev with
  | ProcessFailed _ => 1
  | _ => 0
  end.

(** A process has failed: the run will raise when that event is popped. *)
Definition doomed (s : sim) : Prop := 1 <= qsum w_failed (queue s).

(** No process has failed. *)
Definition healthy (s : sim) : Prop := qsum w_failed (queue s) = 0.

Definition result_state (r : step_result) : sim :=
  match r with
  | Continue s | Stop s | Raise _ s => s
  end.

(** ** The clock and the horizon *)

(** Events scheduled with priority URGENT. *)
Definition is_urgent (ev : event) : bool :=
  match ev with
  | InitGenerator | InitObserver | InitVehicle | InitRepair | UntilEvent => true
  | _ => false
  end.

(** Events scheduled with delay 0 by the step that creates them. *)
Definition immediate (ev : event) : bool :=
  match ev with
  | TimeoutGenerator | TimeoutObserver | TimeoutRepair | UntilEvent => false
  | _ => true
  end.

Definition w_until (ev : event) : Z :=
  match ev with
  | UntilEvent => 1
  | _ => 0
  end.

(** An entry of the queue, seen from the clock [t_now] of a run to the
    horizon [sim_time]. *)
Record entry_timed (sim_time t_now : Q) (e : entry) : Prop := mkTimed {
  et_future : (t_now <= e_time e)%Q;
  et_prio : e_prio e = if is_urgent (e_event e) then URGENT else NORMAL;
  et_immediate : immediate (e_event e) = true -> (e_time e <= t_now)%Q;
  et_until : e_event e = UntilEvent -> (e_time e == sim_time)%Q
}.

(** The event loop before the horizon. *)
Record timing (sim_time : Q) (s : sim) : Prop := mkTiming {
  tm_until : 1 <= qsum w_until (queue s);
  tm_now : (now s < sim_time)%Q;
  tm_entries : Forall (entry_timed sim_time (now s)) (queue s);
  tm_samples : Forall (fun sn => (snap_time sn < sim_time)%Q) (timeseries s)
}.

(** The state the until event leaves behind: the clock is at the horizon
    and everything still scheduled lies at or after it. *)
Record at_horizon (sim_time : Q) (s : sim) : Prop := mkHorizon {
  hz_now : (now s == sim_time)%Q;
  hz_entries : Forall (fun e => (sim_time <= e_time e)%Q
                                /\ immediate (e_event e) = false) (queue s);
  hz_samples : Forall (fun sn => (snap_time sn < sim_time)%Q) (timeseries s)
}.

(** ** Runs *)

(** The state after [n] steps of the event loop, when it takes that many. *)
Fixpoint nth_state (draws : nat -> Q) (dr rct ri : Q) (n : nat) (s : sim)
    : option sim :=
  match n with
  | O => Some s
  | S n' =>
      match step draws dr rct ri s with
      | Continue s' => nth_state draws dr rct ri n' s'
      | _ => None
      end
  end.

(** The state [run_simulation] enters the event loop with. *)
Definition started (initial_supply : Z) (sim_time : Q) (s : sim) : Prop :=
  exists s0, configured initial_supply = inr s0
             /\ Qle_bool sim_time (now s0) = false
             /\ s = schedule UntilEvent URGENT (sim_time - now s0) s0.

(** The event loop, started in [s], reaches the horizon in state [sf]. *)
Definition finishes (draws : nat -> Q) (dr rct ri : Q) (s sf : sim) : Prop :=
  exists n s1, nth_state draws dr rct ri n s = Some s1
               /\ step draws dr rct ri s1 = Stop sf.

Definition is_observer (ev : event) : Prop :=
  match ev with
  | InitObserver | TimeoutObserver => True
  | _ => False
  end.

(** [sn] is the snapshot the observer records when it is resumed in state
    [s0] of the run. *)
Definition sampled_in (s0 : sim) (sn : snapshot) : Prop :=
  exists e q, heappop (queue s0) = Some (e, q)
              /\ is_observer (e_event e)
              /\ sn = take_snapshot (popped e q s0).

(** What holds of every state of a run: the clock is sound and, unless a
    process has failed, so is the bookkeeping [J]. *)
Definition sound (J : sim -> Prop) (sim_time : Q) (s : sim) : Prop :=
  timing sim_time s /\ (J s \/ doomed s).

(** ** The time series *)

(** [f] does not decrease along the series, taken in the order recorded. *)
Definition nondecreasing (f : snapshot -> Z) (ts : list snapshot) : Prop :=
  forall i j a b, (i <= j)%nat ->
    nth_error ts i = Some a -> nth_error ts j = Some b -> f a <= f b.

(** The series against the live counters. *)
Record chronicle (s : sim) : Prop := mkChronicle {
  ch_arrivals : nondecreasing snap_total_arrivals (timeseries s);
  ch_served : nondecreasing snap_served (timeseries s);
  ch_bound : Forall (fun sn => snap_total_arrivals sn <= total_arrivals s
                               /\ snap_served sn <= served s) (timeseries s)
}.

(** The instants the observer samples at: it starts at 0 and adds
    record_interval to the clock at each turn of its loop.  The sums are
    exact here; the program's agree with them when they are whole numbers
    up to 2^53. *)
Fixpoint obs_time (ri : Q) (k : nat) : Q :=
  match k with
  | O => 0
  | S k' => (obs_time ri k' + ri)%Q
  end.

Definition w_obs (ev : event) : Z :=
  match ev with
  | InitObserver | TimeoutObserver => 1
  | _ => 0
  end.

(** The events that can be in the queue before the first sample. *)
Definition pre_sampling (ev : event) : Prop :=
  match ev with
  | InitGenerator | InitObserver | TimeoutGenerator | UntilEvent
  | ProcessFailed _ => True
  | _ => False
  end.

(** The observer after [k] samples: the series holds the first [k] sampling
    instants and the queue holds the observer's one event, due at the next. *)
Record cadence (ri : Q) (k : nat) (s : sim) : Prop := mkCadence {
  cd_times : map snap_time (timeseries s) = map (obs_time ri) (seq 0 k);
  cd_one : qsum w_obs (queue s) = 1;
  cd_next : Forall (fun e => is_observer (e_event e) ->
                             e_time e = obs_time ri k
                             /\ (e_event e = InitObserver <-> k = O)) (queue s);
  cd_before : k = O ->
              total_arrivals s = 0 /\ served s = 0
              /\ Forall (fun e => pre_sampling (e_event e)) (queue s);
  cd_first : k <> O ->
             exists f rest, timeseries s = f :: rest
                            /\ snap_total_arrivals f = 0 /\ snap_served f = 0
}.

Definition sampling (ri : Q) (s : sim) : Prop := exists k, cadence ri k s.

(** ** A measure of the work left *)

(** How many periods of length [st] fit between [t] and the horizon. *)
Definition slots (sim_time t st : Q) : Z :=
  Z.max 0 (Qceiling ((sim_time - t) / st)).

(** A bound on the number of steps an entry of the queue can still cause
    before the horizon, when interarrival times are at least [gap]. *)
Definition weight (sim_time gap ri : Q) (e : entry) : Z :=
  match e_event e with
  | ProcessEnded | ProcessFailed _ | UntilEvent => 1
  | PutGranted _ => 2
  | TimeoutRepair => 3
  | InitRepair => 4
  | GetGranted _ => 6
  | InitVehicle => 7
  | TimeoutGenerator => 9 * slots sim_time (e_time e) gap
  | InitGenerator => 9 * slots sim_time (e_time e) gap + 2
  | TimeoutObserver => 2 * slots sim_time (e_time e) ri
  | InitObserver => 2 * slots sim_time (e_time e) ri + 2
  end.

(** The same bound for a whole state: a pending get is worth its grant, a
    pending put is worth its grant. *)
Definition potential (sim_time gap ri : Q) (s : sim) : Z :=
  esum (weight sim_time gap ri) (queue s)
  + 6 * Z.of_nat (length (get_queue s))
  + 2 * Z.of_nat (length (put_queue s)).

(** ** Concrete instances *)

(** A stream of draws whose first interarrival time is exactly 2 and whose
    next one lies beyond any horizon used below. *)
Definition draws_two_then_far (k : nat) : Q :=
  match k with
  | O => 2
  | S _ => 100
  end.

(** The same stream as [draws_two_then_far], written another way. *)
Definition draws_two_then_far' (k : nat) : Q :=
  if Nat.eqb k 0 then 2 else 100.

(** What [run_simulation] returns for one unit, an arrival at time 2,
    demand rate 1, repair cycle time 5, horizon 3 and a sample every time
    unit. *)
Definition coincidence_metrics : final_metrics :=
  mkFinal 1 1 1 0 0 1.

Definition coincidence_series : list snapshot :=
  [mkSnapshot 0 1 0 0 0 0 0; mkSnapshot 1 1 0 0 0 0 0; mkSnapshot 2 0 0 0 1 0 0].

(** A pool that is full: level 1 of capacity 1, nothing queued. *)
Definition full_pool : sim := mkSim 0 [] 0 1 1 [] [] 0 0 0 [] 0.

(** The same pool handed to a repair_process whose repair time has just
    elapsed: its timeout is the next event. *)
Definition full_pool_repair_due : sim :=
  mkSim 0 [mkEntry 0 NORMAL 0 TimeoutRepair] 1 1 1 [] [] 0 0 1 [] 0.

(** A pool of capacity 1 that a get has just emptied while a put of one
    unit waits: the event of the get is the next event. *)
Definition room_made : sim :=
  mkSim 0 [mkEntry 0 NORMAL 1 (GetGranted 1)] 2 0 1 [] [1] 1 0 1 [] 0.

(** ** Further bookkeeping *)

Definition w_initgen (ev : event) : Z :=
  match ev with
  | InitGenerator => 1
  | _ => 0
  end.

Definition w_initvehicle (ev : event) : Z :=
  match ev with
  | InitVehicle => 1
  | _ => 0
  end.

(** What the counters, the pool and the random stream keep besides
    [accounting]: no unit sits in the pool while a request waits, unless its
    put has still to wake the waiters; one draw is taken when the generator
    starts and one per vehicle it spawns; the generator cannot get past its
    first draw with a zero rate. *)
Record ledger (dr : Q) (s : sim) : Prop := mkLedger {
  lg_served : 0 <= served s;
  lg_idle : get_queue s <> [] -> level s <= qsum w_returned (queue s);
  lg_rng : Z.of_nat (rng s) + qsum w_initgen (queue s)
           = total_arrivals s + qsum w_initvehicle (queue s) + 1;
  lg_rate : qsum w_initgen (queue s) = 1 \/ Qeq_bool dr 0 = false
}.

Definition books (cap : Z) (dr : Q) (s : sim) : Prop :=
  accounting cap s /\ ledger dr s.

(** Every repair counted or about to start belongs to a vehicle that was
    served. *)
Definition cover (s : sim) : Prop :=
  in_repair s + qsum w_starting (queue s) <= served s.

Definition stock (cap : Z) (dr : Q) (s : sim) : Prop :=
  books cap dr s /\ cover s.

(** ** Before the first sample *)

(** What the queue can hold until the observer has started: the two
    Initialize events, and what the generator and [env.run] have
    scheduled, all of it created after the observer's Initialize event. *)
Definition pristine_entry (e : entry) : Prop :=
  match e_event e with
  | InitGenerator => (0 <= e_time e)%Q
  | InitObserver => e_time e = 0%Q
  | TimeoutGenerator | UntilEvent | ProcessFailed _ =>
      (0 <= e_time e)%Q /\ 0 <= e_prio e /\ (2 <= e_eid e)%nat
  | _ => False
  end.

Record pristine (cap : Z) (s : sim) : Prop := mkPristine {
  pr_arrivals : total_arrivals s = 0;
  pr_served : served s = 0;
  pr_in_repair : in_repair s = 0;
  pr_level : level s = cap;
  pr_gets : get_queue s = [];
  pr_series : timeseries s = [];
  pr_eid : (2 <= eid s)%nat;
  pr_observer : exists o, In o (queue s) /\ e_event o = InitObserver
                          /\ e_prio o = URGENT /\ e_eid o = 1%nat;
  pr_entries : Forall pristine_entry (queue s)
}.

(** The pool and the counters as [run_simulation] sets them up, seen at
    time 0. *)
Definition initial_snapshot (initial_supply : Z) : snapshot :=
  mkSnapshot 0 initial_supply 0 0 0 0 0.

Definition begun (cap : Z) (s : sim) : Prop :=
  pristine cap s \/ exists rest, timeseries s = initial_snapshot cap :: rest.

(** ** Repairs that outlast the run *)

(** What the queue can hold when no repair ends before the horizon. *)
Definition unreturned_entry (sim_time : Q) (e : entry) : Prop :=
  match e_event e with
  | TimeoutRepair => (sim_time <= e_time e)%Q
  | PutGranted _ => False
  | _ => True
  end.

Record unreturned (sim_time : Q) (s : sim) : Prop := mkUnreturned {
  un_now : (0 <= now s)%Q;
  un_repair : in_repair s + qsum w_starting (queue s) = served s;
  un_entries : Forall (unreturned_entry sim_time) (queue s)
}.

Definition lasting (cap : Z) (dr sim_time : Q) (s : sim) : Prop :=
  books cap dr s /\ unreturned sim_time s.



(** The whole numbers binary64 holds exactly reach up to 2^53: below it
    the sum of two whole numbers is computed without rounding. *)
Definition exact_whole_bound : Z := 2 ^ 53.

(** ** Layouts of the event heap *)

(** A layout of the heap: any rearrangement of its entries.  [heapq] keeps
    them in heap order in a list; the embedding keeps them in the order
    they were pushed. *)
Definition rearranges (lay : list entry -> list entry) : Prop :=
  forall q, Permutation q (lay q).

(** The event loop over a heap that is laid out afresh before every step. *)
Fixpoint run_loop_laid (lay : list entry -> list entry) (draws : nat -> Q)
    (dr rct ri : Q) (fuel : nat) (s : sim) : run_result :=
  match fuel with
  | O => OutOfFuel s
  | S fuel' =>
      match step draws dr rct ri (set_queue (lay (queue s)) s) with
      | Continue s' => run_loop_laid lay draws dr rct ri fuel' s'
      | Stop s' => Finished s'
      | Raise e s' => Failed e s'
      end
  end.

(** [run_simulation] over such a heap. *)
Definition run_simulation_laid (lay : list entry -> list entry) (fuel : nat)
    (draws : nat -> Q) (initial_supply : Z)
    (demand_rate repair_cycle_time sim_time : Q) (record_interval : option Q)
    : outcome :=
  match configured initial_supply with
  | inl e => Raised e
  | inr s =>
      if Qle_bool sim_time (now s) then Raised (ValueError UntilNotAfterNow)
      else
        match run_loop_laid lay draws demand_rate repair_cycle_time
                (effective_interval record_interval) fuel
                (schedule UntilEvent URGENT (sim_time - now s) s) with
        | Finished sf => Returned (compute_final_metrics sf) (timeseries sf)
        | Failed e _ => Raised e
        | OutOfFuel _ => Diverged
        end
  end.

(** Every entry of the queue has an event id of its own, below the
    counter the next one is taken from. *)
Definition keyed (s : sim) : Prop :=
  NoDup (map e_eid (queue s))
  /\ Forall (fun e => (e_eid e < eid s)%nat) (queue s).

(** Entries pushed while the counter went from [a] to [b]. *)
Definition fresh (a b : nat) (new : list entry) : Prop :=
  (a <= b)%nat
  /\ NoDup (map e_eid new)
  /\ Forall (fun e => (a <= e_eid e < b)%nat) new.

(** The outcome of a step with the queue of its state replaced. *)
Definition requeue (q : list entry) (r : step_result) : step_result :=
  match r with
  | Continue s => Continue (set_queue q s)
  | Stop s => Stop (set_queue q s)
  | Raise e s => Raise e (set_queue q s)
  end.
(** [h] reads nothing of the queue and only pushes on it: on a state whose
    queue is replaced it pushes the same entries and changes the other
    fields the same way. *)
Definition pushes (h : sim -> sim) : Prop :=
  forall s, exists new,
    fresh (eid s) (eid (h s)) new
    /\ forall q, h (set_queue q s) = set_queue (new ++ q) (h s).

(** ** Further concrete instances *)

(** Arrivals every 3/10 of a time unit. *)
Definition draws_steady (k : nat) : Q := 3 # 10.

(** What [run_simulation] returns for one unit, arrivals every 3/10,
    repair cycle time 1/2, horizon 3 and a sample every time unit. *)
Definition busy_metrics : final_metrics :=
  Eval vm_compute in
    match run_simulation 100 draws_steady 1 1 (1 # 2) 3 (Some 1%Q) with
    | Returned fm _ => fm
    | _ => mkFinal 0 0 0 0 0 0
    end.

Definition busy_series : list snapshot :=
  Eval vm_compute in
    match run_simulation 100 draws_steady 1 1 (1 # 2) 3 (Some 1%Q) with
    | Returned _ ts => ts
    | _ => []
    end.

(** ** A run without demand *)

(** What the queue can hold while no vehicle has arrived, when the first
    arrival is due at the horizon or later. *)
Definition quiet_entry (sim_time : Q) (e : entry) : Prop :=
  match e_event e with
  | InitGenerator => (0 <= e_time e)%Q
  | TimeoutGenerator => (sim_time <= e_time e)%Q
  | InitObserver | TimeoutObserver | UntilEvent | ProcessFailed _ => True
  | _ => False
  end.

Record quiet (cap : Z) (sim_time : Q) (s : sim) : Prop := mkQuiet {
  qt_arrivals : total_arrivals s = 0;
  qt_served : served s = 0;
  qt_in_repair : in_repair s = 0;
  qt_level : level s = cap;
  qt_gets : get_queue s = [];
  qt_entries : Forall (quiet_entry sim_time) (queue s);
  qt_rng : (qsum w_initgen (queue s) = 1 /\ rng s = O)
           \/ qsum w_initgen (queue s) = 0
}.

(** ** The front end (lines 94-155) *)

(** The values of the five sidebar widgets (lines 99-103).  The two
    [number_input]s with integer bounds return integers. *)
Record sidebar : Type := mkSidebar {
  initial_supply_input : Z;
  demand_rate_input : Q;
  repair_cycle_time_input : Q;
  sim_time_input : Z;
  record_interval_input : Q
}.

(** The bounds the widgets are created with: [min_value] and [max_value]. *)
Record sidebar_in_range (sb : sidebar) : Prop := mkInRange {
  sb_supply : 1 <= initial_supply_input sb;
  sb_rate : ((1 # 10) <= demand_rate_input sb)%Q /\ (demand_rate_input sb <= 5)%Q;
  sb_repair : (1 <= repair_cycle_time_input sb)%Q
              /\ (repair_cycle_time_input sb <= 20)%Q;
  sb_time : 10 <= sim_time_input sb;
  sb_interval : ((1 # 10) <= record_interval_input sb)%Q
}.

(** Line 106: the call made when the button is pressed. *)
Definition on_run_clicked (fuel : nat) (draws : nat -> Q) (sb : sidebar) : outcome :=
  run_simulation fuel draws (initial_supply_input sb) (demand_rate_input sb)
    (repair_cycle_time_input sb) (inject_Z (sim_time_input sb))
    (Some (record_interval_input sb)).

(** Line 111. *)
Definition satisfaction_rate_percent (fm : final_metrics) : Q :=
  (fm_demand_satisfaction_rate fm * 100)%Q.

(** Lines 118-122: the lists handed to the plots. *)
Definition plot_times (ts : list snapshot) : list Q := map snap_time ts.
Definition plot_supply (ts : list snapshot) : list Z := map snap_available_supply ts.
Definition plot_backlog (ts : list snapshot) : list Z := map snap_backlog ts.
Definition plot_in_repair (ts : list snapshot) : list Z := map snap_in_repair ts.
Definition plot_satisfaction_rate (ts : list snapshot) : list Q :=
  map snap_satisfaction_rate ts.

(** The widgets at their default values (the [value=] arguments). *)
Definition sidebar_defaults : sidebar := mkSidebar 10 1 5 100 1.

(** A sidebar within the bounds of its widgets: one unit, horizon 10. *)
Definition sidebar_small : sidebar := mkSidebar 1 1 5 10 1.

Definition small_metrics : final_metrics :=
  Eval vm_compute in
    match on_run_clicked 100 draws_two_then_far sidebar_small with
    | Returned fm _ => fm
    | _ => mkFinal 0 0 0 0 0 0
    end.

Definition small_series : list snapshot :=
  Eval vm_compute in
    match on_run_clicked 100 draws_two_then_far sidebar_small with
    | Returned _ ts => ts
    | _ => []
    end.

(** A stream of draws whose first interarrival time is 0: the first
    vehicle is due at time 0. *)
Definition draws_now_then_far (k : nat) : Q :=
  match k with
  | O => 0
  | S _ => 100
  end.

(** * Properties *)

(** Projections of updated states, and nothing else. *)
Ltac fields :=
  cbn [now queue eid level capacity get_queue put_queue total_arrivals served
       in_repair timeseries rng set_now set_queue set_eid set_level
       set_get_queue set_put_queue set_total_arrivals set_served set_in_repair
       set_timeseries set_rng schedule env_process process_end process_fail
       popped qsum esum e_event e_time e_prio e_eid app] in *.


(** * The event heap *)

Lemma entry_le_time (a b : entry) :
  entry_le a b -> (e_time a <= e_time b)%Q.
Proof.
  unfold entry_le, entry_ltb.
  destruct (Qcompare_spec (e_time b) (e_time a)) as [H|H|H]; intros E;
    try discriminate; lra.
Qed.

Lemma entry_le_prio (a b : entry) :
  entry_le a b -> (e_time a == e_time b)%Q -> e_prio a <= e_prio b.
Proof.
  unfold entry_le, entry_ltb. intros E T.
  destruct (Qcompare_spec (e_time b) (e_time a)) as [H|H|H];
    try discriminate; try lra.
  destruct (Z.compare_spec (e_prio b) (e_prio a)); try lia; discriminate.
Qed.

Lemma entry_le_refl (a : entry) : entry_le a a.
Proof.
  unfold entry_le, entry_ltb.
  destruct (Qcompare_spec (e_time a) (e_time a)) as [H|H|H]; try lra.
  rewrite Z.compare_refl. apply Nat.ltb_irrefl.
Qed.

Lemma entry_le_total (a b : entry) : entry_ltb a b = true -> entry_le a b.
Proof.
  unfold entry_le, entry_ltb.
  destruct (Qcompare_spec (e_time a) (e_time b)) as [H|H|H];
    destruct (Qcompare_spec (e_time b) (e_time a)) as [H'|H'|H'];
    try discriminate; try reflexivity; try lra; intros E.
  destruct (Z.compare_spec (e_prio a) (e_prio b));
    destruct (Z.compare_spec (e_prio b) (e_prio a));
    try discriminate; try reflexivity; try lia.
  apply Nat.ltb_lt in E. apply Nat.ltb_ge. lia.
Qed.

Lemma entry_le_trans (a b c : entry) : entry_le a b -> entry_le b c -> entry_le a c.
Proof.
  unfold entry_le, entry_ltb.
  destruct (Qcompare_spec (e_time b) (e_time a)) as [H1|H1|H1]; try discriminate;
    destruct (Qcompare_spec (e_time c) (e_time b)) as [H2|H2|H2]; try discriminate;
    destruct (Qcompare_spec (e_time c) (e_time a)) as [H3|H3|H3]; try reflexivity;
    try lra; intros E1 E2.
  destruct (Z.compare_spec (e_prio b) (e_prio a)); try discriminate;
    destruct (Z.compare_spec (e_prio c) (e_prio b)); try discriminate;
    destruct (Z.compare_spec (e_prio c) (e_prio a)); try reflexivity; try lia.
  apply Nat.ltb_ge in E1, E2. apply Nat.ltb_ge. lia.
Qed.

Lemma heappop_perm (q : list entry) (e : entry) (r : list entry) :
  heappop q = Some (e, r) -> Permutation q (e :: r).
Proof.
  revert e r. induction q as [|x q IH]; simpl; intros e r H; [discriminate|].
  destruct (heappop q) as [[m r']|] eqn:Hq.
  - specialize (IH m r' eq_refl).
    destruct (entry_ltb m x); inversion H; subst; clear H.
    + rewrite IH. apply perm_swap.
    + reflexivity.
  - inversion H; subst. destruct q; [reflexivity|].
    simpl in Hq. destruct (heappop q) as [[? ?]|]; [destruct (entry_ltb _ _)|]; discriminate.
Qed.

Lemma heappop_min (q : list entry) (e : entry) (r : list entry) :
  heappop q = Some (e, r) -> Forall (entry_le e) r.
Proof.
  revert e r. induction q as [|x q IH]; simpl; intros e r H; [discriminate|].
  destruct (heappop q) as [[m r']|] eqn:Hq.
  - pose proof (IH m r' eq_refl) as Hm.
    pose proof (heappop_perm _ _ _ Hq) as Hp.
    destruct (entry_ltb m x) eqn:Hlt; inversion H; subst; clear H.
    + constructor; [apply entry_le_total, Hlt | exact Hm].
    + apply (Permutation_Forall (Permutation_sym Hp)).
      constructor; [exact Hlt|].
      eapply Forall_impl; [|exact Hm].
      intros y Hy. eapply entry_le_trans; [exact Hlt | exact Hy].
  - inversion H; subst. constructor.
Qed.

Lemma heappop_none (q : list entry) : heappop q = None -> q = [].
Proof.
  destruct q as [|x q]; [reflexivity|]. simpl.
  destruct (heappop q) as [[m r]|]; [destruct (entry_ltb m x)|]; discriminate.
Qed.

Lemma qsum_app (w : event -> Z) (a b : list entry) :
  qsum w (a ++ b) = qsum w a + qsum w b.
Proof. induction a; simpl; lia. Qed.

Lemma qsum_perm (w : event -> Z) (a b : list entry) :
  Permutation a b -> qsum w a = qsum w b.
Proof. induction 1; simpl; lia. Qed.

Lemma heappop_qsum (w : event -> Z) (q : list entry) (e : entry) (r : list entry) :
  heappop q = Some (e, r) -> qsum w q = w (e_event e) + qsum w r.
Proof. intros H. rewrite (qsum_perm w _ _ (heappop_perm _ _ _ H)). reflexivity. Qed.

Lemma heappop_Forall (P : entry -> Prop) (q : list entry) (e : entry) (r : list entry) :
  heappop q = Some (e, r) -> Forall P q -> P e /\ Forall P r.
Proof.
  intros H F. apply (Permutation_Forall (heappop_perm _ _ _ H)) in F.
  inversion F; auto.
Qed.

(** * Bookkeeping invariants *)

Lemma qsum_const (w : event -> Z) (ev : event) (q : list entry) :
  Forall (fun e => e_event e = ev) q -> qsum w q = w ev * Z.of_nat (length q).
Proof.
  induction 1 as [|e q He _ IH]; [simpl; lia|].
  cbn [qsum length]. rewrite He, IH. lia.
Qed.

Lemma qsum_nonneg (w : event -> Z) (q : list entry) :
  (forall ev, 0 <= w ev) -> 0 <= qsum w q.
Proof.
  intros Hw. induction q as [|e q IH]; simpl; [lia|].
  specialize (Hw (e_event e)). lia.
Qed.

Lemma trigger_get_loop_grants (pending : list Z) (s : sim) :
  exists new, granted_by s (trigger_get_loop pending s) new.
Proof.
  revert s. induction pending as [|a rest IH]; intros s.
  - exists []. constructor; simpl; auto.
  - cbn [trigger_get_loop]. destruct (a <=? level s).
    + destruct (IH (schedule (GetGranted a) NORMAL 0 (set_level (level s - a) s)))
        as [new G].
      exists (new ++ [mkEntry (now s + 0)%Q NORMAL (eid s) (GetGranted a)]).
      destruct G. constructor; fields; auto.
      * rewrite gr_queue0, <- app_assoc. reflexivity.
      * apply Forall_app. split; [exact gr_new0|]. repeat constructor.
    + exists []. constructor; simpl; auto.
Qed.

Lemma trigger_put_loop_returns (pending : list Z) (s : sim) :
  exists new, returned_by s (trigger_put_loop pending s) new.
Proof.
  revert s. induction pending as [|a rest IH]; intros s.
  - exists []. constructor; simpl; auto.
  - cbn [trigger_put_loop]. destruct (a <=? capacity s - level s).
    + destruct (IH (schedule (PutGranted a) NORMAL 0 (set_level (level s + a) s)))
        as [new G].
      exists (new ++ [mkEntry (now s + 0)%Q NORMAL (eid s) (PutGranted a)]).
      destruct G. constructor; fields; auto.
      * rewrite rt_queue0, <- app_assoc. reflexivity.
      * apply Forall_app. split; [exact rt_new0|]. repeat constructor.
    + exists []. constructor; simpl; auto.
Qed.

Lemma trigger_get_grants (s : sim) :
  exists new, granted_by s (trigger_get s) new.
Proof. apply trigger_get_loop_grants. Qed.

Lemma trigger_put_returns (s : sim) :
  exists new, returned_by s (trigger_put s) new.
Proof. apply trigger_put_loop_returns. Qed.

(** With unit requests, [_trigger_get] grants as many as the level allows. *)
Lemma trigger_get_loop_spec (pending : list Z) (s : sim) :
  Forall (eq 1) pending -> 0 <= level s ->
  exists new,
    granted_by s (trigger_get_loop pending s) new /\
    Forall (fun e => e_event e = GetGranted 1) new /\
    level (trigger_get_loop pending s) = level s - Z.of_nat (length new) /\
    0 <= level (trigger_get_loop pending s) /\
    Forall (eq 1) (get_queue (trigger_get_loop pending s)) /\
    length pending = (length new + length (get_queue (trigger_get_loop pending s)))%nat.
Proof.
  intros Hp. revert s. induction Hp as [|a rest Ha Hrest IH]; intros s Hl.
  - exists []. split; [constructor; simpl; auto|].
    repeat split; simpl; auto; try lia.
  - subst a. cbn [trigger_get_loop].
    destruct (1 <=? level s) eqn:Hle.
    + apply Z.leb_le in Hle.
      destruct (IH (schedule (GetGranted 1) NORMAL 0 (set_level (level s - 1) s)))
        as (new & G & E & Lv & Lp & Gq & Ln); [simpl; lia|].
      exists (new ++ [mkEntry (now s + 0)%Q NORMAL (eid s) (GetGranted 1)]).
      destruct G. fields.
      split.
      { constructor; fields; auto.
        - rewrite gr_queue0, <- app_assoc. reflexivity.
        - apply Forall_app. split; [exact gr_new0|]. repeat constructor. }
      split. { apply Forall_app. split; [exact E|]. repeat constructor. }
      split. { rewrite Lv, length_app. simpl. lia. }
      split; [exact Lp|]. split; [exact Gq|].
      rewrite length_app. simpl. lia.
    + exists []. apply Z.leb_gt in Hle.
      split; [constructor; simpl; auto|].
      repeat split; simpl; auto; try lia.
Qed.

Lemma trigger_get_spec (s : sim) :
  Forall (eq 1) (get_queue s) -> 0 <= level s ->
  exists new,
    granted_by s (trigger_get s) new /\
    Forall (fun e => e_event e = GetGranted 1) new /\
    level (trigger_get s) = level s - Z.of_nat (length new) /\
    0 <= level (trigger_get s) /\
    Forall (eq 1) (get_queue (trigger_get s)) /\
    length (get_queue s) = (length new + length (get_queue (trigger_get s)))%nat.
Proof. apply trigger_get_loop_spec. Qed.

Lemma w_out_nonneg (ev : event) : 0 <= w_out ev.
Proof. destruct ev; simpl; lia. Qed.

Lemma w_rep_nonneg (ev : event) : 0 <= w_rep ev.
Proof. destruct ev; simpl; lia. Qed.

Lemma w_granted_nonneg (ev : event) : 0 <= w_granted ev.
Proof. destruct ev; simpl; lia. Qed.

Lemma w_returned_nonneg (ev : event) : 0 <= w_returned ev.
Proof. destruct ev; simpl; lia. Qed.

Lemma w_failed_nonneg (ev : event) : 0 <= w_failed ev.
Proof. destruct ev; simpl; lia. Qed.

Lemma granted_amount_one (new : list entry) :
  Forall (fun e => e_event e = GetGranted 1) new -> Forall amount_one new.
Proof.
  apply Forall_impl. intros e He. unfold amount_one. rewrite He. reflexivity.
Qed.

Ltac by_grant G :=
  rewrite ?(gr_queue _ _ _ G), ?(gr_now _ _ _ G),
    ?(gr_capacity _ _ _ G), ?(gr_put_queue _ _ _ G),
    ?(gr_total_arrivals _ _ _ G), ?(gr_served _ _ _ G),
    ?(gr_in_repair _ _ _ G), ?(gr_timeseries _ _ _ G), ?(gr_rng _ _ _ G),
    ?qsum_app.

Ltac by_return R :=
  rewrite ?(rt_queue _ _ _ R), ?(rt_now _ _ _ R),
    ?(rt_capacity _ _ _ R), ?(rt_get_queue _ _ _ R),
    ?(rt_total_arrivals _ _ _ R), ?(rt_served _ _ _ R),
    ?(rt_in_repair _ _ _ R), ?(rt_timeseries _ _ _ R), ?(rt_rng _ _ _ R),
    ?qsum_app.

Ltac acc_done :=
  constructor; fields; cbn [w_out w_rep w_granted amount_one]; auto; try lia;
  repeat (constructor; fields; auto).

Section Bookkeeping.

Variable draws : nat -> Q.
Variables demand_rate repair_cycle_time record_interval : Q.

Lemma accounting_step (cap : Z) (s : sim) :
  accounting cap s ->
  let s' := result_state
              (step draws demand_rate repair_cycle_time record_interval s) in
  accounting cap s' \/ doomed s'.
Proof.
  intros A. unfold step.
  destruct (heappop (queue s)) as [[e q]|] eqn:Hpop; [|left; exact A].
  pose proof (heappop_qsum w_out _ _ _ Hpop) as Ho.
  pose proof (heappop_qsum w_rep _ _ _ Hpop) as Hr.
  pose proof (heappop_qsum w_granted _ _ _ Hpop) as Hg.
  pose proof (qsum_nonneg w_out q w_out_nonneg) as Po.
  pose proof (qsum_nonneg w_failed q w_failed_nonneg) as Pf.
  destruct A as [Ac Au Ar Aa Al Ag Ap Am].
  destruct (heappop_Forall _ _ _ _ Hpop Am) as [Me Mq].
  unfold amount_one in Me.
  destruct (e_event e) eqn:Hev; cbn [dispatch result_state w_out w_rep w_granted] in *.
  - (* InitGenerator *)
    left. unfold vehicle_generator_loop, expovariate.
    destruct (Qeq_bool demand_rate 0); [acc_done|].
    unfold env_timeout. destruct (Qle_bool 0 _); acc_done.
  - (* InitObserver *)
    left. unfold metrics_observer_loop, env_timeout.
    destruct (Qle_bool 0 _); acc_done.
  - (* InitVehicle *)
    left. unfold vehicle_start, container_get. cbn [Z.leb Z.compare].
    match goal with |- accounting _ (trigger_get ?s1) =>
      destruct (trigger_get_spec s1) as (new & G & E & Gl & Gp & Gg & L) end;
      [fields; apply Forall_app; split; [exact Ag | repeat constructor]
      | fields; exact Al |].
    fields. rewrite length_app in L. cbn [length] in L.
    constructor; fields; auto; by_grant G; rewrite ?(qsum_const _ _ _ E);
      fields; cbn [w_out w_rep w_granted]; auto; try lia.
    apply Forall_app. split; [|exact Mq].
    apply granted_amount_one, E.
  - (* InitRepair *)
    unfold repair_start, env_timeout.
    destruct (Qle_bool 0 _); [left; acc_done|].
    right. unfold doomed. fields. cbn [w_failed]. lia.
  - (* TimeoutGenerator *)
    left. unfold vehicle_generator_resume, vehicle_generator_loop, expovariate.
    cbn [env_process schedule].
    destruct (Qeq_bool demand_rate 0); [acc_done|].
    unfold env_timeout. destruct (Qle_bool 0 _); acc_done.
  - (* TimeoutObserver *)
    left. unfold metrics_observer_loop, env_timeout.
    destruct (Qle_bool 0 _); acc_done.
  - (* TimeoutRepair *)
    left. unfold repair_put, container_put, trigger_put. cbn [Z.leb Z.compare].
    fields. rewrite Ap. cbn [app trigger_put_loop]. fields.
    destruct (1 <=? capacity s - level s) eqn:Hroom;
      [|apply Z.leb_gt in Hroom; lia].
    acc_done.
  - (* GetGranted *)
    left. unfold vehicle_finish, trigger_put. fields. rewrite Ap.
    cbn [trigger_put_loop]. acc_done.
  - (* PutGranted *)
    left. unfold repair_finish.
    match goal with |- accounting _ (process_end (set_in_repair _ (trigger_get ?s1))) =>
      destruct (trigger_get_spec s1) as (new & G & E & Gl & Gp & Gg & L) end;
      [exact Ag | exact Al |].
    fields.
    constructor; fields; auto; by_grant G; rewrite ?(qsum_const _ _ _ E);
      fields; cbn [w_out w_rep w_granted]; auto; try lia.
    constructor; [exact I|]. apply Forall_app. split; [|exact Mq].
    apply granted_amount_one, E.
  - (* ProcessEnded *)
    left. acc_done.
  - (* ProcessFailed *)
    left. acc_done.
  - (* UntilEvent *)
    left. acc_done.
Qed.

(** A repair that gives its unit back always finds room in the pool. *)
Lemma release_always_fits (cap : Z) (s : sim) (e : entry) (q : list entry) :
  accounting cap s -> heappop (queue s) = Some (e, q) ->
  e_event e = TimeoutRepair -> 1 <= capacity s - level s.
Proof.
  intros A Hpop Hev.
  pose proof (heappop_qsum w_out _ _ _ Hpop) as Ho. rewrite Hev in Ho.
  pose proof (qsum_nonneg w_out q w_out_nonneg).
  destruct A. cbn [w_out] in Ho. lia.
Qed.

End Bookkeeping.

(** * The clock and the horizon *)

Lemma qsum_pos_In (w : event -> Z) (q : list entry) :
  0 < qsum w q -> exists e, In e q /\ w (e_event e) <> 0.
Proof.
  induction q as [|x q IH]; simpl; [lia|]. intros H.
  destruct (Z.eq_dec (w (e_event x)) 0) as [E|E].
  - destruct IH as [e [He Hw]]; [lia|]. exists e. auto.
  - exists x. auto.
Qed.

Lemma qsum_zero (w : event -> Z) (P : event -> Prop) (q : list entry) :
  (forall ev, P ev -> w ev = 0) ->
  Forall (fun e => P (e_event e)) q -> qsum w q = 0.
Proof.
  intros Hw. induction 1 as [|e q He _ IH]; simpl; [reflexivity|].
  rewrite (Hw _ He). lia.
Qed.

Lemma w_until_nonneg (ev : event) : 0 <= w_until ev.
Proof. destruct ev; simpl; lia. Qed.

Ltac timed_entry :=
  match goal with
  | |- entry_timed _ _ _ =>
      constructor; fields; cbn [is_urgent immediate];
      intros; try discriminate; try reflexivity; try lra
  end.

Lemma granted_timed (sim_time t : Q) (new : list entry) :
  Forall (fun e => is_get (e_event e) /\ e_prio e = NORMAL
                   /\ e_time e = (t + 0)%Q) new ->
  Forall (entry_timed sim_time t) new.
Proof.
  apply Forall_impl. intros e (He & Hp & Ht).
  destruct (e_event e) eqn:Hev; try contradiction.
  constructor; rewrite ?Hev, ?Hp, ?Ht; cbn [is_urgent immediate];
    intros; try discriminate; try reflexivity; lra.
Qed.

Lemma returned_timed (sim_time t : Q) (new : list entry) :
  Forall (fun e => is_put (e_event e) /\ e_prio e = NORMAL
                   /\ e_time e = (t + 0)%Q) new ->
  Forall (entry_timed sim_time t) new.
Proof.
  apply Forall_impl. intros e (He & Hp & Ht).
  destruct (e_event e) eqn:Hev; try contradiction.
  constructor; rewrite ?Hev, ?Hp, ?Ht; cbn [is_urgent immediate];
    intros; try discriminate; try reflexivity; lra.
Qed.

Lemma granted_qsum (w : event -> Z) (t : Q) (new : list entry) :
  (forall a, w (GetGranted a) = 0) ->
  Forall (fun e => is_get (e_event e) /\ e_prio e = NORMAL
                   /\ e_time e = t) new ->
  qsum w new = 0.
Proof.
  intros Hw. induction 1 as [|e q (He & _) _ IH]; simpl; [reflexivity|].
  destruct (e_event e); try contradiction. rewrite Hw. lia.
Qed.

Lemma returned_qsum (w : event -> Z) (t : Q) (new : list entry) :
  (forall a, w (PutGranted a) = 0) ->
  Forall (fun e => is_put (e_event e) /\ e_prio e = NORMAL
                   /\ e_time e = t) new ->
  qsum w new = 0.
Proof.
  intros Hw. induction 1 as [|e q (He & _) _ IH]; simpl; [reflexivity|].
  destruct (e_event e); try contradiction. rewrite Hw. lia.
Qed.

Ltac tm_done :=
  constructor; fields; cbn [w_until]; auto; try lia;
  repeat (constructor; auto; try timed_entry).

Section Horizon.

Variable draws : nat -> Q.
Variables demand_rate repair_cycle_time record_interval : Q.
Variable sim_time : Q.

(** An event popped before the until event lies strictly before the
    horizon: at the horizon itself only URGENT events could precede the
    until event, and those are scheduled for the current instant. *)
Lemma timing_pop (s : sim) (e : entry) (q : list entry) :
  timing sim_time s -> heappop (queue s) = Some (e, q) ->
  e_event e <> UntilEvent -> (e_time e < sim_time)%Q.
Proof.
  intros [Hu Hn He Hs] Hpop Hne.
  destruct (heappop_Forall _ _ _ _ Hpop He) as [Te Tq].
  pose proof (heappop_min _ _ _ Hpop) as Hmin.
  pose proof (heappop_qsum w_until _ _ _ Hpop) as Hq.
  assert (Hqu : 0 < qsum w_until q).
  { destruct (e_event e); cbn [w_until] in Hq; try lia. congruence. }
  destruct (qsum_pos_In _ _ Hqu) as [u [Hin Hw]].
  assert (Hue : e_event u = UntilEvent)
    by (destruct (e_event u); cbn [w_until] in Hw; congruence).
  rewrite Forall_forall in Hmin, Tq.
  pose proof (entry_le_time _ _ (Hmin u Hin)) as Hle.
  destruct (Tq u Hin) as [_ Pu _ Uu]. specialize (Uu Hue).
  rewrite Hue in Pu. cbn [is_urgent] in Pu.
  destruct (Qlt_le_dec (e_time e) sim_time) as [Hl|Hge]; [exact Hl|].
  exfalso.
  assert (Heq : (e_time e == e_time u)%Q) by lra.
  pose proof (entry_le_prio _ _ (Hmin u Hin) Heq) as Hp.
  destruct Te as [_ Pe Ie _].
  destruct (e_event e); cbn [is_urgent immediate] in *;
    unfold URGENT, NORMAL in *; try lia; try congruence;
    specialize (Ie eq_refl); lra.
Qed.

Lemma timing_step (s : sim) :
  timing sim_time s ->
  match step draws demand_rate repair_cycle_time record_interval s with
  | Continue s' => timing sim_time s'
  | Stop s' => at_horizon sim_time s'
  | Raise _ _ => True
  end.
Proof.
  intros [Hu Hn He Hs]. unfold step.
  destruct (heappop (queue s)) as [[e q]|] eqn:Hpop; [|exact I].
  destruct (heappop_Forall _ _ _ _ Hpop He) as [Te Tq].
  pose proof (heappop_min _ _ _ Hpop) as Hmin.
  pose proof (heappop_qsum w_until _ _ _ Hpop) as Hq.
  pose proof (et_future _ _ _ Te) as Hfut.
  assert (Hrest : Forall (entry_timed sim_time (e_time e)) q).
  { rewrite Forall_forall in *. intros x Hx.
    pose proof (entry_le_time _ _ (Hmin x Hx)) as Hle.
    destruct (Tq x Hx) as [F P Im U].
    constructor; auto. intros Hi. specialize (Im Hi). lra. }
  assert (Hlt : e_event e <> UntilEvent -> (e_time e < sim_time)%Q)
  by (apply (timing_pop s e q); [constructor; assumption | exact Hpop]).
pose proof (qsum_nonneg w_until q w_until_nonneg) as Pq.
  destruct (e_event e) eqn:Hev; cbn [dispatch w_until] in *;
    try (assert (Hlt' : (e_time e < sim_time)%Q) by (apply Hlt; discriminate)).
  - (* InitGenerator *)
    unfold vehicle_generator_loop, expovariate.
    destruct (Qeq_bool demand_rate 0); [tm_done|].
    unfold env_timeout. match goal with |- context [Qle_bool 0 ?d] => destruct (Qle_bool 0 d) eqn:Hd end;
      [apply Qle_bool_iff in Hd|]; tm_done.
  - (* InitObserver *)
    unfold metrics_observer_loop, env_timeout.
    match goal with |- context [Qle_bool 0 ?d] => destruct (Qle_bool 0 d) eqn:Hd end; [apply Qle_bool_iff in Hd|]; tm_done;
      apply Forall_app; split; auto; repeat constructor; exact Hlt'.
  - (* InitVehicle *)
    unfold vehicle_start, container_get. cbn [Z.leb Z.compare].
    match goal with |- timing _ (trigger_get ?s1) =>
      destruct (trigger_get_grants s1) as [new G] end.
    pose proof (granted_timed sim_time _ _ (gr_new _ _ _ G)) as Gt.
    pose proof (granted_qsum w_until _ _ (fun _ => eq_refl) (gr_new _ _ _ G)) as Gz.
    constructor; by_grant G; fields; cbn [w_until]; auto; try lia.
    apply Forall_app. split; auto.
  - (* InitRepair *)
    unfold repair_start, env_timeout.
    match goal with |- context [Qle_bool 0 ?d] => destruct (Qle_bool 0 d) eqn:Hd end; [apply Qle_bool_iff in Hd|]; tm_done.
  - (* TimeoutGenerator *)
    unfold vehicle_generator_resume, vehicle_generator_loop, expovariate.
    cbn [env_process schedule].
    destruct (Qeq_bool demand_rate 0); [tm_done|].
    unfold env_timeout. match goal with |- context [Qle_bool 0 ?d] => destruct (Qle_bool 0 d) eqn:Hd end;
      [apply Qle_bool_iff in Hd|]; tm_done.
  - (* TimeoutObserver *)
    unfold metrics_observer_loop, env_timeout.
    match goal with |- context [Qle_bool 0 ?d] => destruct (Qle_bool 0 d) eqn:Hd end; [apply Qle_bool_iff in Hd|]; tm_done;
      apply Forall_app; split; auto; repeat constructor; exact Hlt'.
  - (* TimeoutRepair *)
    unfold repair_put, container_put. cbn [Z.leb Z.compare].
    match goal with |- timing _ (trigger_put ?s1) =>
      destruct (trigger_put_returns s1) as [new R] end.
    pose proof (returned_timed sim_time _ _ (rt_new _ _ _ R)) as Rt.
    pose proof (returned_qsum w_until _ _ (fun _ => eq_refl) (rt_new _ _ _ R)) as Rz.
    constructor; by_return R; fields; cbn [w_until]; auto; try lia.
    apply Forall_app. split; auto.
  - (* GetGranted *)
    unfold vehicle_finish.
    match goal with |- timing _ (process_end (env_process _ (set_served _ (trigger_put ?s1)))) =>
      destruct (trigger_put_returns s1) as [new R] end.
    pose proof (returned_timed sim_time _ _ (rt_new _ _ _ R)) as Rt.
    pose proof (returned_qsum w_until _ _ (fun _ => eq_refl) (rt_new _ _ _ R)) as Rz.
    constructor; fields; by_return R; fields; cbn [w_until]; auto; try lia.
    constructor; [timed_entry|]. constructor; [timed_entry|].
    apply Forall_app. split; auto.
  - (* PutGranted *)
    unfold repair_finish.
    match goal with |- timing _ (process_end (set_in_repair _ (trigger_get ?s1))) =>
      destruct (trigger_get_grants s1) as [new G] end.
    pose proof (granted_timed sim_time _ _ (gr_new _ _ _ G)) as Gt.
    pose proof (granted_qsum w_until _ _ (fun _ => eq_refl) (gr_new _ _ _ G)) as Gz.
    constructor; fields; by_grant G; fields; cbn [w_until]; auto; try lia.
    constructor; [timed_entry|]. apply Forall_app. split; auto.
  - (* ProcessEnded *)
    tm_done.
  - (* ProcessFailed *)
    exact I.
  - (* UntilEvent *)
    pose proof (et_until _ _ _ Te Hev) as Eu.
    constructor; fields; auto.
    rewrite Forall_forall in *. intros x Hx.
    pose proof (entry_le_time _ _ (Hmin x Hx)) as Hle.
    split; [lra|].
    destruct (immediate (e_event x)) eqn:Hi; [|reflexivity].
    pose proof (et_immediate _ _ _ (Tq x Hx) Hi). lra.
Qed.

Lemma doomed_step (s : sim) :
  doomed s ->
  match step draws demand_rate repair_cycle_time record_interval s with
  | Continue s' | Stop s' => doomed s'
  | Raise _ _ => True
  end.
Proof.
  unfold doomed, step. intros D.
  destruct (heappop (queue s)) as [[e q]|] eqn:Hpop; [|exact I].
  pose proof (heappop_qsum w_failed _ _ _ Hpop) as Hq.
  destruct (e_event e) eqn:Hev; cbn [dispatch w_failed] in *.
  - unfold vehicle_generator_loop, expovariate.
    destruct (Qeq_bool demand_rate 0); [fields; cbn [w_failed]; lia|].
    unfold env_timeout.
    match goal with |- context [Qle_bool 0 ?d] => destruct (Qle_bool 0 d) end;
      fields; cbn [w_failed]; lia.
  - unfold metrics_observer_loop, env_timeout.
    match goal with |- context [Qle_bool 0 ?d] => destruct (Qle_bool 0 d) end;
      fields; cbn [w_failed]; lia.
  - unfold vehicle_start, container_get. cbn [Z.leb Z.compare].
    match goal with |- context [trigger_get ?s1] =>
      destruct (trigger_get_grants s1) as [new G] end.
    pose proof (qsum_nonneg w_failed new w_failed_nonneg).
    by_grant G. fields. lia.
  - unfold repair_start, env_timeout.
    match goal with |- context [Qle_bool 0 ?d] => destruct (Qle_bool 0 d) end;
      fields; cbn [w_failed]; lia.
  - unfold vehicle_generator_resume, vehicle_generator_loop, expovariate.
    cbn [env_process schedule].
    destruct (Qeq_bool demand_rate 0); [fields; cbn [w_failed]; lia|].
    unfold env_timeout.
    match goal with |- context [Qle_bool 0 ?d] => destruct (Qle_bool 0 d) end;
      fields; cbn [w_failed]; lia.
  - unfold metrics_observer_loop, env_timeout.
    match goal with |- context [Qle_bool 0 ?d] => destruct (Qle_bool 0 d) end;
      fields; cbn [w_failed]; lia.
  - unfold repair_put, container_put. cbn [Z.leb Z.compare].
    match goal with |- context [trigger_put ?s1] =>
      destruct (trigger_put_returns s1) as [new R] end.
    pose proof (qsum_nonneg w_failed new w_failed_nonneg).
    by_return R. fields. lia.
  - unfold vehicle_finish.
    match goal with |- context [trigger_put ?s1] =>
      destruct (trigger_put_returns s1) as [new R] end.
    pose proof (qsum_nonneg w_failed new w_failed_nonneg).
    fields. by_return R. fields. cbn [w_failed]. lia.
  - unfold repair_finish.
    match goal with |- context [trigger_get ?s1] =>
      destruct (trigger_get_grants s1) as [new G] end.
    pose proof (qsum_nonneg w_failed new w_failed_nonneg).
    fields. by_grant G. fields. cbn [w_failed]. lia.
  - fields. lia.
  - exact I.
  - fields. lia.
Qed.

Lemma at_horizon_no_immediate (w : event -> Z) (s : sim) :
  (forall ev, immediate ev = false -> w ev = 0) ->
  at_horizon sim_time s -> qsum w (queue s) = 0.
Proof.
  intros Hw H. apply (qsum_zero w (fun ev => immediate ev = false)); [exact Hw|].
  eapply Forall_impl; [|exact (hz_entries _ _ H)]. intros e [_ Hi]. exact Hi.
Qed.

Lemma at_horizon_not_doomed (s : sim) : at_horizon sim_time s -> ~ doomed s.
Proof.
  intros H D. unfold doomed in D.
  rewrite (at_horizon_no_immediate w_failed s) in D; [lia| |exact H].
  intros ev; destruct ev; simpl; intros; congruence.
Qed.

End Horizon.

(** * Runs of the event loop *)

Section Runs.

Variable draws : nat -> Q.
Variables dr rct ri : Q.
Variable sim_time : Q.

(** A bookkeeping invariant: a step keeps it or dooms the run. *)
Variable J : sim -> Prop.
Hypothesis J_step :
  forall s, timing sim_time s -> J s ->
  let s' := result_state (step draws dr rct ri s) in J s' \/ doomed s'.

Lemma nth_state_inv (P : sim -> Prop) :
  (forall s s', P s -> step draws dr rct ri s = Continue s' -> P s') ->
  forall n s s', P s -> nth_state draws dr rct ri n s = Some s' -> P s'.
Proof.
  intros HP. induction n as [|n IH]; intros s s' Hs Hn; simpl in Hn.
  - inversion Hn; subst. exact Hs.
  - destruct (step draws dr rct ri s) eqn:Hst; try discriminate.
    eapply IH; [|exact Hn]. eapply HP; eauto.
Qed.

Lemma nth_state_S (n : nat) (s : sim) :
  nth_state draws dr rct ri (S n) s =
  match step draws dr rct ri s with
  | Continue s' => nth_state draws dr rct ri n s'
  | _ => None
  end.
Proof. reflexivity. Qed.

Lemma nth_state_snoc (n : nat) (s : sim) :
  nth_state draws dr rct ri (S n) s =
  match nth_state draws dr rct ri n s with
  | Some s1 =>
      match step draws dr rct ri s1 with
      | Continue s2 => Some s2
      | _ => None
      end
  | None => None
  end.
Proof.
  revert s. induction n as [|n IH]; intros s.
  - simpl. destruct (step draws dr rct ri s); reflexivity.
  - rewrite (nth_state_S (S n) s), (nth_state_S n s).
    destruct (step draws dr rct ri s); try reflexivity. apply IH.
Qed.

Lemma run_loop_finishes (fuel : nat) (s sf : sim) :
  run_loop draws dr rct ri fuel s = Finished sf -> finishes draws dr rct ri s sf.
Proof.
  revert s. induction fuel as [|fuel IH]; intros s H; simpl in H; [discriminate|].
  destruct (step draws dr rct ri s) eqn:Hst.
  - destruct (IH _ H) as (n & s1 & Hn & Hs).
    exists (S n), s1. simpl. rewrite Hst. auto.
  - inversion H; subst. exists O, s. auto.
  - discriminate.
Qed.

Lemma finishes_run_loop (s sf : sim) :
  finishes draws dr rct ri s sf ->
  exists fuel, run_loop draws dr rct ri fuel s = Finished sf.
Proof.
  intros (n & s1 & Hn & Hs). revert s Hn.
  induction n as [|n IH]; intros s Hn; simpl in Hn.
  - inversion Hn; subst. exists 1%nat. simpl. rewrite Hs. reflexivity.
  - destruct (step draws dr rct ri s) eqn:Hst; try discriminate.
    destruct (IH _ Hn) as [fuel Hf]. exists (S fuel). simpl. rewrite Hst. exact Hf.
Qed.

Lemma finishes_step (s s' sf : sim) :
  step draws dr rct ri s = Continue s' ->
  finishes draws dr rct ri s sf -> finishes draws dr rct ri s' sf.
Proof.
  intros Hst (n & s1 & Hn & Hs). destruct n as [|n]; simpl in Hn.
  - inversion Hn; subst. congruence.
  - rewrite Hst in Hn. exists n, s1. auto.
Qed.

Lemma finishes_nth (n : nat) (s s0 sf : sim) :
  nth_state draws dr rct ri n s = Some s0 ->
  finishes draws dr rct ri s sf -> finishes draws dr rct ri s0 sf.
Proof.
  revert s. induction n as [|n IH]; intros s Hn F; simpl in Hn.
  - inversion Hn; subst. exact F.
  - destruct (step draws dr rct ri s) eqn:Hst; try discriminate.
    eapply IH; [exact Hn|]. eapply finishes_step; eauto.
Qed.

Lemma sound_step (s s' : sim) :
  sound J sim_time s -> step draws dr rct ri s = Continue s' ->
  sound J sim_time s'.
Proof.
  intros [T [A|D]] Hst.
  - split.
    + pose proof (timing_step draws dr rct ri sim_time s T) as H.
      rewrite Hst in H. exact H.
    + pose proof (J_step s T A) as H.
      cbv zeta in H. rewrite Hst in H. exact H.
  - split.
    + pose proof (timing_step draws dr rct ri sim_time s T) as H.
      rewrite Hst in H. exact H.
    + right. pose proof (doomed_step draws dr rct ri s D) as H.
      rewrite Hst in H. exact H.
Qed.

Lemma finishes_not_doomed (s sf : sim) :
  timing sim_time s -> finishes draws dr rct ri s sf -> ~ doomed s.
Proof.
  intros T (n & s1 & Hn & Hs). revert s T Hn.
  induction n as [|n IH]; intros s T Hn D; simpl in Hn.
  - inversion Hn; subst.
    pose proof (timing_step draws dr rct ri sim_time s1 T) as H.
    pose proof (doomed_step draws dr rct ri s1 D) as H'.
    rewrite Hs in H, H'. exact (at_horizon_not_doomed _ _ H H').
  - destruct (step draws dr rct ri s) eqn:Hst; try discriminate.
    pose proof (timing_step draws dr rct ri sim_time s T) as H.
    pose proof (doomed_step draws dr rct ri s D) as H'.
    rewrite Hst in H, H'. exact (IH _ H Hn H').
Qed.

Lemma finishes_inv (s sf : sim) :
  sound J sim_time s -> finishes draws dr rct ri s sf -> J s.
Proof.
  intros [T [A|D]] F; [exact A|].
  exfalso. exact (finishes_not_doomed s sf T F D).
Qed.

Lemma finishes_last (s sf : sim) :
  sound J sim_time s -> finishes draws dr rct ri s sf ->
  exists s1, step draws dr rct ri s1 = Stop sf /\ timing sim_time s1 /\ J s1.
Proof.
  intros S F. destruct F as (n & s1 & Hn & Hs).
  assert (S1 : sound J sim_time s1)
    by (eapply (nth_state_inv (sound J sim_time)); eauto using sound_step).
  exists s1. split; [exact Hs|]. split; [exact (proj1 S1)|].
  eapply finishes_inv; [exact S1|].
  exists O, s1. split; [reflexivity | exact Hs].
Qed.

Lemma finishes_horizon (s sf : sim) :
  sound J sim_time s -> finishes draws dr rct ri s sf ->
  at_horizon sim_time sf /\ J sf.
Proof.
  intros S F. destruct (finishes_last s sf S F) as (s1 & Hs & T1 & A1).
  pose proof (timing_step draws dr rct ri sim_time s1 T1) as H.
  pose proof (J_step s1 T1 A1) as H'.
  cbv zeta in H'. rewrite Hs in H, H'. cbn [result_state] in H'.
  split; [exact H|]. destruct H' as [A|D]; [exact A|].
  exfalso. exact (at_horizon_not_doomed _ _ H D).
Qed.

Lemma step_timeseries (s : sim) :
  let s' := result_state (step draws dr rct ri s) in
  timeseries s' = timeseries s
  \/ exists sn, sampled_in s sn /\ timeseries s' = timeseries s ++ [sn].
Proof.
  unfold step. destruct (heappop (queue s)) as [[e q]|] eqn:Hpop; [|left; reflexivity].
  cbv zeta. fold (popped e q s).
  destruct (e_event e) eqn:Hev; cbn [dispatch result_state].
  - left. unfold vehicle_generator_loop, expovariate.
    destruct (Qeq_bool dr 0); [reflexivity|]. unfold env_timeout.
    match goal with |- context [Qle_bool 0 ?d] => destruct (Qle_bool 0 d) end;
      reflexivity.
  - right. exists (take_snapshot (popped e q s)). split.
    + exists e, q. rewrite Hev. repeat split; auto.
    + unfold metrics_observer_loop, env_timeout.
      destruct (Qle_bool 0 ri); reflexivity.
  - left. unfold vehicle_start, container_get. cbn [Z.leb Z.compare].
    match goal with |- context [trigger_get ?s1] =>
      destruct (trigger_get_grants s1) as [new G] end.
    by_grant G. reflexivity.
  - left. unfold repair_start, env_timeout.
    destruct (Qle_bool 0 rct); reflexivity.
  - left. unfold vehicle_generator_resume, vehicle_generator_loop, expovariate.
    cbn [env_process schedule].
    destruct (Qeq_bool dr 0); [reflexivity|]. unfold env_timeout.
    match goal with |- context [Qle_bool 0 ?d] => destruct (Qle_bool 0 d) end;
      reflexivity.
  - right. exists (take_snapshot (popped e q s)). split.
    + exists e, q. rewrite Hev. repeat split; auto.
    + unfold metrics_observer_loop, env_timeout.
      destruct (Qle_bool 0 ri); reflexivity.
  - left. unfold repair_put, container_put. cbn [Z.leb Z.compare].
    match goal with |- context [trigger_put ?s1] =>
      destruct (trigger_put_returns s1) as [new R] end.
    by_return R. reflexivity.
  - left. unfold vehicle_finish.
    match goal with |- context [trigger_put ?s1] =>
      destruct (trigger_put_returns s1) as [new R] end.
    fields. by_return R. reflexivity.
  - left. unfold repair_finish.
    match goal with |- context [trigger_get ?s1] =>
      destruct (trigger_get_grants s1) as [new G] end.
    fields. by_grant G. reflexivity.
  - left. reflexivity.
  - left. reflexivity.
  - left. reflexivity.
Qed.

(** Every snapshot of the series was recorded in a state of the run. *)
Lemma nth_state_samples (start : sim) :
  timeseries start = [] ->
  forall n s, nth_state draws dr rct ri n start = Some s ->
  forall sn, In sn (timeseries s) ->
  exists k s0, nth_state draws dr rct ri k start = Some s0 /\ sampled_in s0 sn.
Proof.
  intros He. induction n as [|n IH]; intros s Hn sn Hin.
  - simpl in Hn. inversion Hn; subst. rewrite He in Hin. contradiction.
  - rewrite nth_state_snoc in Hn.
    destruct (nth_state draws dr rct ri n start) as [s1|] eqn:H1; [|discriminate].
    destruct (step draws dr rct ri s1) as [s2| |] eqn:Hst; try discriminate.
    inversion Hn; subst s2. clear Hn.
    pose proof (step_timeseries s1) as Ht. cbv zeta in Ht.
    rewrite Hst in Ht. cbn [result_state] in Ht.
    destruct Ht as [Ht | (sn' & Hs & Ht)]; rewrite Ht in Hin.
    + exact (IH s1 eq_refl sn Hin).
    + apply in_app_or in Hin. destruct Hin as [Hin | [<- | []]].
      * exact (IH s1 eq_refl sn Hin).
      * exists n, s1. auto.
Qed.

Lemma finishes_samples (start sf : sim) :
  sound J sim_time start -> timeseries start = [] ->
  finishes draws dr rct ri start sf ->
  forall sn, In sn (timeseries sf) ->
  exists k s0, nth_state draws dr rct ri k start = Some s0
               /\ J s0 /\ timing sim_time s0 /\ sampled_in s0 sn.
Proof.
  intros S He F sn Hin. pose proof F as (n & s1 & Hn & Hs).
  assert (Ht : timeseries sf = timeseries s1).
  { unfold step in Hs.
    destruct (heappop (queue s1)) as [[e q]|]; [|discriminate].
    destruct (e_event e); cbn [dispatch] in Hs; try discriminate.
    inversion Hs; subst. reflexivity. }
  rewrite Ht in Hin.
  destruct (nth_state_samples start He n s1 Hn sn Hin) as (k & s0 & Hk & Hsn).
  exists k, s0.
  assert (S0 : sound J sim_time s0)
    by (eapply (nth_state_inv (sound J sim_time)); eauto using sound_step).
  split; [exact Hk|]. split; [|split; [exact (proj1 S0) | exact Hsn]].
  eapply finishes_inv; [exact S0|]. eapply finishes_nth; eauto.
Qed.

End Runs.

(** * The state the event loop starts from *)

Lemma started_fields (initial_supply : Z) (sim_time : Q) (start : sim) :
  started initial_supply sim_time start ->
  1 <= initial_supply /\ (0 < sim_time)%Q /\
  start = mkSim 0
            [mkEntry (0 + (sim_time - 0))%Q URGENT 2 UntilEvent;
             mkEntry (0 + 0)%Q URGENT 1 InitObserver;
             mkEntry (0 + 0)%Q URGENT 0 InitGenerator]
            3 initial_supply initial_supply [] [] 0 0 0 [] 0.
Proof.
  intros (s0 & Hc & Hu & ->). unfold configured, Container in Hc.
  destruct (initial_supply <=? 0) eqn:H1; [discriminate|].
  destruct (initial_supply <? 0) eqn:H2; [discriminate|].
  destruct (initial_supply <? initial_supply) eqn:H3; [discriminate|].
  inversion Hc; subst s0; clear Hc. cbn in Hu.
  apply Z.leb_gt in H1. split; [lia|]. split; [|reflexivity].
  destruct (Qlt_le_dec 0 sim_time) as [H|H]; [exact H|].
  apply Qle_bool_iff in H. congruence.
Qed.

Lemma started_timing (initial_supply : Z) (sim_time : Q) (start : sim) :
  started initial_supply sim_time start -> timing sim_time start.
Proof.
  intros H. destruct (started_fields _ _ _ H) as (Hn & Ht & ->).
  constructor; fields; cbn [w_until]; auto; try lia.
  repeat (constructor; try timed_entry).
Qed.

Lemma started_accounting (initial_supply : Z) (sim_time : Q) (start : sim) :
  started initial_supply sim_time start -> accounting initial_supply start.
Proof.
  intros H. destruct (started_fields _ _ _ H) as (Hn & Ht & ->).
  constructor; fields; cbn [w_out w_rep w_granted]; auto; try lia.
  repeat constructor.
Qed.

Lemma returned_run (fuel : nat) (draws : nat -> Q) (initial_supply : Z)
    (dr rct sim_time : Q) (ri : option Q) (fm : final_metrics)
    (ts : list snapshot) :
  run_simulation fuel draws initial_supply dr rct sim_time ri = Returned fm ts ->
  exists start sf,
    started initial_supply sim_time start
    /\ finishes draws dr rct (effective_interval ri) start sf
    /\ fm = compute_final_metrics sf /\ ts = timeseries sf.
Proof.
  unfold run_simulation, run_simulation_state, env_run. intros H.
  destruct (configured initial_supply) as [e|s0] eqn:Hc; [discriminate|].
  destruct (Qle_bool sim_time (now s0)) eqn:Hu; [discriminate|].
  match type of H with match ?r with _ => _ end = _ => destruct r as [sf| |] eqn:Hr end;
    try discriminate.
  inversion H; subst. eexists; exists sf. split; [exists s0; eauto|].
  split; [|auto]. eapply run_loop_finishes; eauto.
Qed.

(** With a positive supply and a positive horizon, construction succeeds
    and [run_simulation] enters the event loop. *)
Lemma run_simulation_state_started (draws : nat -> Q) (initial_supply : Z)
    (dr rct sim_time ri : Q) :
  1 <= initial_supply -> (0 < sim_time)%Q ->
  exists start, started initial_supply sim_time start
                /\ forall fuel,
                     run_simulation_state fuel draws initial_supply dr rct sim_time ri
                     = run_loop draws dr rct ri fuel start.
Proof.
  intros H Ht. unfold run_simulation_state, started, configured, Container, env_run.
  destruct (initial_supply <=? 0) eqn:E1; [apply Z.leb_le in E1; lia|].
  destruct (initial_supply <? 0) eqn:E2; [apply Z.ltb_lt in E2; lia|].
  destruct (initial_supply <? initial_supply) eqn:E3; [apply Z.ltb_lt in E3; lia|].
  assert (Hu : Qle_bool sim_time 0 = false).
  { destruct (Qle_bool sim_time 0) eqn:E; [|reflexivity].
    apply Qle_bool_iff in E. lra. }
  unfold Environment. cbn [now env_process schedule set_eid set_queue].
  rewrite Hu. eexists. split; [|reflexivity].
  eexists. split; [reflexivity|]. split; [exact Hu | reflexivity].
Qed.

Lemma qsum_in_flight (q : list entry) :
  qsum w_out q + qsum w_returned q
  = qsum w_rep q + qsum w_granted q + qsum w_starting q.
Proof.
  induction q as [|e q IH]; cbn [qsum]; [reflexivity|].
  destruct (e_event e); cbn [w_out w_returned w_rep w_granted w_starting]; lia.
Qed.

Lemma accounting_only_step (draws : nat -> Q) (dr rct ri sim_time : Q) (cap : Z)
    (s : sim) :
  timing sim_time s -> accounting cap s ->
  let s' := result_state (step draws dr rct ri s) in
  accounting cap s' \/ doomed s'.
Proof. intros _. apply accounting_step. Qed.

Lemma coincidence_run_returns :
  run_simulation 100 draws_two_then_far 1 1 5 3 (Some 1%Q)
  = Returned coincidence_metrics coincidence_series.
Proof. vm_compute. reflexivity. Qed.

(** * Conservation of units *)

(** C1, as stated, fails: with one unit and an arrival at time 2, the
    snapshot sampled at time 2 is taken after the container granted the unit
    and before the repair process counted it, so that available_supply +
    in_repair is 0 while initial_supply is 1. *)
Lemma conservation_counterexample :
  run_simulation 100 draws_two_then_far 1 1 5 3 (Some 1%Q)
  = Returned coincidence_metrics coincidence_series /\
  exists sn, In sn coincidence_series /\
             snap_available_supply sn + snap_in_repair sn <> 1.
Proof.
  split; [exact coincidence_run_returns|].
  exists (mkSnapshot 2 0 0 0 1 0 0). split; [simpl; auto|].
  simpl. discriminate.
Qed.

(** C1 (amended): a run that returns conserves units in final_metrics, and
    every snapshot of its series was recorded in a state of the run where
    available_supply + in_repair differs from initial_supply exactly by the
    units in flight in the event queue: gets granted but not yet consumed by
    their vehicle, plus repairs not yet started, minus puts granted but not
    yet acknowledged by their repair.  A snapshot sampled while none of these
    is pending conserves units. *)
Theorem conservation_at_rest (fuel : nat) (draws : nat -> Q) (initial_supply : Z)
    (dr rct sim_time : Q) (ri : option Q) (fm : final_metrics)
    (ts : list snapshot) :
  run_simulation fuel draws initial_supply dr rct sim_time ri = Returned fm ts ->
  fm_available_supply fm + fm_in_repair fm = initial_supply /\
  exists start,
    started initial_supply sim_time start /\
    forall sn, In sn ts ->
    exists k s0,
      nth_state draws dr rct (effective_interval ri) k start = Some s0
      /\ sampled_in s0 sn
      /\ snap_available_supply sn + snap_in_repair sn
         + qsum w_granted (queue s0) + qsum w_starting (queue s0)
         - qsum w_returned (queue s0) = initial_supply.
Proof.
  intros H. destruct (returned_run _ _ _ _ _ _ _ _ _ H) as (start & sf & St & F & -> & ->).
  pose proof (accounting_only_step draws dr rct (effective_interval ri) sim_time
                initial_supply) as Jstep.
  assert (S : sound (accounting initial_supply) sim_time start)
    by (split; [eapply started_timing | left; eapply started_accounting]; eauto).
  split.
  - destruct (finishes_horizon _ _ _ _ _ _ Jstep _ _ S F) as [Hz A].
    pose proof (qsum_in_flight (queue sf)) as Hq.
    rewrite (at_horizon_no_immediate sim_time w_granted sf) in Hq;
      [|intros ev; destruct ev; simpl; congruence | exact Hz].
    rewrite (at_horizon_no_immediate sim_time w_starting sf) in Hq;
      [|intros ev; destruct ev; simpl; congruence | exact Hz].
    rewrite (at_horizon_no_immediate sim_time w_returned sf) in Hq;
      [|intros ev; destruct ev; simpl; congruence | exact Hz].
    destruct A. cbn [compute_final_metrics fm_available_supply fm_in_repair]. lia.
  - exists start. split; [exact St|]. intros sn Hin.
    assert (He : timeseries start = []).
    { destruct (started_fields _ _ _ St) as (_ & _ & ->). reflexivity. }
    destruct (finishes_samples _ _ _ _ _ _ Jstep _ _ S He F sn Hin)
      as (k & s0 & Hk & A & _ & Hs).
    exists k, s0. split; [exact Hk|]. split; [exact Hs|].
    destruct Hs as (e & q & Hpop & _ & ->).
    pose proof (qsum_in_flight (queue s0)) as Hq.
    destruct A. cbn [take_snapshot popped snap_available_supply snap_in_repair].
    fields. lia.
Qed.

Lemma conservation_at_rest_witness :
  run_simulation 100 draws_two_then_far 1 1 5 3 (Some 1%Q)
  = Returned coincidence_metrics coincidence_series /\
  fm_available_supply coincidence_metrics + fm_in_repair coincidence_metrics = 1 /\
  exists start,
    started 1 3 start /\
    forall sn, In sn coincidence_series ->
    exists k s0,
      nth_state draws_two_then_far 1 5 1 k start = Some s0
      /\ sampled_in s0 sn
      /\ snap_available_supply sn + snap_in_repair sn
         + qsum w_granted (queue s0) + qsum w_starting (queue s0)
         - qsum w_returned (queue s0) = 1.
Proof.
  pose proof coincidence_run_returns as H. split; [exact H|].
  exact (conservation_at_rest _ _ _ _ _ _ _ _ _ H).
Defined.

(** * Backlog *)

(** C3, as stated, fails: in the same run the snapshot sampled at time 2
    records backlog 0 while total_arrivals - served is 1: the arrival has
    been granted its unit, so it has left the get queue, and its vehicle has
    not yet counted it as served. *)
Lemma backlog_counterexample :
  run_simulation 100 draws_two_then_far 1 1 5 3 (Some 1%Q)
  = Returned coincidence_metrics coincidence_series /\
  exists sn, In sn coincidence_series /\
             snap_backlog sn <> snap_total_arrivals sn - snap_served sn.
Proof.
  split; [exact coincidence_run_returns|].
  exists (mkSnapshot 2 0 0 0 1 0 0). split; [simpl; auto|].
  simpl. discriminate.
Qed.

(** C3 (amended): every snapshot of a run that returns was recorded in a
    state of the run whose get queue has exactly backlog pending requests,
    and there total_arrivals - served is the backlog plus the number of gets
    granted whose vehicle has not resumed; the two agree in every snapshot
    sampled while no granted get is pending in the event queue. *)
Theorem backlog_identity_at_rest (fuel : nat) (draws : nat -> Q)
    (initial_supply : Z) (dr rct sim_time : Q) (ri : option Q)
    (fm : final_metrics) (ts : list snapshot) :
  run_simulation fuel draws initial_supply dr rct sim_time ri = Returned fm ts ->
  exists start,
    started initial_supply sim_time start /\
    forall sn, In sn ts ->
    exists k s0,
      nth_state draws dr rct (effective_interval ri) k start = Some s0
      /\ sampled_in s0 sn
      /\ snap_backlog sn = Z.of_nat (length (get_queue s0))
      /\ snap_total_arrivals sn - snap_served sn
         = snap_backlog sn + qsum w_granted (queue s0).
Proof.
  intros H. destruct (returned_run _ _ _ _ _ _ _ _ _ H) as (start & sf & St & F & -> & ->).
  pose proof (accounting_only_step draws dr rct (effective_interval ri) sim_time
                initial_supply) as Jstep.
  assert (S : sound (accounting initial_supply) sim_time start)
    by (split; [eapply started_timing | left; eapply started_accounting]; eauto).
  exists start. split; [exact St|]. intros sn Hin.
  assert (He : timeseries start = []).
  { destruct (started_fields _ _ _ St) as (_ & _ & ->). reflexivity. }
  destruct (finishes_samples _ _ _ _ _ _ Jstep _ _ S He F sn Hin)
    as (k & s0 & Hk & A & _ & Hs).
  exists k, s0. split; [exact Hk|]. split; [exact Hs|].
  destruct Hs as (e & q & Hpop & _ & ->).
  destruct A.
  cbn [take_snapshot popped snap_backlog snap_total_arrivals snap_served].
  fields. split; [reflexivity | lia].
Qed.

Lemma backlog_identity_at_rest_witness :
  run_simulation 100 draws_two_then_far 1 1 5 3 (Some 1%Q)
  = Returned coincidence_metrics coincidence_series /\
  exists start,
    started 1 3 start /\
    forall sn, In sn coincidence_series ->
    exists k s0,
      nth_state draws_two_then_far 1 5 1 k start = Some s0
      /\ sampled_in s0 sn
      /\ snap_backlog sn = Z.of_nat (length (get_queue s0))
      /\ snap_total_arrivals sn - snap_served sn
         = snap_backlog sn + qsum w_granted (queue s0).
Proof.
  pose proof coincidence_run_returns as H. split; [exact H|].
  exact (backlog_identity_at_rest _ _ _ _ _ _ _ _ _ H).
Defined.

(** * The optional argument *)

(** C10: a call that omits record_interval behaves as the call that passes
    record_interval = 1.0. *)
Theorem record_interval_default (fuel : nat) (draws : nat -> Q)
    (initial_supply : Z) (dr rct sim_time : Q) :
  run_simulation fuel draws initial_supply dr rct sim_time None
  = run_simulation fuel draws initial_supply dr rct sim_time (Some 1%Q).
Proof. reflexivity. Qed.

(** * Inputs out of range *)

(** C7, as stated, fails: no run with initial_supply = 0 returns. *)
Lemma zero_supply_counterexample :
  ~ exists fuel fm ts,
      run_simulation fuel draws_two_then_far 0 1 5 3 (Some 1%Q) = Returned fm ts.
Proof. intros (fuel & fm & ts & H). cbv in H. discriminate. Qed.

(** C7 (amended): with initial_supply = 0 the container is refused at
    construction (its capacity must be positive); run_simulation raises
    ValueError before the event loop is entered, whatever the other inputs,
    and nothing is scheduled or recorded. *)
Theorem zero_supply_rejected (fuel : nat) (draws : nat -> Q)
    (dr rct sim_time : Q) (ri : option Q) :
  run_simulation fuel draws 0 dr rct sim_time ri
  = Raised (ValueError CapacityNotPositive)
  /\ run_simulation_state fuel draws 0 dr rct sim_time (effective_interval ri)
     = Failed (ValueError CapacityNotPositive) Environment.
Proof. split; reflexivity. Qed.

(** C5, as stated, fails: with repair_cycle_time = 0 run_simulation raises
    nothing and returns; with demand_rate = 0 it raises ZeroDivisionError
    from inside the event loop, after the observer recorded a snapshot. *)
Lemma eager_validation_counterexample :
  run_simulation 100 draws_two_then_far 1 1 0 3 (Some 1%Q)
  = Returned (mkFinal 1 1 1 0 1 0)
      [mkSnapshot 0 1 0 0 0 0 0; mkSnapshot 1 1 0 0 0 0 0;
       mkSnapshot 2 0 0 0 1 0 0]
  /\ exists s, run_simulation_state 100 draws_two_then_far 1 0 5 3 1
               = Failed ZeroDivisionError s
               /\ timeseries s = [mkSnapshot 0 1 0 0 0 0 0].
Proof.
  split; [vm_compute; reflexivity|].
  eexists. split; [vm_compute; reflexivity | reflexivity].
Qed.

(** C5 (amended): run_simulation validates nothing itself and raises no
    ConfigError.  SimPy refuses initial_supply < 1 (the container) and
    sim_time <= 0 (the horizon) with ValueError before any event is
    processed; demand_rate, repair_cycle_time and record_interval are not
    looked at before the event loop starts. *)
Theorem construction_checks (fuel : nat) (draws : nat -> Q) (initial_supply : Z)
    (dr rct sim_time ri : Q) :
  (initial_supply < 1 ->
   run_simulation_state fuel draws initial_supply dr rct sim_time ri
   = Failed (ValueError CapacityNotPositive) Environment)
  /\ (1 <= initial_supply -> (sim_time <= 0)%Q ->
      exists s0, configured initial_supply = inr s0
                 /\ timeseries s0 = []
                 /\ run_simulation_state fuel draws initial_supply dr rct sim_time ri
                    = Failed (ValueError UntilNotAfterNow) s0)
  /\ (1 <= initial_supply -> (0 < sim_time)%Q ->
      exists start, started initial_supply sim_time start
                    /\ run_simulation_state fuel draws initial_supply dr rct sim_time ri
                       = run_loop draws dr rct ri fuel start).
Proof.
  unfold run_simulation_state, configured, Container, env_run.
  split; [|split].
  - intros H. destruct (initial_supply <=? 0) eqn:E; [reflexivity|].
    apply Z.leb_gt in E. lia.
  - intros H Ht.
    destruct (initial_supply <=? 0) eqn:E1; [apply Z.leb_le in E1; lia|].
    destruct (initial_supply <? 0) eqn:E2; [apply Z.ltb_lt in E2; lia|].
    destruct (initial_supply <? initial_supply) eqn:E3; [apply Z.ltb_lt in E3; lia|].
    eexists. split; [reflexivity|]. split; [reflexivity|].
    unfold Environment. cbn [now env_process schedule set_eid set_queue].
    apply Qle_bool_iff in Ht. rewrite Ht. reflexivity.
  - intros H Ht.
    destruct (run_simulation_state_started draws initial_supply dr rct sim_time ri
                H Ht) as (start & St & Hrun).
    exists start. split; [exact St|].
    unfold run_simulation_state, configured, Container, env_run in Hrun.
    exact (Hrun fuel).
Qed.

Lemma construction_checks_witness :
  (0 < 1 /\ 1 <= 1 /\ (0 <= 0)%Q)
  /\ run_simulation_state 5 draws_two_then_far 0 1 5 3 1
     = Failed (ValueError CapacityNotPositive) Environment
  /\ exists s0, configured 1 = inr s0 /\ timeseries s0 = []
                /\ run_simulation_state 5 draws_two_then_far 1 1 5 0 1
                   = Failed (ValueError UntilNotAfterNow) s0.
Proof.
  split; [repeat split; try lia; apply Qle_refl|]. split.
  - refine (proj1 (construction_checks 5 draws_two_then_far 0 1 5 3 1) _). lia.
  - refine (proj1 (proj2 (construction_checks 5 draws_two_then_far 1 1 5 0 1)) _ _);
      [lia | apply Qle_refl].
Defined.

(** * A put that does not fit *)

(** C6, as stated, fails: a put of one unit into a full pool raises nothing.
    The level stays at the capacity, the request waits in put_queue and no
    event is scheduled, so the repair process that yielded it stays
    suspended: the step that resumes the repair at the end of its timeout
    continues the loop and schedules no failure. *)
Lemma pool_overflow_counterexample :
  capacity full_pool - level full_pool < 1
  /\ container_put 1 full_pool = inr (set_put_queue [1] full_pool)
  /\ repair_put full_pool = set_put_queue [1] full_pool
  /\ step draws_two_then_far 1 5 1 full_pool_repair_due
     = Continue (mkSim 0 [] 1 1 1 [] [1] 0 0 1 [] 0).
Proof. repeat split. Qed.

Section Waiting_put.

Variable draws : nat -> Q.
Variables dr rct ri : Q.

(** The repair resumed by its timeout finds the pool full: the step
    changes nothing but put_queue. *)
Lemma full_put_blocks (s : sim) (e : entry) (q : list entry) :
  heappop (queue s) = Some (e, q) -> e_event e = TimeoutRepair ->
  put_queue s = [] -> capacity s - level s < 1 ->
  step draws dr rct ri s = Continue (set_put_queue [1] (popped e q s)).
Proof.
  intros Hpop Hev Hp Hfull. unfold step. rewrite Hpop, Hev. cbn [dispatch].
  unfold repair_put, container_put, trigger_put. cbn [Z.leb Z.compare].
  fields. rewrite Hp. cbn [app trigger_put_loop]. fields.
  destruct (1 <=? capacity s - level s) eqn:E; [apply Z.leb_le in E; lia|].
  reflexivity.
Qed.

(** While the put at the head of put_queue does not fit, no step grants
    it or any put behind it. *)
Lemma full_put_waits (s s' : sim) (a : Z) (rest : list Z) :
  step draws dr rct ri s = Continue s' ->
  put_queue s = a :: rest -> capacity s - level s < a ->
  (exists more, put_queue s' = a :: rest ++ more)
  /\ qsum w_returned (queue s') <= qsum w_returned (queue s).
Proof.
  unfold step. intros Hst Hp Hfull.
  destruct (heappop (queue s)) as [[e q]|] eqn:Hpop; [|discriminate].
  pose proof (heappop_qsum w_returned _ _ _ Hpop) as Hq.
  pose proof (w_returned_nonneg (e_event e)) as Hw.
  assert (Hno : (a <=? capacity s - level s) = false) by (apply Z.leb_gt; lia).
  destruct (e_event e) eqn:Hev; cbn [dispatch] in Hst; try discriminate;
    inversion Hst; subst s'; clear Hst.
  - (* InitGenerator *)
    unfold vehicle_generator_loop, expovariate.
    destruct (Qeq_bool dr 0);
      [split; [exists []; fields; rewrite app_nil_r; exact Hp
              | fields; cbn [w_returned] in *; lia]|].
    unfold env_timeout.
    match goal with |- context [Qle_bool 0 ?d] => destruct (Qle_bool 0 d) end;
      (split; [exists []; fields; rewrite app_nil_r; exact Hp
              | fields; cbn [w_returned] in *; lia]).
  - (* InitObserver *)
    unfold metrics_observer_loop, env_timeout.
    destruct (Qle_bool 0 ri);
      (split; [exists []; fields; rewrite app_nil_r; exact Hp
              | fields; cbn [w_returned] in *; lia]).
  - (* InitVehicle *)
    unfold vehicle_start, container_get. cbn [Z.leb Z.compare].
    match goal with |- context [trigger_get ?s1] =>
      destruct (trigger_get_grants s1) as [new G];
      pose proof (granted_qsum w_returned _ _ (fun _ => eq_refl) (gr_new _ _ _ G))
    end.
    split; [exists []|]; by_grant G; fields;
      [rewrite app_nil_r; exact Hp | cbn [w_returned] in *; lia].
  - (* InitRepair *)
    unfold repair_start, env_timeout.
    destruct (Qle_bool 0 rct);
      (split; [exists []; fields; rewrite app_nil_r; exact Hp
              | fields; cbn [w_returned] in *; lia]).
  - (* TimeoutGenerator *)
    unfold vehicle_generator_resume, vehicle_generator_loop, expovariate.
    cbn [env_process schedule].
    destruct (Qeq_bool dr 0);
      [split; [exists []; fields; rewrite app_nil_r; exact Hp
              | fields; cbn [w_returned] in *; lia]|].
    unfold env_timeout.
    match goal with |- context [Qle_bool 0 ?d] => destruct (Qle_bool 0 d) end;
      (split; [exists []; fields; rewrite app_nil_r; exact Hp
              | fields; cbn [w_returned] in *; lia]).
  - (* TimeoutObserver *)
    unfold metrics_observer_loop, env_timeout.
    destruct (Qle_bool 0 ri);
      (split; [exists []; fields; rewrite app_nil_r; exact Hp
              | fields; cbn [w_returned] in *; lia]).
  - (* TimeoutRepair *)
    unfold repair_put, container_put, trigger_put. cbn [Z.leb Z.compare].
    fields. rewrite Hp. cbn [app trigger_put_loop]. fields. rewrite Hno.
    split; [exists [1]; reflexivity | fields; cbn [w_returned] in *; lia].
  - (* GetGranted *)
    unfold vehicle_finish, trigger_put. fields. rewrite Hp.
    cbn [trigger_put_loop]. fields. rewrite Hno.
    split; [exists []; fields; rewrite app_nil_r; reflexivity
           | fields; cbn [w_returned] in *; lia].
  - (* PutGranted *)
    unfold repair_finish.
    match goal with |- context [trigger_get ?s1] =>
      destruct (trigger_get_grants s1) as [new G];
      pose proof (granted_qsum w_returned _ _ (fun _ => eq_refl) (gr_new _ _ _ G))
    end.
    split; [exists []|]; fields; by_grant G; fields;
      [rewrite app_nil_r; exact Hp | cbn [w_returned] in *; lia].
  - (* ProcessEnded *)
    split; [exists []; fields; rewrite app_nil_r; exact Hp | fields; lia].
Qed.

(** The event of a granted get runs [_trigger_put] first: a waiting put
    that now fits is granted there. *)
Lemma room_wakes_put (s : sim) (e : entry) (q : list entry) (a b : Z) :
  heappop (queue s) = Some (e, q) -> e_event e = GetGranted b ->
  put_queue s = [a] -> a <= capacity s - level s ->
  exists s',
    step draws dr rct ri s = Continue s'
    /\ put_queue s' = [] /\ level s' = level s + a
    /\ In (mkEntry (e_time e + 0)%Q NORMAL (eid s) (PutGranted a)) (queue s').
Proof.
  intros Hpop Hev Hp Hroom. unfold step. rewrite Hpop, Hev. cbn [dispatch].
  eexists. split; [reflexivity|].
  unfold vehicle_finish, trigger_put. fields. rewrite Hp.
  cbn [trigger_put_loop]. fields.
  destruct (a <=? capacity s - level s) eqn:E; [|apply Z.leb_gt in E; lia].
  cbn [trigger_put_loop]. fields.
  split; [reflexivity|]. split; [reflexivity|]. right. right. left. reflexivity.
Qed.

End Waiting_put.

(** In a run that returns no put ever waits: whenever a repair gives its
    unit back there is room for it. *)
Lemma returned_puts_fit (fuel : nat) (draws : nat -> Q) (initial_supply : Z)
    (dr rct sim_time : Q) (ri : option Q) (fm : final_metrics)
    (ts : list snapshot) :
  run_simulation fuel draws initial_supply dr rct sim_time ri = Returned fm ts ->
  exists start,
    started initial_supply sim_time start
    /\ forall k s0,
         nth_state draws dr rct (effective_interval ri) k start = Some s0 ->
         put_queue s0 = []
         /\ forall e q, heappop (queue s0) = Some (e, q) ->
                        e_event e = TimeoutRepair -> 1 <= capacity s0 - level s0.
Proof.
  intros H. destruct (returned_run _ _ _ _ _ _ _ _ _ H) as (start & sf & St & F & _ & _).
  exists start. split; [exact St|]. intros k s0 Hk.
  pose proof (accounting_only_step draws dr rct (effective_interval ri) sim_time
                initial_supply) as Jstep.
  assert (S : sound (accounting initial_supply) sim_time start)
    by (split; [eapply started_timing | left; eapply started_accounting]; eauto).
  assert (S0 : sound (accounting initial_supply) sim_time s0).
  { apply (nth_state_inv draws dr rct (effective_interval ri)
             (sound (accounting initial_supply) sim_time)) with (n := k) (s := start);
      auto.
    intros s s' Hs Hst. eapply sound_step; eauto. }
  pose proof (finishes_inv _ _ _ _ _ _ _ _ S0 (finishes_nth _ _ _ _ _ _ _ _ Hk F)) as A.
  split; [exact (acc_puts _ _ A)|].
  intros e q Hpop Hev. exact (release_always_fits _ _ _ _ A Hpop Hev).
Qed.

(** C6 (amended): a put that would push the level above the capacity
    raises nothing and clamps nothing.  When the repair resumed by its
    timeout finds the pool full, the loop continues with the level
    unchanged, the request in put_queue and no event scheduled: the repair
    process stays suspended.  It stays so for as long as the put does not
    fit: no step removes it from put_queue or grants a put.  Once a get has
    made room, the event of that get grants the put: the level rises by the
    amount and the event that resumes the repair is scheduled.  Within
    run_simulation none of this arises: in every state of a run that
    returns put_queue is empty and a repair that ends finds room. *)
Theorem put_beyond_capacity_blocks (draws : nat -> Q) (dr rct ri : Q) :
  (forall s e q,
     heappop (queue s) = Some (e, q) -> e_event e = TimeoutRepair ->
     put_queue s = [] -> capacity s - level s < 1 ->
     step draws dr rct ri s = Continue (set_put_queue [1] (popped e q s)))
  /\ (forall s s' a rest,
       step draws dr rct ri s = Continue s' ->
       put_queue s = a :: rest -> capacity s - level s < a ->
       (exists more, put_queue s' = a :: rest ++ more)
       /\ qsum w_returned (queue s') <= qsum w_returned (queue s))
  /\ (forall s e q a b,
       heappop (queue s) = Some (e, q) -> e_event e = GetGranted b ->
       put_queue s = [a] -> a <= capacity s - level s ->
       exists s',
         step draws dr rct ri s = Continue s'
         /\ put_queue s' = [] /\ level s' = level s + a
         /\ In (mkEntry (e_time e + 0)%Q NORMAL (eid s) (PutGranted a)) (queue s'))
  /\ (forall fuel initial_supply sim_time record_interval fm ts,
       run_simulation fuel draws initial_supply dr rct sim_time record_interval
       = Returned fm ts ->
       exists start,
         started initial_supply sim_time start
         /\ forall k s0,
              nth_state draws dr rct (effective_interval record_interval) k start
              = Some s0 ->
              put_queue s0 = []
              /\ forall e q, heappop (queue s0) = Some (e, q) ->
                             e_event e = TimeoutRepair ->
                             1 <= capacity s0 - level s0).
Proof.
  split; [|split; [|split]].
  - intros s e q. apply full_put_blocks.
  - intros s s' a rest. apply full_put_waits.
  - intros s e q a b. apply room_wakes_put.
  - intros fuel initial_supply sim_time record_interval fm ts.
    apply returned_puts_fit.
Qed.

Lemma put_beyond_capacity_blocks_witness :
  (heappop (queue full_pool_repair_due)
   = Some (mkEntry 0 NORMAL 0 TimeoutRepair, [])
   /\ put_queue full_pool_repair_due = []
   /\ capacity full_pool_repair_due - level full_pool_repair_due < 1)
  /\ step draws_two_then_far 1 5 1 full_pool_repair_due
     = Continue (set_put_queue [1]
                   (popped (mkEntry 0 NORMAL 0 TimeoutRepair) [] full_pool_repair_due))
  /\ exists s',
       step draws_two_then_far 1 5 1 room_made = Continue s'
       /\ put_queue s' = [] /\ level s' = level room_made + 1
       /\ In (mkEntry (0 + 0)%Q NORMAL (eid room_made) (PutGranted 1)) (queue s').
Proof.
  split; [repeat split|]. split.
  - exact (proj1 (put_beyond_capacity_blocks draws_two_then_far 1 5 1)
             full_pool_repair_due (mkEntry 0 NORMAL 0 TimeoutRepair) []
             eq_refl eq_refl eq_refl eq_refl).
  - exact (proj1 (proj2 (proj2 (put_beyond_capacity_blocks draws_two_then_far 1 5 1)))
             room_made (mkEntry 0 NORMAL 1 (GetGranted 1)) [] 1 1
             eq_refl eq_refl eq_refl ltac:(cbn; lia)).
Defined.

(** * Determinism *)

Lemma step_ext (d1 d2 : nat -> Q) (dr rct ri : Q) (s : sim) :
  (forall k, d1 k = d2 k) -> step d1 dr rct ri s = step d2 dr rct ri s.
Proof.
  intros H. unfold step. destruct (heappop (queue s)) as [[e q]|]; [|reflexivity].
  destruct (e_event e); cbn [dispatch]; try reflexivity;
    unfold vehicle_generator_resume, vehicle_generator_loop, expovariate;
    rewrite H; reflexivity.
Qed.

Lemma run_loop_ext (d1 d2 : nat -> Q) (dr rct ri : Q) (fuel : nat) (s : sim) :
  (forall k, d1 k = d2 k) -> run_loop d1 dr rct ri fuel s = run_loop d2 dr rct ri fuel s.
Proof.
  intros H. revert s. induction fuel as [|fuel IH]; intros s; [reflexivity|].
  cbn [run_loop]. rewrite (step_ext d1 d2 dr rct ri s H).
  destruct (step d2 dr rct ri s); auto.
Qed.

(** Two entries neither of which precedes the other have the same event
    id. *)
Lemma entry_tie (a b : entry) :
  entry_ltb a b = false -> entry_ltb b a = false -> e_eid a = e_eid b.
Proof.
  unfold entry_ltb. rewrite <- (Qcompare_antisym (e_time a) (e_time b)).
  destruct (Qcompare (e_time a) (e_time b)); cbn [CompOpp]; try discriminate.
  rewrite (Z.compare_antisym (e_prio a) (e_prio b)).
  destruct (Z.compare (e_prio a) (e_prio b)); cbn [CompOpp]; try discriminate.
  intros H1 H2. apply Nat.ltb_ge in H1, H2. lia.
Qed.

Lemma eid_injective (q : list entry) (x y : entry) :
  NoDup (map e_eid q) -> In x q -> In y q -> e_eid x = e_eid y -> x = y.
Proof.
  induction q as [|z q IH]; cbn [map In]; intros Hnd Hx Hy Hxy; [contradiction|].
  inversion Hnd as [|? ? Hz Hq]; subst.
  destruct Hx as [->|Hx], Hy as [->|Hy]; auto.
  - exfalso. apply Hz. rewrite Hxy. apply in_map. exact Hy.
  - exfalso. apply Hz. rewrite <- Hxy. apply in_map. exact Hx.
Qed.

(** With distinct event ids the least entry is the same however the heap
    is laid out. *)
Lemma heappop_layout (q q' : list entry) (e : entry) (r : list entry) :
  NoDup (map e_eid q) -> Permutation q q' -> heappop q = Some (e, r) ->
  exists r', heappop q' = Some (e, r') /\ Permutation r r'.
Proof.
  intros Hnd Hp Hpop.
  destruct (heappop q') as [[e' r']|] eqn:Hpop'.
  - pose proof (heappop_perm _ _ _ Hpop) as P.
    pose proof (heappop_perm _ _ _ Hpop') as P'.
    pose proof (heappop_min _ _ _ Hpop) as M.
    pose proof (heappop_min _ _ _ Hpop') as M'.
    rewrite Forall_forall in M, M'.
    assert (He : In e q) by (apply (Permutation_in _ (Permutation_sym P)); left; reflexivity).
    assert (He' : In e' q).
    { apply (Permutation_in _ (Permutation_sym Hp)).
      apply (Permutation_in _ (Permutation_sym P')). left. reflexivity. }
    assert (E : e' = e).
    { destruct (Permutation_in _ P He') as [K|K]; [auto|].
      assert (K' : In e (e' :: r')).
      { apply (Permutation_in _ P'). apply (Permutation_in _ Hp). exact He. }
      destruct K' as [K'|K']; [auto|].
      apply (eid_injective q); auto.
      apply entry_tie; [exact (M e' K) | exact (M' e K')]. }
    subst e'. exists r'. split; [reflexivity|].
    apply (Permutation_cons_inv (a := e)).
    eapply Permutation_trans; [apply Permutation_sym; exact P|].
    eapply Permutation_trans; [exact Hp | exact P'].
  - apply heappop_none in Hpop'. subst q'.
    apply Permutation_sym, Permutation_nil in Hp. subst q. discriminate.
Qed.

Lemma fresh_nil (a : nat) : fresh a a [].
Proof. split; [lia|]. split; constructor. Qed.

Lemma fresh_one (a : nat) (t : Q) (p : Z) (ev : event) :
  fresh a (S a) [mkEntry t p a ev].
Proof.
  split; [lia|]. split.
  - repeat constructor. intros [].
  - repeat constructor; cbn; lia.
Qed.

Lemma fresh_app (a b c : nat) (n1 n2 : list entry) :
  fresh a b n1 -> fresh b c n2 -> fresh a c (n2 ++ n1).
Proof.
  intros (H1 & N1 & F1) (H2 & N2 & F2). split; [lia|]. split.
  - rewrite map_app. apply NoDup_app; [exact N2 | exact N1 |].
    intros x Hx2 Hx1. apply in_map_iff in Hx1, Hx2.
    destruct Hx1 as (y1 & <- & Hy1), Hx2 as (y2 & Hy & Hy2).
    rewrite Forall_forall in F1, F2.
    specialize (F1 y1 Hy1). specialize (F2 y2 Hy2). lia.
  - apply Forall_app. split.
    + eapply Forall_impl; [|exact F2]. cbn. intros; lia.
    + eapply Forall_impl; [|exact F1]. cbn. intros; lia.
Qed.

(** Pushing fresh entries keeps the event ids apart. *)
Lemma keyed_fresh (s t : sim) (new r : list entry) :
  NoDup (map e_eid r) -> Forall (fun e => (e_eid e < eid s)%nat) r ->
  fresh (eid s) (eid t) new -> queue t = new ++ r -> keyed t.
Proof.
  intros Nr Fr (H & Nn & Fn) Hq. unfold keyed. rewrite Hq. split.
  - rewrite map_app. apply NoDup_app; [exact Nn | exact Nr |].
    intros x Hx2 Hx1. apply in_map_iff in Hx1, Hx2.
    destruct Hx1 as (y1 & <- & Hy1), Hx2 as (y2 & Hy & Hy2).
    rewrite Forall_forall in Fr, Fn.
    specialize (Fr y1 Hy1). specialize (Fn y2 Hy2). lia.
  - apply Forall_app. split.
    + eapply Forall_impl; [|exact Fn]. cbn. intros; lia.
    + eapply Forall_impl; [|exact Fr]. cbn. intros; lia.
Qed.

Lemma pushes_comp (h1 h2 : sim -> sim) :
  pushes h1 -> pushes h2 -> pushes (fun s => h2 (h1 s)).
Proof.
  intros P1 P2 s. destruct (P1 s) as (n1 & F1 & E1).
  destruct (P2 (h1 s)) as (n2 & F2 & E2).
  exists (n2 ++ n1). split; [exact (fresh_app _ _ _ _ _ F1 F2)|].
  intros q. rewrite E1, E2, app_assoc. reflexivity.
Qed.

Lemma trigger_get_loop_pushes (pending : list Z) :
  pushes (trigger_get_loop pending).
Proof.
  induction pending as [|a rest IH]; intros s.
  - exists []. split; [apply fresh_nil | reflexivity].
  - cbn [trigger_get_loop]. destruct (a <=? level s) eqn:E.
    + destruct (IH (schedule (GetGranted a) NORMAL 0 (set_level (level s - a) s)))
        as (new & F & H).
      exists (new ++ [mkEntry (now s + 0)%Q NORMAL (eid s) (GetGranted a)]).
      split; [exact (fresh_app _ _ _ _ _ (fresh_one _ _ _ _) F)|].
      intros q. change (level (set_queue q s)) with (level s). rewrite E.
      rewrite <- app_assoc. rewrite <- H. reflexivity.
    + exists []. split; [apply fresh_nil|].
      intros q. change (level (set_queue q s)) with (level s). rewrite E.
      reflexivity.
Qed.

Lemma trigger_put_loop_pushes (pending : list Z) :
  pushes (trigger_put_loop pending).
Proof.
  induction pending as [|a rest IH]; intros s.
  - exists []. split; [apply fresh_nil | reflexivity].
  - cbn [trigger_put_loop]. destruct (a <=? capacity s - level s) eqn:E.
    + destruct (IH (schedule (PutGranted a) NORMAL 0 (set_level (level s + a) s)))
        as (new & F & H).
      exists (new ++ [mkEntry (now s + 0)%Q NORMAL (eid s) (PutGranted a)]).
      split; [exact (fresh_app _ _ _ _ _ (fresh_one _ _ _ _) F)|].
      intros q.
      change (capacity (set_queue q s) - level (set_queue q s))
        with (capacity s - level s). rewrite E.
      rewrite <- app_assoc. rewrite <- H. reflexivity.
    + exists []. split; [apply fresh_nil|].
      intros q.
      change (capacity (set_queue q s) - level (set_queue q s))
        with (capacity s - level s). rewrite E.
      reflexivity.
Qed.

Lemma trigger_get_pushes : pushes trigger_get.
Proof.
  intros s. destruct (trigger_get_loop_pushes (get_queue s) s) as (new & F & H).
  exists new. split; [exact F|]. intros q. exact (H q).
Qed.

Lemma trigger_put_pushes : pushes trigger_put.
Proof.
  intros s. destruct (trigger_put_loop_pushes (put_queue s) s) as (new & F & H).
  exists new. split; [exact F|]. intros q. exact (H q).
Qed.

(** A handler that pushes one entry, taken from the counter. *)
Ltac pushes_one :=
  eexists [_]; split; revgoals;
  [intros ?; cbv - [Qplus Qdiv Qminus Z.add Z.sub Z.of_nat app satisfaction];
   reflexivity
  | apply fresh_one].

Section Layout.

Variable draws : nat -> Q.
Variables dr rct ri : Q.

Lemma vehicle_generator_loop_pushes : pushes (vehicle_generator_loop draws dr).
Proof.
  intros [t0 q0 n0 lv cp gq pq ta sv ir ts rg].
  unfold vehicle_generator_loop, expovariate. fields.
  destruct (Qeq_bool dr 0); [pushes_one|].
  unfold env_timeout.
  destruct (Qle_bool 0 (draws rg / dr)); pushes_one.
Qed.

Lemma env_process_pushes (init : event) : pushes (env_process init).
Proof. intros [t0 q0 n0 lv cp gq pq ta sv ir ts rg]. pushes_one. Qed.

Lemma vehicle_generator_resume_pushes :
  pushes (vehicle_generator_resume draws dr).
Proof.
  exact (pushes_comp _ _ (env_process_pushes InitVehicle)
           vehicle_generator_loop_pushes).
Qed.

Lemma metrics_observer_loop_pushes : pushes (metrics_observer_loop ri).
Proof.
  intros [t0 q0 n0 lv cp gq pq ta sv ir ts rg].
  unfold metrics_observer_loop, env_timeout. fields.
  destruct (Qle_bool 0 ri); pushes_one.
Qed.

Lemma repair_start_pushes : pushes (repair_start rct).
Proof.
  intros [t0 q0 n0 lv cp gq pq ta sv ir ts rg].
  unfold repair_start, env_timeout. fields.
  destruct (Qle_bool 0 rct); pushes_one.
Qed.

Lemma vehicle_start_pushes : pushes vehicle_start.
Proof.
  assert (P : pushes (fun s => set_get_queue (get_queue s ++ [1])
                                 (set_total_arrivals (total_arrivals s + 1) s))).
  { intros s. exists []. split; [apply fresh_nil | reflexivity]. }
  intros s. exact (pushes_comp _ _ P trigger_get_pushes s).
Qed.

Lemma repair_put_pushes : pushes repair_put.
Proof.
  assert (P : pushes (fun s => set_put_queue (put_queue s ++ [1]) s)).
  { intros s. exists []. split; [apply fresh_nil | reflexivity]. }
  intros s. exact (pushes_comp _ _ P trigger_put_pushes s).
Qed.

Lemma process_end_pushes : pushes process_end.
Proof. intros [t0 q0 n0 lv cp gq pq ta sv ir ts rg]. pushes_one. Qed.

Lemma vehicle_finish_pushes : pushes vehicle_finish.
Proof.
  assert (P : pushes (fun s => set_served (served s + 1) s)).
  { intros s. exists []. split; [apply fresh_nil | reflexivity]. }
  intros s.
  exact (pushes_comp _ _ (pushes_comp _ _ P (env_process_pushes InitRepair))
           process_end_pushes s).
Qed.

Lemma repair_finish_pushes : pushes repair_finish.
Proof.
  assert (P : pushes (fun s => set_in_repair (in_repair s - 1) s)).
  { intros s. exists []. split; [apply fresh_nil | reflexivity]. }
  intros s. exact (pushes_comp _ _ P process_end_pushes s).
Qed.

(** Whatever event is processed, its callbacks treat the queue as a
    stack of new entries over the old ones. *)
Lemma dispatch_layout (ev : event) (s : sim) :
  exists new,
    fresh (eid s) (eid (result_state (dispatch draws dr rct ri ev s))) new
    /\ forall q, dispatch draws dr rct ri ev (set_queue q s)
                 = requeue (new ++ q) (dispatch draws dr rct ri ev s).
Proof.
  assert (H : forall h, pushes h ->
              exists new, fresh (eid s) (eid (h s)) new
                          /\ forall q, Continue (h (set_queue q s))
                                       = requeue (new ++ q) (Continue (h s))).
  { intros h P. destruct (P s) as (new & F & E). exists new.
    split; [exact F|]. intros q. cbn [requeue]. rewrite E. reflexivity. }
  destruct ev; cbn [dispatch result_state].
  - apply H, vehicle_generator_loop_pushes.
  - apply H, metrics_observer_loop_pushes.
  - apply H, vehicle_start_pushes.
  - apply H, repair_start_pushes.
  - apply H, vehicle_generator_resume_pushes.
  - apply H, metrics_observer_loop_pushes.
  - apply H, repair_put_pushes.
  - apply (H (fun s => vehicle_finish (trigger_put s))).
    exact (pushes_comp _ _ trigger_put_pushes vehicle_finish_pushes).
  - apply (H (fun s => repair_finish (trigger_get s))).
    exact (pushes_comp _ _ trigger_get_pushes repair_finish_pushes).
  - exists []. split; [apply fresh_nil | reflexivity].
  - exists []. split; [apply fresh_nil | reflexivity].
  - exists []. split; [apply fresh_nil | reflexivity].
Qed.

(** A step taken on two layouts of the same queue pops the same entry and
    leaves two layouts of the same queue. *)
Lemma step_layout (s : sim) (q' : list entry) :
  keyed s -> Permutation (queue s) q' ->
  exists q'',
    step draws dr rct ri (set_queue q' s)
    = requeue q'' (step draws dr rct ri s)
    /\ Permutation (queue (result_state (step draws dr rct ri s))) q''
    /\ keyed (result_state (step draws dr rct ri s)).
Proof.
  intros [Nd Fa] Hp. unfold step. change (queue (set_queue q' s)) with q'.
  destruct (heappop (queue s)) as [[e r]|] eqn:Hpop.
  - destruct (heappop_layout _ _ _ _ Nd Hp Hpop) as (r' & Hpop' & Hr).
    rewrite Hpop'.
    pose proof (heappop_perm _ _ _ Hpop) as P.
    assert (Nr : NoDup (map e_eid r)).
    { pose proof (Permutation_NoDup (Permutation_map e_eid P) Nd) as K.
      inversion K; assumption. }
    assert (Fr : Forall (fun x => (e_eid x < eid s)%nat) r).
    { pose proof (Permutation_Forall P Fa) as K. inversion K; assumption. }
    destruct (dispatch_layout (e_event e) (popped e r s)) as (new & F & E).
    assert (Hq : queue (result_state (dispatch draws dr rct ri (e_event e)
                                        (popped e r s))) = new ++ r).
    { pose proof (E r) as K.
      change (set_queue r (popped e r s)) with (popped e r s) in K.
      rewrite K.
      destruct (dispatch draws dr rct ri (e_event e) (popped e r s)); reflexivity. }
    exists (new ++ r'). split; [exact (E r')|]. split.
    + rewrite Hq. apply Permutation_app_head. exact Hr.
    + exact (keyed_fresh (popped e r s) _ new r Nr Fr F Hq).
  - apply heappop_none in Hpop.
    rewrite Hpop in Hp. apply Permutation_nil in Hp. subst q'.
    exists []. cbn [heappop requeue result_state]. rewrite Hpop.
    split; [reflexivity|]. split; [reflexivity|].
    split; [exact Nd | exact Fa].
Qed.

Lemma run_loop_layout (lay : list entry -> list entry) (fuel : nat) :
  rearranges lay ->
  forall (s : sim) (q' : list entry),
    keyed s -> Permutation (queue s) q' ->
    match run_loop draws dr rct ri fuel s,
          run_loop_laid lay draws dr rct ri fuel (set_queue q' s) with
    | Finished a, Finished b => exists q, b = set_queue q a
    | Failed e _, Failed e' _ => e = e'
    | OutOfFuel _, OutOfFuel _ => True
    | _, _ => False
    end.
Proof.
  intros Hlay. induction fuel as [|fuel IH]; intros s q' K Hp; [exact I|].
  cbn [run_loop run_loop_laid].
  change (set_queue (lay (queue (set_queue q' s))) (set_queue q' s))
    with (set_queue (lay q') s).
  destruct (step_layout s (lay q') K (Permutation_trans Hp (Hlay q')))
    as (q'' & E & Hp' & K').
  rewrite E. destruct (step draws dr rct ri s) as [a|a|x a]; cbn [requeue result_state] in *.
  - apply IH; assumption.
  - exists q''. reflexivity.
  - reflexivity.
Qed.

(** In a state with distinct event ids the entry that is popped strictly
    precedes every other entry. *)
Lemma keyed_strict_min (s : sim) (e : entry) (r : list entry) :
  keyed s -> heappop (queue s) = Some (e, r) ->
  Forall (fun x => entry_ltb e x = true) r.
Proof.
  intros [Nd _] Hpop.
  pose proof (heappop_perm _ _ _ Hpop) as P.
  pose proof (heappop_min _ _ _ Hpop) as M.
  pose proof (Permutation_NoDup (Permutation_map e_eid P) Nd) as K.
  cbn [map] in K. inversion K as [|? ? Hnot _]; subst.
  rewrite Forall_forall in *. intros x Hx.
  destruct (entry_ltb e x) eqn:E; [reflexivity|].
  exfalso. apply Hnot. rewrite (entry_tie e x E (M x Hx)).
  apply in_map. exact Hx.
Qed.

Lemma keyed_step (s s' : sim) :
  keyed s -> step draws dr rct ri s = Continue s' -> keyed s'.
Proof.
  intros K Hst.
  destruct (step_layout s (queue s) K (Permutation_refl _)) as (_ & _ & _ & K').
  rewrite Hst in K'. exact K'.
Qed.

End Layout.

Lemma started_keyed (initial_supply : Z) (sim_time : Q) (start : sim) :
  started initial_supply sim_time start -> keyed start.
Proof.
  intros H. destruct (started_fields _ _ _ H) as (_ & _ & ->).
  split; cbn [queue map e_eid eid].
  - repeat constructor; cbn [In]; intros K; repeat destruct K as [K|K]; lia.
  - repeat constructor; cbn [e_eid]; lia.
Qed.

(** The layout of the heap does not show in what [run_simulation] gives. *)
Lemma run_simulation_layout (lay : list entry -> list entry) (fuel : nat)
    (draws : nat -> Q) (initial_supply : Z) (dr rct sim_time : Q)
    (ri : option Q) :
  rearranges lay ->
  run_simulation_laid lay fuel draws initial_supply dr rct sim_time ri
  = run_simulation fuel draws initial_supply dr rct sim_time ri.
Proof.
  intros Hlay. unfold run_simulation_laid, run_simulation, run_simulation_state, env_run.
  destruct (configured initial_supply) as [x|s0] eqn:Hc; [reflexivity|].
  destruct (Qle_bool sim_time (now s0)) eqn:Hu; [reflexivity|].
  set (start := schedule UntilEvent URGENT (sim_time - now s0) s0).
  assert (St : started initial_supply sim_time start)
    by (exists s0; split; [exact Hc | split; [exact Hu | reflexivity]]).
  pose proof (run_loop_layout draws dr rct (effective_interval ri) lay fuel Hlay
                start (queue start) (started_keyed _ _ _ St) (Permutation_refl _))
    as H.
  replace (set_queue (queue start) start) with start in H
    by (destruct start; reflexivity).
  destruct (run_loop draws dr rct (effective_interval ri) fuel start) as [a|x a|a],
    (run_loop_laid lay draws dr rct (effective_interval ri) fuel start) as [b|y b|b];
    try contradiction.
  - destruct H as [q ->]. reflexivity.
  - subst y. reflexivity.
  - reflexivity.
Qed.

(** Steps allowed beyond those a run needs to end change nothing. *)
Lemma run_loop_settled (draws : nat -> Q) (dr rct ri : Q) (fuel fuel' : nat)
    (s : sim) :
  (fuel <= fuel')%nat ->
  (forall x, run_loop draws dr rct ri fuel s <> OutOfFuel x) ->
  run_loop draws dr rct ri fuel' s = run_loop draws dr rct ri fuel s.
Proof.
  revert fuel' s. induction fuel as [|fuel IH]; intros fuel' s Hle Hno.
  - exfalso. exact (Hno s eq_refl).
  - destruct fuel' as [|fuel']; [lia|]. cbn [run_loop] in *.
    destruct (step draws dr rct ri s); try reflexivity.
    apply IH; [lia | exact Hno].
Qed.

Lemma run_simulation_settled (fuel fuel' : nat) (draws : nat -> Q)
    (initial_supply : Z) (dr rct sim_time : Q) (ri : option Q) :
  (fuel <= fuel')%nat ->
  run_simulation fuel draws initial_supply dr rct sim_time ri <> Diverged ->
  run_simulation fuel' draws initial_supply dr rct sim_time ri
  = run_simulation fuel draws initial_supply dr rct sim_time ri.
Proof.
  unfold run_simulation, run_simulation_state, env_run. intros Hle Hno.
  destruct (configured initial_supply) as [e|s0]; [reflexivity|].
  destruct (Qle_bool sim_time (now s0)); [reflexivity|].
  rewrite (run_loop_settled draws dr rct (effective_interval ri) fuel fuel');
    [reflexivity | exact Hle |].
  intros x Hx. rewrite Hx in Hno. apply Hno. reflexivity.
Qed.

(** C2: two calls of run_simulation with the same configuration and the
    same sequence of random draws (the same seed) return the same
    final_metrics and the same time series, or raise the same exception;
    nothing else decides the result: not the number of steps the event
    loop is allowed, when both calls end, and not the heap.  The order of
    events is fixed by the program: in every state of a run the entry
    popped from the heap strictly precedes every other entry, since each
    entry carries an event id of its own and no two entries tie; so the
    result is the same however the heap lays out its entries. *)
Theorem run_simulation_deterministic (fuel fuel' : nat) (d1 d2 : nat -> Q)
    (lay : list entry -> list entry)
    (initial_supply : Z) (dr rct sim_time : Q) (ri : option Q) :
  (forall k, d1 k = d2 k) -> rearranges lay ->
  (run_simulation fuel d1 initial_supply dr rct sim_time ri <> Diverged ->
   run_simulation fuel' d2 initial_supply dr rct sim_time ri <> Diverged ->
   run_simulation fuel d1 initial_supply dr rct sim_time ri
   = run_simulation fuel' d2 initial_supply dr rct sim_time ri)
  /\ run_simulation_laid lay fuel d1 initial_supply dr rct sim_time ri
     = run_simulation fuel d2 initial_supply dr rct sim_time ri
  /\ (forall start k s0 e r,
       started initial_supply sim_time start ->
       nth_state d1 dr rct (effective_interval ri) k start = Some s0 ->
       heappop (queue s0) = Some (e, r) ->
       Forall (fun x => entry_ltb e x = true) r).
Proof.
  intros H Hlay.
  assert (E : forall n, run_simulation n d1 initial_supply dr rct sim_time ri
                        = run_simulation n d2 initial_supply dr rct sim_time ri).
  { intros n. unfold run_simulation, run_simulation_state, env_run.
    destruct (configured initial_supply) as [e|s0]; [reflexivity|].
    destruct (Qle_bool sim_time (now s0)); [reflexivity|].
    rewrite (run_loop_ext d1 d2 _ _ _ _ _ H). reflexivity. }
  split; [|split].
  - intros H1 H2. destruct (Nat.le_ge_cases fuel fuel') as [Hle|Hle].
    + rewrite <- (E fuel'). symmetry. apply run_simulation_settled; assumption.
    + rewrite (E fuel). apply run_simulation_settled; assumption.
  - rewrite (run_simulation_layout lay fuel d1 _ _ _ _ _ Hlay). apply E.
  - intros start k s0 e r St Hk Hpop.
    apply (keyed_strict_min s0); [|exact Hpop].
    apply (nth_state_inv d1 dr rct (effective_interval ri) keyed)
      with (n := k) (s := start); [|exact (started_keyed _ _ _ St) | exact Hk].
    intros s s'. apply keyed_step.
Qed.

Lemma run_simulation_deterministic_witness :
  ((forall k, draws_two_then_far k = draws_two_then_far' k)
   /\ rearranges (@rev entry))
  /\ run_simulation_laid (@rev entry) 100 draws_two_then_far 1 1 5 3 (Some 1%Q)
     = run_simulation 100 draws_two_then_far' 1 1 5 3 (Some 1%Q).
Proof.
  assert (H : forall k, draws_two_then_far k = draws_two_then_far' k)
    by (intros [|k]; reflexivity).
  assert (L : rearranges (@rev entry)) by (intros q; apply Permutation_rev).
  split; [split; [exact H | exact L]|].
  exact (proj1 (proj2 (run_simulation_deterministic 100 100 _ _ _ 1 1 5 3
                         (Some 1%Q) H L))).
Defined.

(** * The horizon *)

(** C4, as stated, fails: with horizon 3 and a sample every time unit, the
    observer's timeout scheduled for time 3, exactly the horizon, is still
    in the queue when the run ends, and the series has no sample at time 3. *)
Lemma horizon_counterexample :
  exists sf,
    run_simulation_state 100 draws_two_then_far 1 1 5 3 1 = Finished sf
    /\ In (mkEntry 3 NORMAL 9 TimeoutObserver) (queue sf)
    /\ map snap_time (timeseries sf) = [0; 1; 2]%Q.
Proof.
  eexists. split; [vm_compute; reflexivity|].
  split; [simpl; auto | reflexivity].
Qed.

(** C4 (amended): the run ends when the clock reaches the horizon.  Every
    event executed before the run ends is scheduled strictly before
    sim_time; everything scheduled at sim_time or beyond it, the events at
    the horizon included, is still in the queue when the run ends and is
    discarded; there is no drain phase. *)
Theorem horizon_excluded (fuel : nat) (draws : nat -> Q) (initial_supply : Z)
    (dr rct sim_time : Q) (ri : option Q) (fm : final_metrics)
    (ts : list snapshot) :
  run_simulation fuel draws initial_supply dr rct sim_time ri = Returned fm ts ->
  exists start sf,
    started initial_supply sim_time start
    /\ finishes draws dr rct (effective_interval ri) start sf
    /\ ts = timeseries sf
    /\ (forall k s0 e q,
          nth_state draws dr rct (effective_interval ri) k start = Some s0 ->
          heappop (queue s0) = Some (e, q) -> e_event e <> UntilEvent ->
          (e_time e < sim_time)%Q)
    /\ Forall (fun e => (sim_time <= e_time e)%Q) (queue sf)
    /\ Forall (fun sn => (snap_time sn < sim_time)%Q) ts.
Proof.
  intros H. destruct (returned_run _ _ _ _ _ _ _ _ _ H) as (start & sf & St & F & -> & ->).
  exists start, sf. split; [exact St|]. split; [exact F|]. split; [reflexivity|].
  pose proof (started_timing _ _ _ St) as T0.
  assert (Tn : forall k s0,
             nth_state draws dr rct (effective_interval ri) k start = Some s0 ->
             timing sim_time s0).
  { intros k s0 Hk.
    apply (nth_state_inv draws dr rct (effective_interval ri) (timing sim_time))
      with (n := k) (s := start); auto.
    intros s s' Ts Hst.
    pose proof (timing_step draws dr rct (effective_interval ri) sim_time s Ts) as K.
    rewrite Hst in K. exact K. }
  split.
  - intros k s0 e q Hk Hpop Hne. exact (timing_pop sim_time s0 e q (Tn k s0 Hk) Hpop Hne).
  - destruct F as (n & s1 & Hn & Hs).
    pose proof (timing_step draws dr rct (effective_interval ri) sim_time s1 (Tn n s1 Hn)) as K.
    rewrite Hs in K. destruct K as [_ He Hsm]. split; [|exact Hsm].
    eapply Forall_impl; [|exact He]. intros e [Ht _]. exact Ht.
Qed.

Lemma horizon_excluded_witness :
  run_simulation 100 draws_two_then_far 1 1 5 3 (Some 1%Q)
  = Returned coincidence_metrics coincidence_series /\
  exists start sf,
    started 1 3 start
    /\ finishes draws_two_then_far 1 5 1 start sf
    /\ coincidence_series = timeseries sf
    /\ (forall k s0 e q,
          nth_state draws_two_then_far 1 5 1 k start = Some s0 ->
          heappop (queue s0) = Some (e, q) -> e_event e <> UntilEvent ->
          (e_time e < 3)%Q)
    /\ Forall (fun e => (3 <= e_time e)%Q) (queue sf)
    /\ Forall (fun sn => (snap_time sn < 3)%Q) coincidence_series.
Proof.
  pose proof coincidence_run_returns as H. split; [exact H|].
  exact (horizon_excluded _ _ _ _ _ _ _ _ _ H).
Defined.

(** * Counters along the series *)

Lemma nondecreasing_snoc (f : snapshot -> Z) (ts : list snapshot) (x : snapshot) :
  nondecreasing f ts -> Forall (fun a => f a <= f x) ts ->
  nondecreasing f (ts ++ [x]).
Proof.
  intros Hn Hb i j a b Hij Ha Hb'.
  destruct (Nat.lt_ge_cases j (length ts)) as [Hj|Hj].
  - rewrite nth_error_app1 in Ha, Hb' by lia. exact (Hn i j a b Hij Ha Hb').
  - rewrite nth_error_app2 in Hb' by lia.
    destruct (j - length ts)%nat as [|m] eqn:Hm;
      [|destruct m; discriminate].
    inversion Hb'; subst b. clear Hb'.
    destruct (Nat.lt_ge_cases i (length ts)) as [Hi|Hi].
    + rewrite nth_error_app1 in Ha by lia.
      rewrite Forall_forall in Hb. apply Hb. eapply nth_error_In; eauto.
    + rewrite nth_error_app2 in Ha by lia.
      replace (i - length ts)%nat with O in Ha by lia.
      inversion Ha; subst. lia.
Qed.

Section Counters.

Variable draws : nat -> Q.
Variables dr rct ri : Q.

Lemma step_counters (s : sim) :
  let s' := result_state (step draws dr rct ri s) in
  total_arrivals s <= total_arrivals s' /\ served s <= served s'.
Proof.
  unfold step. destruct (heappop (queue s)) as [[e q]|] eqn:Hpop; [|cbn; lia].
  cbv zeta.
  destruct (e_event e) eqn:Hev; cbn [dispatch result_state].
  - unfold vehicle_generator_loop, expovariate.
    destruct (Qeq_bool dr 0); [fields; lia|]. unfold env_timeout.
    match goal with |- context [Qle_bool 0 ?d] => destruct (Qle_bool 0 d) end;
      fields; lia.
  - unfold metrics_observer_loop, env_timeout.
    destruct (Qle_bool 0 ri); fields; lia.
  - unfold vehicle_start, container_get. cbn [Z.leb Z.compare].
    match goal with |- context [trigger_get ?s1] =>
      destruct (trigger_get_grants s1) as [new G] end.
    by_grant G. fields. lia.
  - unfold repair_start, env_timeout.
    destruct (Qle_bool 0 rct); fields; lia.
  - unfold vehicle_generator_resume, vehicle_generator_loop, expovariate.
    cbn [env_process schedule].
    destruct (Qeq_bool dr 0); [fields; lia|]. unfold env_timeout.
    match goal with |- context [Qle_bool 0 ?d] => destruct (Qle_bool 0 d) end;
      fields; lia.
  - unfold metrics_observer_loop, env_timeout.
    destruct (Qle_bool 0 ri); fields; lia.
  - unfold repair_put, container_put. cbn [Z.leb Z.compare].
    match goal with |- context [trigger_put ?s1] =>
      destruct (trigger_put_returns s1) as [new R] end.
    by_return R. fields. lia.
  - unfold vehicle_finish.
    match goal with |- context [trigger_put ?s1] =>
      destruct (trigger_put_returns s1) as [new R] end.
    fields. by_return R. fields. lia.
  - unfold repair_finish.
    match goal with |- context [trigger_get ?s1] =>
      destruct (trigger_get_grants s1) as [new G] end.
    fields. by_grant G. fields. lia.
  - fields. lia.
  - fields. lia.
  - fields. lia.
Qed.

Lemma chronicle_step (s : sim) :
  chronicle s -> chronicle (result_state (step draws dr rct ri s)).
Proof.
  intros [Ha Hs Hb].
  pose proof (step_counters s) as [Ca Cs].
  pose proof (step_timeseries draws dr rct ri s) as Ht. cbv zeta in Ht.
  assert (Hb' : Forall (fun sn =>
             snap_total_arrivals sn
             <= total_arrivals (result_state (step draws dr rct ri s))
             /\ snap_served sn <= served (result_state (step draws dr rct ri s)))
            (timeseries s)).
  { eapply Forall_impl; [|exact Hb]. cbv beta. intros sn [? ?]. lia. }
  destruct Ht as [Ht | (sn & (e & q & Hpop & _ & ->) & Ht)];
    constructor; rewrite Ht; auto.
  - apply nondecreasing_snoc; [exact Ha|].
    eapply Forall_impl; [|exact Hb]. cbv beta. intros sn [? ?].
    cbn [take_snapshot popped set_now set_queue total_arrivals snap_total_arrivals].
    assumption.
  - apply nondecreasing_snoc; [exact Hs|].
    eapply Forall_impl; [|exact Hb]. cbv beta. intros sn [? ?].
    cbn [take_snapshot popped set_now set_queue served snap_served].
    assumption.
  - apply Forall_app. split; [exact Hb'|].
    constructor; [|constructor].
    cbn [take_snapshot popped set_now set_queue total_arrivals served
         snap_total_arrivals snap_served]. lia.
Qed.

Lemma finishes_chronicle (s sf : sim) :
  chronicle s -> finishes draws dr rct ri s sf -> chronicle sf.
Proof.
  intros C (n & s1 & Hn & Hs).
  assert (C1 : chronicle s1).
  { apply (nth_state_inv draws dr rct ri chronicle) with (n := n) (s := s); auto.
    intros x x' Cx Hx. pose proof (chronicle_step x Cx) as K.
    rewrite Hx in K. exact K. }
  pose proof (chronicle_step s1 C1) as K. rewrite Hs in K. exact K.
Qed.

End Counters.

(** C8: along the series of a run that returns, total_arrivals and served
    never decrease, and served <= total_arrivals in every snapshot. *)
Theorem counters_monotone (fuel : nat) (draws : nat -> Q) (initial_supply : Z)
    (dr rct sim_time : Q) (ri : option Q) (fm : final_metrics)
    (ts : list snapshot) :
  run_simulation fuel draws initial_supply dr rct sim_time ri = Returned fm ts ->
  nondecreasing snap_total_arrivals ts
  /\ nondecreasing snap_served ts
  /\ Forall (fun sn => snap_served sn <= snap_total_arrivals sn) ts.
Proof.
  intros H. destruct (returned_run _ _ _ _ _ _ _ _ _ H) as (start & sf & St & F & -> & ->).
  assert (He : timeseries start = []).
  { destruct (started_fields _ _ _ St) as (_ & _ & ->). reflexivity. }
  assert (C0 : chronicle start).
  { constructor; rewrite He; try constructor;
      intros i j a b _ Ha; destruct i; discriminate. }
  destruct (finishes_chronicle _ _ _ _ _ _ C0 F) as [Ca Cs _].
  split; [exact Ca|]. split; [exact Cs|].
  pose proof (accounting_only_step draws dr rct (effective_interval ri) sim_time
                initial_supply) as Jstep.
  assert (S : sound (accounting initial_supply) sim_time start)
    by (split; [eapply started_timing | left; eapply started_accounting]; eauto).
  rewrite Forall_forall. intros sn Hin.
  destruct (finishes_samples _ _ _ _ _ _ Jstep _ _ S He F sn Hin)
    as (k & s0 & Hk & A & _ & (e & q & Hpop & _ & ->)).
  pose proof (qsum_nonneg w_granted (queue s0) w_granted_nonneg).
  destruct A. cbn [take_snapshot popped snap_total_arrivals snap_served].
  fields. lia.
Qed.

Lemma counters_monotone_witness :
  run_simulation 100 draws_two_then_far 1 1 5 3 (Some 1%Q)
  = Returned coincidence_metrics coincidence_series /\
  nondecreasing snap_total_arrivals coincidence_series
  /\ nondecreasing snap_served coincidence_series
  /\ Forall (fun sn => snap_served sn <= snap_total_arrivals sn) coincidence_series.
Proof.
  pose proof coincidence_run_returns as H. split; [exact H|].
  exact (counters_monotone _ _ _ _ _ _ _ _ _ H).
Defined.

(** * The sampling cadence *)

Lemma is_observer_dec (ev : event) : {is_observer ev} + {~ is_observer ev}.
Proof. destruct ev; simpl; auto. Qed.

Lemma w_obs_nonneg (ev : event) : 0 <= w_obs ev.
Proof. destruct ev; simpl; lia. Qed.

Lemma qsum_zero_In (w : event -> Z) (q : list entry) :
  (forall ev, 0 <= w ev) -> qsum w q = 0 ->
  forall e, In e q -> w (e_event e) = 0.
Proof.
  intros Hw. induction q as [|x q IH]; cbn [qsum]; intros H e Hin; [contradiction|].
  pose proof (Hw (e_event x)). pose proof (qsum_nonneg w q Hw).
  destruct Hin as [<-|Hin]; [lia|]. apply IH; [lia | exact Hin].
Qed.

Lemma qsum_not_observer (added : list entry) :
  Forall (fun x => ~ is_observer (e_event x)) added -> qsum w_obs added = 0.
Proof.
  induction 1 as [|x l Hx _ IH]; cbn [qsum]; [reflexivity|].
  rewrite IH. destruct (e_event x); cbn [w_obs is_observer] in *; try lia;
    exfalso; apply Hx; exact I.
Qed.


Section Cadence.

Variable draws : nat -> Q.
Variables dr rct ri : Q.
Variable sim_time : Q.

Lemma step_none (s : sim) :
  heappop (queue s) = None -> result_state (step draws dr rct ri s) = s.
Proof. unfold step. intros ->. reflexivity. Qed.

(** A step that does not resume the observer leaves the series alone and
    schedules nothing for the observer. *)
Lemma step_added (s : sim) (e : entry) (q : list entry) :
  heappop (queue s) = Some (e, q) -> ~ is_observer (e_event e) ->
  let s' := result_state (step draws dr rct ri s) in
  timeseries s' = timeseries s
  /\ exists added, queue s' = added ++ q
                   /\ Forall (fun x => ~ is_observer (e_event x)) added.
Proof.
  intros Hpop Hno. unfold step. rewrite Hpop. cbv zeta.
  destruct (e_event e) eqn:Hev; cbn [dispatch result_state is_observer] in *;
    try (exfalso; apply Hno; exact I).
  - unfold vehicle_generator_loop, expovariate.
    destruct (Qeq_bool dr 0);
      [split; [reflexivity|]; eexists [_]; split; [reflexivity|];
       repeat constructor; auto|].
    unfold env_timeout.
    match goal with |- context [Qle_bool 0 ?d] => destruct (Qle_bool 0 d) end;
      (split; [reflexivity|]; eexists [_]; split; [reflexivity|];
       repeat constructor; auto).
  - unfold vehicle_start, container_get. cbn [Z.leb Z.compare].
    match goal with |- context [trigger_get ?s1] =>
      destruct (trigger_get_grants s1) as [new G] end.
    by_grant G. split; [reflexivity|]. exists new. split; [reflexivity|].
    eapply Forall_impl; [|exact (gr_new _ _ _ G)].
    intros x (Hx & _). destruct (e_event x); cbn in *; auto.
  - unfold repair_start, env_timeout.
    destruct (Qle_bool 0 rct);
      (split; [reflexivity|]; eexists [_]; split; [reflexivity|];
       repeat constructor; auto).
  - unfold vehicle_generator_resume, vehicle_generator_loop, expovariate.
    cbn [env_process schedule].
    destruct (Qeq_bool dr 0);
      [split; [reflexivity|]; eexists [_; _]; split; [reflexivity|];
       repeat constructor; auto|].
    unfold env_timeout.
    match goal with |- context [Qle_bool 0 ?d] => destruct (Qle_bool 0 d) end;
      (split; [reflexivity|]; eexists [_; _]; split; [reflexivity|];
       repeat constructor; auto).
  - unfold repair_put, container_put. cbn [Z.leb Z.compare].
    match goal with |- context [trigger_put ?s1] =>
      destruct (trigger_put_returns s1) as [new R] end.
    by_return R. split; [reflexivity|]. exists new. split; [reflexivity|].
    eapply Forall_impl; [|exact (rt_new _ _ _ R)].
    intros x (Hx & _). destruct (e_event x); cbn in *; auto.
  - unfold vehicle_finish.
    match goal with |- context [trigger_put ?s1] =>
      destruct (trigger_put_returns s1) as [new R] end.
    fields. by_return R. split; [reflexivity|].
    eexists (_ :: _ :: new). split; [reflexivity|].
    constructor; [cbn; auto|]. constructor; [cbn; auto|].
    eapply Forall_impl; [|exact (rt_new _ _ _ R)].
    intros x (Hx & _). destruct (e_event x); cbn in *; auto.
  - unfold repair_finish.
    match goal with |- context [trigger_get ?s1] =>
      destruct (trigger_get_grants s1) as [new G] end.
    fields. by_grant G. split; [reflexivity|].
    eexists (_ :: new). split; [reflexivity|].
    constructor; [cbn; auto|].
    eapply Forall_impl; [|exact (gr_new _ _ _ G)].
    intros x (Hx & _). destruct (e_event x); cbn in *; auto.
  - split; [reflexivity|]. exists []. split; [reflexivity | constructor].
  - split; [reflexivity|]. exists []. split; [reflexivity | constructor].
  - split; [reflexivity|]. exists []. split; [reflexivity | constructor].
Qed.

Lemma step_before_sampling (s : sim) (e : entry) (q : list entry) :
  heappop (queue s) = Some (e, q) ->
  e_event e = InitGenerator \/ e_event e = UntilEvent
  \/ (exists x, e_event e = ProcessFailed x) ->
  let s' := result_state (step draws dr rct ri s) in
  total_arrivals s' = total_arrivals s /\ served s' = served s
  /\ exists added, queue s' = added ++ q
                   /\ Forall (fun x => pre_sampling (e_event x)) added.
Proof.
  intros Hpop Hev. unfold step. rewrite Hpop. cbv zeta.
  destruct Hev as [Hev|[Hev|[x Hev]]]; rewrite Hev; cbn [dispatch result_state].
  - unfold vehicle_generator_loop, expovariate.
    destruct (Qeq_bool dr 0);
      [split; [reflexivity|]; split; [reflexivity|]; eexists [_];
       split; [reflexivity|]; repeat constructor|].
    unfold env_timeout.
    match goal with |- context [Qle_bool 0 ?d] => destruct (Qle_bool 0 d) end;
      (split; [reflexivity|]; split; [reflexivity|]; eexists [_];
       split; [reflexivity|]; repeat constructor).
  - split; [reflexivity|]. split; [reflexivity|].
    exists []. split; [reflexivity | constructor].
  - split; [reflexivity|]. split; [reflexivity|].
    exists []. split; [reflexivity | constructor].
Qed.

Lemma cadence_step (s : sim) :
  timing sim_time s -> sampling ri s ->
  let s' := result_state (step draws dr rct ri s) in
  sampling ri s' \/ doomed s'.
Proof.
  intros Tm [k C]. cbv zeta.
  destruct (heappop (queue s)) as [[e q]|] eqn:Hpop;
    [|left; rewrite (step_none s Hpop); exists k; exact C].
  pose proof (heappop_qsum w_obs _ _ _ Hpop) as Hq.
  rewrite (cd_one _ _ _ C) in Hq.
  destruct (heappop_Forall _ _ _ _ Hpop (cd_next _ _ _ C)) as [Ne Nq].
  pose proof (qsum_nonneg w_obs q w_obs_nonneg) as Pq.
  destruct (is_observer_dec (e_event e)) as [Ho|Hno].
  - (* the observer is resumed *)
    destruct (Ne Ho) as [Ht Hk].
    assert (Hz : qsum w_obs q = 0)
      by (destruct (e_event e); cbn [w_obs is_observer] in *; try contradiction; lia).
    assert (Hst : result_state (step draws dr rct ri s)
                  = metrics_observer_loop ri (popped e q s)).
    { unfold step. rewrite Hpop.
      destruct (e_event e); cbn [is_observer] in Ho; try contradiction; reflexivity. }
    rewrite Hst. unfold metrics_observer_loop, env_timeout.
    destruct (Qle_bool 0 ri).
    + left. exists (S k). constructor; fields.
      * rewrite map_app, seq_S, map_app, (cd_times _ _ _ C). cbn [map Nat.add].
        unfold take_snapshot. cbn [snap_time now popped set_now]. rewrite Ht.
        reflexivity.
      * cbn [w_obs]. lia.
      * constructor.
        -- intros _. cbn [e_event e_time]. rewrite Ht.
           split; [reflexivity|]. split; intros; discriminate.
        -- rewrite Forall_forall. intros x Hx Hox. exfalso.
           pose proof (qsum_zero_In w_obs q w_obs_nonneg Hz x Hx) as Hw.
           destruct (e_event x); cbn [w_obs is_observer] in *;
             try contradiction; lia.
      * intros; discriminate.
      * intros _. destruct k as [|k].
        -- pose proof (cd_times _ _ _ C) as Hm. cbn [seq map] in Hm.
           apply map_eq_nil in Hm. rewrite Hm.
           destruct (cd_before _ _ _ C eq_refl) as (Ha & Hs & _).
           eexists _, []. split; [reflexivity|].
           cbn [take_snapshot popped snap_total_arrivals snap_served
                set_now set_queue total_arrivals served]. auto.
        -- destruct (cd_first _ _ _ C) as (f & rest & Hf & Hfa & Hfs); [discriminate|].
           rewrite Hf. exists f, (rest ++ [take_snapshot (popped e q s)]).
           auto.
    + right. unfold doomed. fields. cbn [w_failed].
      pose proof (qsum_nonneg w_failed q w_failed_nonneg). lia.
  - (* another process is resumed *)
    destruct (step_added s e q Hpop Hno) as (Hts & added & Hqu & Hadd).
    assert (Ho : qsum w_obs q = 1)
      by (destruct (e_event e); cbn [w_obs is_observer] in *; try lia;
          exfalso; apply Hno; exact I).
    left. exists k. constructor.
    + rewrite Hts. exact (cd_times _ _ _ C).
    + rewrite Hqu, qsum_app, (qsum_not_observer _ Hadd). lia.
    + rewrite Hqu. apply Forall_app. split; [|exact Nq].
      eapply Forall_impl; [|exact Hadd]. cbv beta. intros x Hx Hox. contradiction.
    + intros ->. destruct (cd_before _ _ _ C eq_refl) as (Ha & Hs & Hp).
      destruct (heappop_Forall _ _ _ _ Hpop Hp) as [Pe Pq'].
      assert (Hev : e_event e = InitGenerator \/ e_event e = UntilEvent
                    \/ (exists x, e_event e = ProcessFailed x)).
      { destruct (e_event e) eqn:Hev; cbn [pre_sampling is_observer] in *;
          try contradiction; auto; try (exfalso; apply Hno; exact I);
          [|right; right; eexists; reflexivity].
        (* a generator timeout cannot precede the observer's Initialize *)
        exfalso.
        destruct (qsum_pos_In w_obs q) as [x [Hx Hw]]; [lia|].
        assert (Hox : is_observer (e_event x))
          by (destruct (e_event x); cbn [w_obs is_observer] in *; auto; lia).
        rewrite Forall_forall in Nq. destruct (Nq x Hx Hox) as [_ [_ Hi]].
        specialize (Hi eq_refl).
        destruct (heappop_Forall _ _ _ _ Hpop (tm_entries _ _ Tm)) as [Te Tq].
        rewrite Forall_forall in Tq. pose proof (Tq x Hx) as Tx.
        pose proof (heappop_min _ _ _ Hpop) as Hmin.
        rewrite Forall_forall in Hmin. pose proof (Hmin x Hx) as Hle.
        pose proof (entry_le_time _ _ Hle) as Hlt.
        pose proof (et_future _ _ _ Te) as Hf.
        pose proof (et_immediate _ _ _ Tx) as Him.
        rewrite Hi in Him. specialize (Him eq_refl).
        assert (Heq : (e_time e == e_time x)%Q) by lra.
        pose proof (entry_le_prio _ _ Hle Heq) as Hp'.
        rewrite (et_prio _ _ _ Te), (et_prio _ _ _ Tx), Hev, Hi in Hp'.
        cbn [is_urgent] in Hp'. unfold URGENT, NORMAL in Hp'. lia. }
      destruct (step_before_sampling s e q Hpop Hev) as (Ha' & Hs' & added' & Hq' & Hp').
      rewrite Ha', Hs', Hq'. split; [exact Ha|]. split; [exact Hs|].
      apply Forall_app. split; assumption.
    + intros Hk. rewrite Hts. exact (cd_first _ _ _ C Hk).
Qed.

End Cadence.

(** * Termination

    In exact time the event loop reaches the horizon when the delays
    between arrivals stay above a positive bound.  In binary64 a delay
    below the spacing of the clock leaves the clock where it is, so this
    section says nothing of the program on such inputs. *)

Lemma slots_nonneg (T t st : Q) : 0 <= slots T t st.
Proof. unfold slots. lia. Qed.

Lemma Qdiv_le_compat (a b c : Q) : (0 < c)%Q -> (a <= b)%Q -> (a / c <= b / c)%Q.
Proof.
  intros Hc Hab. unfold Qdiv. apply Qmult_le_compat_r; [exact Hab|].
  apply Qlt_le_weak, Qinv_lt_0_compat, Hc.
Qed.

Lemma slots_mono (T t t' st : Q) :
  (0 < st)%Q -> (t <= t')%Q -> slots T t' st <= slots T t st.
Proof.
  intros Hs Ht. unfold slots.
  assert (H : (Qceiling ((T - t') / st) <= Qceiling ((T - t) / st))).
  { apply Qceiling_resp_le, Qdiv_le_compat; [exact Hs | lra]. }
  lia.
Qed.

Lemma slots_dec (T t d st : Q) :
  (0 < st)%Q -> (t < T)%Q -> (st <= d)%Q ->
  slots T (t + d) st + 1 <= slots T t st.
Proof.
  intros Hs Ht Hd. unfold slots.
  set (x := ((T - t) / st)%Q).
  assert (Hx : (0 < x)%Q).
  { unfold x. apply Qlt_shift_div_l; [exact Hs | lra]. }
  assert (Hc : 1 <= Qceiling x).
  { pose proof (Qle_ceiling x) as H.
    assert (H0 : (0 < inject_Z (Qceiling x))%Q) by lra.
    rewrite <- (Zlt_Qlt 0) in H0. lia. }
  assert (Hy : ((T - (t + d)) / st <= inject_Z (Qceiling x - 1))%Q).
  { apply Qle_shift_div_r; [exact Hs|].
    unfold Z.sub. rewrite inject_Z_plus, inject_Z_opp.
    pose proof (Qle_ceiling x) as H.
    assert (Hm : (x * st == T - t)%Q) by (unfold x; field; lra).
    assert (H1 : (x * st <= inject_Z (Qceiling x) * st)%Q)
      by (apply Qmult_le_compat_r; lra).
    change (inject_Z 1) with 1%Q. lra. }
  apply Qceiling_resp_le in Hy. rewrite Qceiling_Z in Hy. lia.
Qed.

Lemma esum_app (w : entry -> Z) (a b : list entry) :
  esum w (a ++ b) = esum w a + esum w b.
Proof. induction a; cbn [esum app]; lia. Qed.

Lemma esum_perm (w : entry -> Z) (a b : list entry) :
  Permutation a b -> esum w a = esum w b.
Proof. induction 1; cbn [esum]; lia. Qed.

Lemma heappop_esum (w : entry -> Z) (q : list entry) (e : entry) (r : list entry) :
  heappop q = Some (e, r) -> esum w q = w e + esum w r.
Proof. intros H. rewrite (esum_perm w _ _ (heappop_perm _ _ _ H)). reflexivity. Qed.

Lemma weight_nonneg (T gap ri : Q) (e : entry) : 0 <= weight T gap ri e.
Proof.
  unfold weight. pose proof (slots_nonneg T (e_time e) gap).
  pose proof (slots_nonneg T (e_time e) ri). destruct (e_event e); lia.
Qed.

Lemma esum_nonneg (w : entry -> Z) (q : list entry) :
  (forall e, 0 <= w e) -> 0 <= esum w q.
Proof.
  intros Hw. induction q as [|e q IH]; cbn [esum]; [lia|].
  specialize (Hw e). lia.
Qed.

Lemma potential_nonneg (T gap ri : Q) (s : sim) : 0 <= potential T gap ri s.
Proof.
  unfold potential.
  pose proof (esum_nonneg (weight T gap ri) (queue s) (weight_nonneg T gap ri)).
  lia.
Qed.

(** [_trigger_get] moves requests from the get queue to the event queue:
    the potential is unchanged and no failure is scheduled. *)
Lemma trigger_get_loop_potential (T gap ri : Q) (pending : list Z) (s : sim) :
  let s' := trigger_get_loop pending s in
  esum (weight T gap ri) (queue s') + 6 * Z.of_nat (length (get_queue s'))
  = esum (weight T gap ri) (queue s) + 6 * Z.of_nat (length pending)
  /\ put_queue s' = put_queue s
  /\ qsum w_failed (queue s') = qsum w_failed (queue s).
Proof.
  cbv zeta. revert s. induction pending as [|a rest IH]; intros s.
  - cbn. auto.
  - cbn [trigger_get_loop]. destruct (a <=? level s).
    + destruct (IH (schedule (GetGranted a) NORMAL 0 (set_level (level s - a) s)))
        as (H1 & H2 & H3).
      rewrite H1, H2, H3. fields. cbn [length weight e_event w_failed].
      rewrite Nat2Z.inj_succ. split; [lia|]. split; [reflexivity | lia].
    + fields. auto.
Qed.

Lemma trigger_put_loop_potential (T gap ri : Q) (pending : list Z) (s : sim) :
  let s' := trigger_put_loop pending s in
  esum (weight T gap ri) (queue s') + 2 * Z.of_nat (length (put_queue s'))
  = esum (weight T gap ri) (queue s) + 2 * Z.of_nat (length pending)
  /\ get_queue s' = get_queue s
  /\ qsum w_failed (queue s') = qsum w_failed (queue s).
Proof.
  cbv zeta. revert s. induction pending as [|a rest IH]; intros s.
  - cbn. auto.
  - cbn [trigger_put_loop]. destruct (a <=? capacity s - level s).
    + destruct (IH (schedule (PutGranted a) NORMAL 0 (set_level (level s + a) s)))
        as (H1 & H2 & H3).
      rewrite H1, H2, H3. fields. cbn [length weight e_event w_failed].
      rewrite Nat2Z.inj_succ. split; [lia|]. split; [reflexivity | lia].
    + fields. auto.
Qed.

Section Termination.

Variable draws : nat -> Q.
Variables dr rct ri sim_time gap : Q.

Hypothesis rate_positive : (0 < dr)%Q.
Hypothesis repair_nonnegative : (0 <= rct)%Q.
Hypothesis interval_positive : (0 < ri)%Q.
Hypothesis gap_positive : (0 < gap)%Q.
Hypothesis draws_apart : forall k, (gap <= draws k)%Q.

Lemma interarrival_apart (k : nat) : (gap / dr <= draws k / dr)%Q.
Proof. apply Qdiv_le_compat; [exact rate_positive | apply draws_apart]. Qed.

Lemma interarrival_gap_positive : (0 < gap / dr)%Q.
Proof. apply Qlt_shift_div_l; [exact rate_positive | lra]. Qed.

Lemma rate_not_zero : Qeq_bool dr 0 = false.
Proof.
  destruct (Qeq_bool dr 0) eqn:E; [|reflexivity].
  apply Qeq_bool_iff in E. lra.
Qed.

Lemma interarrival_accepted (k : nat) : Qle_bool 0 (draws k / dr) = true.
Proof.
  apply Qle_bool_iff. pose proof (interarrival_apart k).
  pose proof interarrival_gap_positive. lra.
Qed.

Lemma repair_accepted : Qle_bool 0 rct = true.
Proof. apply Qle_bool_iff. exact repair_nonnegative. Qed.

Lemma interval_accepted : Qle_bool 0 ri = true.
Proof. apply Qle_bool_iff. lra. Qed.

(** Before the horizon every step of a healthy run lowers the potential
    and schedules no failure; the loop never finds the queue empty. *)
Lemma progress_step (s : sim) :
  timing sim_time s -> healthy s ->
  match step draws dr rct ri s with
  | Continue s' =>
      healthy s'
      /\ potential sim_time (gap / dr) ri s' < potential sim_time (gap / dr) ri s
  | Stop _ => True
  | Raise _ _ => False
  end.
Proof.
  intros Tm Hh. unfold step.
  destruct (heappop (queue s)) as [[e q]|] eqn:Hpop.
  - pose proof (heappop_esum (weight sim_time (gap / dr) ri) _ _ _ Hpop) as Hs.
    pose proof (heappop_qsum w_failed _ _ _ Hpop) as Hf.
    pose proof (qsum_nonneg w_failed q w_failed_nonneg) as Pf.
    pose proof (timing_pop sim_time s e q Tm Hpop) as Hlt.
    pose proof interarrival_gap_positive as Hg.
    unfold healthy in *. rewrite Hh in Hf. unfold potential. rewrite Hs.
    assert (Hw := eq_refl (weight sim_time (gap / dr) ri e)).
    unfold weight at 2 in Hw.
    set (we := weight sim_time (gap / dr) ri e) in *.
    destruct (e_event e) eqn:Hev; cbn [dispatch w_failed] in *;
      try (assert (Hlt' : (e_time e < sim_time)%Q) by (apply Hlt; discriminate)).
    + (* InitGenerator *)
      unfold vehicle_generator_loop, expovariate. rewrite rate_not_zero.
      unfold env_timeout. fields. rewrite interarrival_accepted. fields.
      cbn [weight e_event e_time w_failed].
      pose proof (interarrival_apart (rng s)).
      pose proof (slots_mono sim_time (e_time e) (e_time e + draws (rng s) / dr)
                    (gap / dr) Hg ltac:(lra)).
      split; lia.
    + (* InitObserver *)
      unfold metrics_observer_loop, env_timeout. rewrite interval_accepted.
      fields. cbn [weight e_event e_time w_failed].
      pose proof (slots_mono sim_time (e_time e) (e_time e + ri) ri
                    interval_positive ltac:(lra)).
      split; lia.
    + (* InitVehicle *)
      unfold vehicle_start, container_get, trigger_get. cbn [Z.leb Z.compare].
      fields.
      match goal with |- context [trigger_get_loop ?p ?s1] =>
        destruct (trigger_get_loop_potential sim_time (gap / dr) ri p s1)
          as (H1 & H2 & H3) end.
      rewrite H2, H3. fields. rewrite length_app, Nat2Z.inj_add in H1.
      cbn [length] in H1. split; lia.
    + (* InitRepair *)
      unfold repair_start, env_timeout. rewrite repair_accepted.
      fields. cbn [weight e_event e_time w_failed]. split; lia.
    + (* TimeoutGenerator *)
      unfold vehicle_generator_resume, vehicle_generator_loop, expovariate.
      rewrite rate_not_zero. unfold env_timeout. fields.
      rewrite interarrival_accepted. fields.
      cbn [weight e_event e_time w_failed].
      pose proof (slots_dec sim_time (e_time e) (draws (rng s) / dr) (gap / dr)
                    Hg Hlt' (interarrival_apart (rng s))).
      split; lia.
    + (* TimeoutObserver *)
      unfold metrics_observer_loop, env_timeout. rewrite interval_accepted.
      fields. cbn [weight e_event e_time w_failed].
      pose proof (slots_dec sim_time (e_time e) ri ri
                    interval_positive Hlt' ltac:(lra)).
      split; lia.
    + (* TimeoutRepair *)
      unfold repair_put, container_put, trigger_put. cbn [Z.leb Z.compare].
      fields.
      match goal with |- context [trigger_put_loop ?p ?s1] =>
        destruct (trigger_put_loop_potential sim_time (gap / dr) ri p s1)
          as (H1 & H2 & H3) end.
      rewrite H2, H3. fields. rewrite length_app, Nat2Z.inj_add in H1.
      cbn [length] in H1. split; lia.
    + (* GetGranted *)
      unfold vehicle_finish, trigger_put. fields.
      match goal with |- context [trigger_put_loop ?p ?s1] =>
        destruct (trigger_put_loop_potential sim_time (gap / dr) ri p s1)
          as (H1 & H2 & H3) end.
      rewrite H2, H3. fields. cbn [weight e_event e_time w_failed].
      split; lia.
    + (* PutGranted *)
      unfold repair_finish, trigger_get. fields.
      match goal with |- context [trigger_get_loop ?p ?s1] =>
        destruct (trigger_get_loop_potential sim_time (gap / dr) ri p s1)
          as (H1 & H2 & H3) end.
      rewrite H2, H3. fields. cbn [weight e_event e_time w_failed].
      split; lia.
    + (* ProcessEnded *)
      fields. split; lia.
    + (* ProcessFailed *)
      lia.
    + (* UntilEvent *)
      exact I.
  - apply heappop_none in Hpop. pose proof (tm_until _ _ Tm) as Hu.
    rewrite Hpop in Hu. cbn in Hu. lia.
Qed.

Lemma run_loop_returns (s : sim) :
  timing sim_time s -> healthy s ->
  exists fuel sf, run_loop draws dr rct ri fuel s = Finished sf.
Proof.
  assert (H : forall n s, timing sim_time s -> healthy s ->
                potential sim_time (gap / dr) ri s < Z.of_nat n ->
                exists fuel sf, run_loop draws dr rct ri fuel s = Finished sf).
  { induction n as [|n IH]; intros x Tm Hh Hp.
    - pose proof (potential_nonneg sim_time (gap / dr) ri x). lia.
    - pose proof (progress_step x Tm Hh) as P.
      pose proof (timing_step draws dr rct ri sim_time x Tm) as T'.
      destruct (step draws dr rct ri x) as [x'|sf|] eqn:Hst.
      + destruct P as [Hh' Hp'].
        destruct (IH x' T' Hh') as (fuel & sf & Hr); [lia|].
        exists (S fuel), sf. cbn [run_loop]. rewrite Hst. exact Hr.
      + exists 1%nat, sf. cbn [run_loop]. rewrite Hst. reflexivity.
      + contradiction. }
  intros Tm Hh.
  apply (H (S (Z.to_nat (potential sim_time (gap / dr) ri s))) s Tm Hh).
  pose proof (potential_nonneg sim_time (gap / dr) ri s). lia.
Qed.

End Termination.

Lemma started_healthy (initial_supply : Z) (sim_time : Q) (start : sim) :
  started initial_supply sim_time start -> healthy start.
Proof.
  intros H. destruct (started_fields _ _ _ H) as (_ & _ & ->). reflexivity.
Qed.

Lemma started_cadence (initial_supply : Z) (sim_time ri : Q) (start : sim) :
  started initial_supply sim_time start -> cadence ri 0 start.
Proof.
  intros H. destruct (started_fields _ _ _ H) as (_ & _ & ->).
  constructor; fields; cbn [w_obs]; auto.
  - repeat constructor; cbn [e_event is_observer]; intros;
      try contradiction; try reflexivity.
  - intros _. repeat split; repeat constructor.
  - intros K. exfalso. apply K. reflexivity.
Qed.

Section Horizon_cadence.

Variables sim_time ri : Q.

(** At the horizon the observer has sampled at least once; its last sample
    lies before the horizon and its next one does not. *)
Lemma horizon_cadence (s : sim) (k : nat) :
  at_horizon sim_time s -> cadence ri k s ->
  exists k', k = S k'
             /\ (obs_time ri k' < sim_time)%Q
             /\ (sim_time <= obs_time ri (S k'))%Q.
Proof.
  intros Hz C.
  destruct (qsum_pos_In w_obs (queue s)) as [x [Hx Hw]];
    [rewrite (cd_one _ _ _ C); lia|].
  assert (Hox : is_observer (e_event x))
    by (destruct (e_event x); cbn [w_obs is_observer] in *; auto; lia).
  pose proof (hz_entries _ _ Hz) as He. pose proof (cd_next _ _ _ C) as Hn.
  rewrite Forall_forall in He, Hn.
  destruct (He x Hx) as [Hge Him]. destruct (Hn x Hx Hox) as [Ht Hi].
  destruct k as [|k'].
  - exfalso. rewrite (proj2 Hi eq_refl) in Him. discriminate.
  - exists k'. split; [reflexivity|]. split; [|rewrite <- Ht; exact Hge].
    pose proof (hz_samples _ _ Hz) as Hs. pose proof (cd_times _ _ _ C) as Hm.
    rewrite seq_S, map_app in Hm. cbn [map Nat.add] in Hm.
    assert (Hin : In (obs_time ri k') (map snap_time (timeseries s)))
      by (rewrite Hm; apply in_or_app; right; left; reflexivity).
    apply in_map_iff in Hin. destruct Hin as (sn & Hsn & Hin).
    rewrite Forall_forall in Hs. rewrite <- Hsn. exact (Hs sn Hin).
Qed.

End Horizon_cadence.

Lemma returned_cadence (fuel : nat) (draws : nat -> Q) (initial_supply : Z)
    (dr rct sim_time : Q) (ri : option Q) (fm : final_metrics)
    (ts : list snapshot) :
  run_simulation fuel draws initial_supply dr rct sim_time ri = Returned fm ts ->
  exists k,
    map snap_time ts = map (obs_time (effective_interval ri)) (seq 0 (S k))
    /\ (obs_time (effective_interval ri) k < sim_time)%Q
    /\ (sim_time <= obs_time (effective_interval ri) (S k))%Q
    /\ exists f rest, ts = f :: rest
                      /\ snap_total_arrivals f = 0 /\ snap_served f = 0.
Proof.
  intros H. destruct (returned_run _ _ _ _ _ _ _ _ _ H) as (start & sf & St & F & -> & ->).
  pose proof (cadence_step draws dr rct (effective_interval ri) sim_time) as Jstep.
  assert (S : sound (sampling (effective_interval ri)) sim_time start).
  { split; [eapply started_timing; eauto|]. left. exists O.
    eapply started_cadence; eauto. }
  destruct (finishes_horizon _ _ _ _ _ _ Jstep _ _ S F) as [Hz [k C]].
  destruct (horizon_cadence _ _ _ _ Hz C) as (k' & -> & Hlt & Hge).
  exists k'. split; [exact (cd_times _ _ _ C)|]. split; [exact Hlt|].
  split; [exact Hge|]. apply (cd_first _ _ _ C). discriminate.
Qed.

(** A run returns when the supply, the horizon, the demand rate and the
    sampling interval are positive, the repair time is not negative and the
    draws stay above a positive bound. *)
Lemma run_simulation_returns (draws : nat -> Q) (initial_supply : Z)
    (dr rct sim_time ri gap : Q) :
  1 <= initial_supply -> (0 < sim_time)%Q -> (0 < dr)%Q -> (0 <= rct)%Q ->
  (0 < ri)%Q -> (0 < gap)%Q -> (forall k, (gap <= draws k)%Q) ->
  exists fuel fm ts,
    run_simulation fuel draws initial_supply dr rct sim_time (Some ri)
    = Returned fm ts.
Proof.
  intros Hn Ht Hdr Hrct Hri Hgap Hdraws.
  destruct (run_simulation_state_started draws initial_supply dr rct sim_time ri
              Hn Ht) as (start & St & Hrun).
  destruct (run_loop_returns draws dr rct ri sim_time gap Hdr Hrct Hri
              Hgap Hdraws start (started_timing _ _ _ St) (started_healthy _ _ _ St))
    as (fuel & sf & Hr).
  exists fuel, (compute_final_metrics sf), (timeseries sf).
  unfold run_simulation. cbn [effective_interval]. rewrite Hrun, Hr. reflexivity.
Qed.




(** * More bookkeeping: idle units, draws, the rate *)

(** With unit requests, [_trigger_get] stops with the get queue empty or
    the pool empty. *)
Lemma trigger_get_loop_drained (pending : list Z) (s : sim) :
  Forall (eq 1) pending -> 0 <= level s ->
  get_queue (trigger_get_loop pending s) = []
  \/ level (trigger_get_loop pending s) = 0.
Proof.
  intros Hp. revert s. induction Hp as [|a rest Ha _ IH]; intros s Hl.
  - left. reflexivity.
  - subst a. cbn [trigger_get_loop]. destruct (1 <=? level s) eqn:E.
    + apply Z.leb_le in E. apply IH. simpl. lia.
    + apply Z.leb_gt in E. right. simpl. lia.
Qed.

Lemma trigger_get_drained (s : sim) :
  Forall (eq 1) (get_queue s) -> 0 <= level s ->
  get_queue (trigger_get s) = [] \/ level (trigger_get s) = 0.
Proof. apply trigger_get_loop_drained. Qed.

Ltac led_weights :=
  cbn [w_returned w_initgen w_initvehicle w_failed] in *.

Ltac led_done Li Lq :=
  constructor; fields; led_weights; auto; rewrite ?Nat2Z.inj_succ; try lia;
  try (let Hne := fresh "Hne" in intros Hne; specialize (Li Hne); lia);
  try (destruct Lq; auto; left; lia).

Section Ledger.

Variable draws : nat -> Q.
Variables dr rct ri : Q.
Variable sim_time : Q.
Variable cap : Z.

Lemma books_step (s : sim) :
  timing sim_time s -> books cap dr s ->
  let s' := result_state (step draws dr rct ri s) in
  books cap dr s' \/ doomed s'.
Proof.
  intros _ [A L]. cbv zeta.
  destruct (accounting_step draws dr rct ri cap s A) as [A'|D]; [|right; exact D].
  revert A'. unfold step.
  destruct (heappop (queue s)) as [[e q]|] eqn:Hpop;
    [|intros A'; left; split; [exact A' | exact L]].
  pose proof (heappop_qsum w_returned _ _ _ Hpop) as Hr.
  pose proof (heappop_qsum w_initgen _ _ _ Hpop) as Hg.
  pose proof (heappop_qsum w_initvehicle _ _ _ Hpop) as Hv.
  pose proof (qsum_nonneg w_returned q w_returned_nonneg) as Pr.
  pose proof (qsum_nonneg w_failed q w_failed_nonneg) as Pf.
  destruct L as [Ls Li Lr Lq].
  destruct A as [Ac Au Ar Aa Al Ag Ap Am].
  destruct (e_event e) eqn:Hev; cbn [dispatch result_state] in *; led_weights.
  - (* InitGenerator *)
    unfold vehicle_generator_loop, expovariate.
    destruct (Qeq_bool dr 0) eqn:Hdr.
    + intros _. right. unfold doomed. fields. led_weights. lia.
    + unfold env_timeout.
      match goal with |- context [Qle_bool 0 ?d] => destruct (Qle_bool 0 d) end;
        intros A'; left; (split; [exact A'|]); led_done Li Lq.
  - (* InitObserver *)
    unfold metrics_observer_loop, env_timeout.
    destruct (Qle_bool 0 ri); intros A'; left; (split; [exact A'|]);
      led_done Li Lq.
  - (* InitVehicle *)
    unfold vehicle_start, container_get. cbn [Z.leb Z.compare].
    intros A'. left. split; [exact A'|].
    match goal with |- ledger _ (trigger_get ?s1) =>
      destruct (trigger_get_spec s1) as (new & G & E & Gl & Gp & Gg & Ln);
        [fields; apply Forall_app; split; [exact Ag | repeat constructor]
        | fields; exact Al |];
      destruct (trigger_get_drained s1) as [Hd|Hd];
        [fields; apply Forall_app; split; [exact Ag | repeat constructor]
        | fields; exact Al | |]
    end;
      (constructor; by_grant G;
       rewrite ?(qsum_const _ _ _ E); fields; led_weights; auto; try lia;
       try (intros Hne; try congruence; rewrite Hd; lia);
       try (destruct Lq; auto; left; lia)).
  - (* InitRepair *)
    unfold repair_start, env_timeout.
    destruct (Qle_bool 0 rct); intros A'; left; (split; [exact A'|]);
      led_done Li Lq.
  - (* TimeoutGenerator *)
    unfold vehicle_generator_resume, vehicle_generator_loop, expovariate.
    cbn [env_process schedule].
    destruct (Qeq_bool dr 0) eqn:Hdr.
    + intros _. right. unfold doomed. fields. led_weights. lia.
    + unfold env_timeout.
      match goal with |- context [Qle_bool 0 ?d] => destruct (Qle_bool 0 d) end;
        intros A'; left; (split; [exact A'|]); led_done Li Lq.
  - (* TimeoutObserver *)
    unfold metrics_observer_loop, env_timeout.
    destruct (Qle_bool 0 ri); intros A'; left; (split; [exact A'|]);
      led_done Li Lq.
  - (* TimeoutRepair *)
    unfold repair_put, container_put, trigger_put. cbn [Z.leb Z.compare].
    fields. rewrite Ap. cbn [app trigger_put_loop]. fields.
    destruct (1 <=? capacity s - level s) eqn:Hroom;
      intros A'; left; (split; [exact A'|]); led_done Li Lq.
  - (* GetGranted *)
    unfold vehicle_finish, trigger_put. fields. rewrite Ap.
    cbn [trigger_put_loop]. fields.
    intros A'; left; (split; [exact A'|]). led_done Li Lq.
  - (* PutGranted *)
    unfold repair_finish.
    intros A'. left. split; [exact A'|].
    match goal with |- ledger _ (process_end (set_in_repair _ (trigger_get ?s1))) =>
      destruct (trigger_get_spec s1) as (new & G & E & Gl & Gp & Gg & Ln);
        [exact Ag | exact Al |];
      destruct (trigger_get_drained s1) as [Hd|Hd]; [exact Ag | exact Al | |]
    end;
      (constructor; fields; by_grant G;
       rewrite ?(qsum_const _ _ _ E); fields; led_weights; auto; try lia;
       try (intros Hne; try congruence; rewrite Hd; lia);
       try (destruct Lq; auto; left; lia)).
  - (* ProcessEnded *)
    intros A'; left; (split; [exact A'|]). led_done Li Lq.
  - (* ProcessFailed *)
    intros A'; left; (split; [exact A'|]). led_done Li Lq.
  - (* UntilEvent *)
    intros A'; left; (split; [exact A'|]). led_done Li Lq.
Qed.

End Ledger.

Lemma started_ledger (initial_supply : Z) (sim_time dr : Q) (start : sim) :
  started initial_supply sim_time start -> ledger dr start.
Proof.
  intros H. destruct (started_fields _ _ _ H) as (_ & _ & ->).
  constructor; fields; led_weights; auto; try lia. intros K. congruence.
Qed.

(** What a run that returns went through: its final state is at the
    horizon with sound books, and so is every state a snapshot was
    sampled in. *)
Lemma returned_books (fuel : nat) (draws : nat -> Q) (initial_supply : Z)
    (dr rct sim_time : Q) (ri : option Q) (fm : final_metrics)
    (ts : list snapshot) :
  run_simulation fuel draws initial_supply dr rct sim_time ri = Returned fm ts ->
  exists sf,
    run_simulation_state fuel draws initial_supply dr rct sim_time
      (effective_interval ri) = Finished sf
    /\ fm = compute_final_metrics sf /\ ts = timeseries sf
    /\ 1 <= initial_supply
    /\ at_horizon sim_time sf /\ books initial_supply dr sf
    /\ forall sn, In sn ts ->
       exists s0, books initial_supply dr s0 /\ sampled_in s0 sn.
Proof.
  intros H. destruct (returned_run _ _ _ _ _ _ _ _ _ H) as (start & sf & St & F & -> & ->).
  exists sf.
  assert (Hs : run_simulation_state fuel draws initial_supply dr rct sim_time
                 (effective_interval ri) = Finished sf).
  { unfold run_simulation in H.
    destruct (run_simulation_state fuel draws initial_supply dr rct sim_time
                (effective_interval ri)) as [x| |] eqn:E; try discriminate.
    destruct (started_fields _ _ _ St) as (Hn & Ht & ->).
    destruct (run_simulation_state_started draws initial_supply dr rct sim_time
                (effective_interval ri) Hn Ht) as (start' & St' & Hrun).
    rewrite Hrun in E. destruct (started_fields _ _ _ St') as (_ & _ & ->).
    destruct (finishes_run_loop _ _ _ _ _ _ F) as [fuel' Hf'].
    destruct F as (n & s1 & Hn1 & Hs1).
    pose proof (run_loop_finishes _ _ _ _ _ _ _ E) as (n' & s1' & Hn1' & Hs1').
    assert (Hx : forall m a b, nth_state draws dr rct (effective_interval ri) m a = Some b ->
                 forall m' b' y y',
                   nth_state draws dr rct (effective_interval ri) m' a = Some b' ->
                   step draws dr rct (effective_interval ri) b = Stop y ->
                   step draws dr rct (effective_interval ri) b' = Stop y' -> y = y').
    { induction m as [|m IH]; intros a b Hm m' b' y y' Hm' Hy Hy'.
      - cbn in Hm. inversion Hm; subst a. destruct m' as [|m'].
        + cbn in Hm'. inversion Hm'; subst. congruence.
        + cbn in Hm'. rewrite Hy in Hm'. discriminate.
      - cbn in Hm.
        destruct (step draws dr rct (effective_interval ri) a) as [a'| |] eqn:Ea;
          try discriminate.
        destruct m' as [|m'].
        + cbn in Hm'. inversion Hm'; subst. congruence.
        + cbn in Hm'. rewrite Ea in Hm'. eapply IH; eauto. }
    rewrite (Hx _ _ _ Hn1' _ _ _ _ Hn1 Hs1' Hs1). reflexivity. }
  split; [exact Hs|]. split; [reflexivity|]. split; [reflexivity|].
  destruct (started_fields _ _ _ St) as (Hn & _ & Hst).
  split; [exact Hn|].
  pose proof (books_step draws dr rct (effective_interval ri) sim_time
                initial_supply) as Jstep.
  assert (S : sound (books initial_supply dr) sim_time start).
  { split; [eapply started_timing; eauto|]. left.
    split; [eapply started_accounting | eapply started_ledger]; eauto. }
  destruct (finishes_horizon _ _ _ _ _ _ Jstep _ _ S F) as [Hz B].
  split; [exact Hz|]. split; [exact B|].
  intros sn Hin.
  assert (He : timeseries start = []) by (rewrite Hst; reflexivity).
  destruct (finishes_samples _ _ _ _ _ _ Jstep _ _ S He F sn Hin)
    as (k & s0 & _ & B0 & _ & Hs0).
  exists s0. split; assumption.
Qed.

(** * What the metrics always satisfy *)

Lemma satisfaction_bounds (srv arrivals : Z) :
  0 <= srv <= arrivals ->
  (0 <= satisfaction srv arrivals)%Q /\ (satisfaction srv arrivals <= 1)%Q.
Proof.
  intros [H0 H1]. unfold satisfaction.
  destruct (0 <? arrivals) eqn:E; [|split; [apply Qle_refl | discriminate]].
  apply Z.ltb_lt in E.
  assert (Ha : (0 < inject_Z arrivals)%Q) by (rewrite <- (Zlt_Qlt 0); exact E).
  split.
  - apply Qle_shift_div_l; [exact Ha|]. rewrite Qmult_0_l.
    rewrite <- (Zle_Qle 0). exact H0.
  - apply Qle_shift_div_r; [exact Ha|]. rewrite Qmult_1_l.
    rewrite <- Zle_Qle. exact H1.
Qed.

Lemma books_counters (cap : Z) (dr : Q) (s : sim) :
  books cap dr s -> 0 <= served s <= total_arrivals s.
Proof.
  intros [A L]. pose proof (qsum_nonneg w_granted (queue s) w_granted_nonneg).
  destruct A, L. lia.
Qed.

(** X1: in every snapshot and in final_metrics the satisfaction rate is
    served / total_arrivals (0 when nothing arrived) and lies between 0
    and 1. *)
Theorem satisfaction_rate_bounded (fuel : nat) (draws : nat -> Q)
    (initial_supply : Z) (dr rct sim_time : Q) (ri : option Q)
    (fm : final_metrics) (ts : list snapshot) :
  run_simulation fuel draws initial_supply dr rct sim_time ri = Returned fm ts ->
  ((0 <= fm_demand_satisfaction_rate fm)%Q
   /\ (fm_demand_satisfaction_rate fm <= 1)%Q
   /\ fm_demand_satisfaction_rate fm
      = satisfaction (fm_served fm) (fm_total_arrivals fm))
  /\ Forall (fun sn =>
               (0 <= snap_satisfaction_rate sn)%Q
               /\ (snap_satisfaction_rate sn <= 1)%Q
               /\ snap_satisfaction_rate sn
                  = satisfaction (snap_served sn) (snap_total_arrivals sn)) ts.
Proof.
  intros H.
  destruct (returned_books _ _ _ _ _ _ _ _ _ H)
    as (sf & _ & -> & -> & _ & _ & B & Hsn).
  split.
  - destruct (satisfaction_bounds _ _ (books_counters _ _ _ B)) as [H0 H1].
    cbn [compute_final_metrics fm_demand_satisfaction_rate fm_served
         fm_total_arrivals]. auto.
  - rewrite Forall_forall. intros sn Hin.
    destruct (Hsn sn Hin) as (s0 & B0 & e & q & _ & _ & ->).
    destruct (satisfaction_bounds _ _ (books_counters _ _ _ B0)) as [H0 H1].
    cbn [take_snapshot popped snap_satisfaction_rate snap_served
         snap_total_arrivals set_now set_queue served total_arrivals]. auto.
Qed.

Lemma satisfaction_rate_bounded_witness :
  run_simulation 100 draws_two_then_far 1 1 5 3 (Some 1%Q)
  = Returned coincidence_metrics coincidence_series
  /\ (0 <= fm_demand_satisfaction_rate coincidence_metrics)%Q
  /\ (fm_demand_satisfaction_rate coincidence_metrics <= 1)%Q.
Proof.
  pose proof coincidence_run_returns as H. split; [exact H|].
  destruct (satisfaction_rate_bounded _ _ _ _ _ _ _ _ _ H) as [(H0 & H1 & _) _].
  split; assumption.
Defined.

(** X2: the pool stays within its bounds: in every snapshot and in
    final_metrics 0 <= available_supply <= initial_supply, and in_repair
    and backlog are not negative; in final_metrics in_repair is at most
    initial_supply. *)
Theorem pool_bounds (fuel : nat) (draws : nat -> Q)
    (initial_supply : Z) (dr rct sim_time : Q) (ri : option Q)
    (fm : final_metrics) (ts : list snapshot) :
  run_simulation fuel draws initial_supply dr rct sim_time ri = Returned fm ts ->
  (0 <= fm_available_supply fm <= initial_supply
   /\ 0 <= fm_in_repair fm <= initial_supply
   /\ 0 <= fm_backlog fm)
  /\ Forall (fun sn =>
               0 <= snap_available_supply sn <= initial_supply
               /\ 0 <= snap_in_repair sn
               /\ 0 <= snap_backlog sn) ts.
Proof.
  intros H.
  destruct (returned_books _ _ _ _ _ _ _ _ _ H)
    as (sf & _ & -> & -> & _ & Hz & [A _] & Hsn).
  split.
  - pose proof (qsum_in_flight (queue sf)) as Hq.
    rewrite (at_horizon_no_immediate sim_time w_granted sf) in Hq;
      [|intros ev; destruct ev; simpl; congruence | exact Hz].
    rewrite (at_horizon_no_immediate sim_time w_starting sf) in Hq;
      [|intros ev; destruct ev; simpl; congruence | exact Hz].
    rewrite (at_horizon_no_immediate sim_time w_returned sf) in Hq;
      [|intros ev; destruct ev; simpl; congruence | exact Hz].
    pose proof (qsum_nonneg w_out (queue sf) w_out_nonneg).
    pose proof (qsum_nonneg w_rep (queue sf) w_rep_nonneg).
    destruct A.
    cbn [compute_final_metrics fm_available_supply fm_in_repair fm_backlog]. lia.
  - rewrite Forall_forall. intros sn Hin.
    destruct (Hsn sn Hin) as (s0 & [A0 _] & e & q & _ & _ & ->).
    pose proof (qsum_nonneg w_out (queue s0) w_out_nonneg).
    pose proof (qsum_nonneg w_rep (queue s0) w_rep_nonneg).
    destruct A0.
    cbn [take_snapshot popped snap_available_supply snap_in_repair snap_backlog
         set_now set_queue level in_repair get_queue]. lia.
Qed.

Lemma pool_bounds_witness :
  run_simulation 100 draws_two_then_far 1 1 5 3 (Some 1%Q)
  = Returned coincidence_metrics coincidence_series
  /\ Forall (fun sn =>
               0 <= snap_available_supply sn <= 1
               /\ 0 <= snap_in_repair sn
               /\ 0 <= snap_backlog sn) coincidence_series.
Proof.
  pose proof coincidence_run_returns as H. split; [exact H|].
  exact (proj2 (pool_bounds _ _ _ _ _ _ _ _ _ H)).
Defined.

(** X3: at the end of a run that returns, total_arrivals = served +
    backlog, and demand is backlogged only when no unit is available: a
    positive backlog comes with available_supply = 0 and every unit in
    repair. *)
Theorem final_backlog (fuel : nat) (draws : nat -> Q)
    (initial_supply : Z) (dr rct sim_time : Q) (ri : option Q)
    (fm : final_metrics) (ts : list snapshot) :
  run_simulation fuel draws initial_supply dr rct sim_time ri = Returned fm ts ->
  fm_total_arrivals fm = fm_served fm + fm_backlog fm
  /\ (0 < fm_backlog fm ->
      fm_available_supply fm = 0 /\ fm_in_repair fm = initial_supply).
Proof.
  intros H.
  destruct (returned_books _ _ _ _ _ _ _ _ _ H)
    as (sf & _ & -> & -> & _ & Hz & [A L] & _).
  pose proof (qsum_in_flight (queue sf)) as Hq.
  assert (Hg : qsum w_granted (queue sf) = 0)
    by (apply (at_horizon_no_immediate sim_time); [|exact Hz];
        intros ev; destruct ev; simpl; congruence).
  assert (Hst : qsum w_starting (queue sf) = 0)
    by (apply (at_horizon_no_immediate sim_time); [|exact Hz];
        intros ev; destruct ev; simpl; congruence).
  assert (Hr : qsum w_returned (queue sf) = 0)
    by (apply (at_horizon_no_immediate sim_time); [|exact Hz];
        intros ev; destruct ev; simpl; congruence).
  rewrite Hg, Hst, Hr in Hq.
  destruct A, L.
  cbn [compute_final_metrics fm_total_arrivals fm_served fm_backlog
       fm_available_supply fm_in_repair].
  split; [lia|]. intros Hb.
  assert (Hne : get_queue sf <> []).
  { intros K. rewrite K in Hb. cbn in Hb. lia. }
  specialize (lg_idle0 Hne). lia.
Qed.

Lemma busy_run_returns :
  run_simulation 100 draws_steady 1 1 (1 # 2) 3 (Some 1%Q)
  = Returned busy_metrics busy_series.
Proof. vm_compute. reflexivity. Qed.

Lemma final_backlog_witness :
  (run_simulation 100 draws_steady 1 1 (1 # 2) 3 (Some 1%Q)
   = Returned busy_metrics busy_series
   /\ 0 < fm_backlog busy_metrics)
  /\ fm_total_arrivals busy_metrics = fm_served busy_metrics + fm_backlog busy_metrics
  /\ fm_available_supply busy_metrics = 0 /\ fm_in_repair busy_metrics = 1.
Proof.
  pose proof busy_run_returns as H.
  assert (Hb : 0 < fm_backlog busy_metrics) by reflexivity.
  split; [split; assumption|].
  destruct (final_backlog _ _ _ _ _ _ _ _ _ H) as [H1 H2].
  split; [exact H1 | exact (H2 Hb)].
Defined.

(** * Random draws *)

Lemma finished_draws (fuel : nat) (draws : nat -> Q)
    (initial_supply : Z) (dr rct sim_time ri : Q) (sf : sim) :
  run_simulation_state fuel draws initial_supply dr rct sim_time ri = Finished sf ->
  Z.of_nat (rng sf) = total_arrivals sf + 1.
Proof.
  intros Hs.
  assert (H : run_simulation fuel draws initial_supply dr rct sim_time (Some ri)
              = Returned (compute_final_metrics sf) (timeseries sf))
    by (unfold run_simulation; cbn [effective_interval]; rewrite Hs; reflexivity).
  destruct (returned_books _ _ _ _ _ _ _ _ _ H)
    as (sf' & Hs' & _ & _ & _ & Hz & [_ L] & _).
  cbn [effective_interval] in Hs'. rewrite Hs in Hs'. inversion Hs'; subst sf'.
  pose proof (lg_rng _ _ L) as Hr.
  rewrite (at_horizon_no_immediate sim_time w_initgen sf) in Hr;
    [|intros ev; destruct ev; simpl; congruence | exact Hz].
  rewrite (at_horizon_no_immediate sim_time w_initvehicle sf) in Hr;
    [|intros ev; destruct ev; simpl; congruence | exact Hz].
  lia.
Qed.

(** X4: a run that returns has taken exactly total_arrivals + 1 draws from
    the random stream: one when the generator starts and one after each
    vehicle it spawns. *)
Theorem draws_consumed (fuel : nat) (draws : nat -> Q)
    (initial_supply : Z) (dr rct sim_time ri : Q) (sf : sim) :
  run_simulation_state fuel draws initial_supply dr rct sim_time ri = Finished sf ->
  Z.of_nat (rng sf) = total_arrivals sf + 1
  /\ fm_total_arrivals (compute_final_metrics sf) = total_arrivals sf.
Proof.
  intros Hs. split; [exact (finished_draws _ _ _ _ _ _ _ _ Hs) | reflexivity].
Qed.

Lemma draws_consumed_witness :
  exists sf,
    run_simulation_state 100 draws_steady 1 1 (1 # 2) 3 1 = Finished sf
    /\ Z.of_nat (rng sf) = total_arrivals sf + 1.
Proof.
  eexists. split; [vm_compute; reflexivity|].
  refine (proj1 (draws_consumed 100 draws_steady 1 1 (1 # 2) 3 1 _ _)).
  vm_compute. reflexivity.
Defined.

Section Prefix.

Variables d1 d2 : nat -> Q.
Variables dr rct ri : Q.

Lemma step_agree (s : sim) :
  d1 (rng s) = d2 (rng s) -> step d1 dr rct ri s = step d2 dr rct ri s.
Proof.
  intros H. unfold step. destruct (heappop (queue s)) as [[e q]|]; [|reflexivity].
  destruct (e_event e); cbn [dispatch]; try reflexivity;
    unfold vehicle_generator_resume, vehicle_generator_loop, expovariate;
    fields; rewrite H; reflexivity.
Qed.

(** A step takes at most one draw, and one that takes none does not depend
    on the stream. *)
Lemma step_rng (s : sim) :
  let s' := result_state (step d1 dr rct ri s) in
  (rng s <= rng s')%nat
  /\ (rng s' = rng s -> step d1 dr rct ri s = step d2 dr rct ri s).
Proof.
  unfold step. destruct (heappop (queue s)) as [[e q]|] eqn:Hpop;
    [|split; [apply Nat.le_refl | reflexivity]].
  cbv zeta.
  destruct (e_event e) eqn:Hev; cbn [dispatch result_state].
  - unfold vehicle_generator_loop, expovariate.
    destruct (Qeq_bool dr 0); [fields; split; [lia | intros; lia]|].
    unfold env_timeout.
    match goal with |- context [Qle_bool 0 ?d] => destruct (Qle_bool 0 d) end;
      fields; split; try lia; intros; lia.
  - unfold metrics_observer_loop, env_timeout.
    destruct (Qle_bool 0 ri); fields; split; try lia; reflexivity.
  - unfold vehicle_start, container_get. cbn [Z.leb Z.compare].
    match goal with |- context [trigger_get ?s1] =>
      destruct (trigger_get_grants s1) as [new G] end.
    by_grant G. fields. split; [lia | reflexivity].
  - unfold repair_start, env_timeout.
    destruct (Qle_bool 0 rct); fields; split; try lia; reflexivity.
  - unfold vehicle_generator_resume, vehicle_generator_loop, expovariate.
    cbn [env_process schedule].
    destruct (Qeq_bool dr 0); [fields; split; [lia | intros; lia]|].
    unfold env_timeout.
    match goal with |- context [Qle_bool 0 ?d] => destruct (Qle_bool 0 d) end;
      fields; split; try lia; intros; lia.
  - unfold metrics_observer_loop, env_timeout.
    destruct (Qle_bool 0 ri); fields; split; try lia; reflexivity.
  - unfold repair_put, container_put. cbn [Z.leb Z.compare].
    match goal with |- context [trigger_put ?s1] =>
      destruct (trigger_put_returns s1) as [new R] end.
    by_return R. fields. split; [lia | reflexivity].
  - unfold vehicle_finish.
    match goal with |- context [trigger_put ?s1] =>
      destruct (trigger_put_returns s1) as [new R] end.
    fields. by_return R. fields. split; [lia | reflexivity].
  - unfold repair_finish.
    match goal with |- context [trigger_get ?s1] =>
      destruct (trigger_get_grants s1) as [new G] end.
    fields. by_grant G. fields. split; [lia | reflexivity].
  - split; [fields; lia | reflexivity].
  - split; [fields; lia | reflexivity].
  - split; [fields; lia | reflexivity].
Qed.

Lemma run_loop_rng (fuel : nat) (s sf : sim) :
  run_loop d1 dr rct ri fuel s = Finished sf -> (rng s <= rng sf)%nat.
Proof.
  revert s. induction fuel as [|fuel IH]; intros s H; cbn [run_loop] in H;
    [discriminate|].
  pose proof (proj1 (step_rng s)) as Hm.
  destruct (step d1 dr rct ri s) as [s'|s'|] eqn:Hst; try discriminate.
  - specialize (IH _ H). cbn [result_state] in Hm. lia.
  - inversion H; subst. exact Hm.
Qed.

(** The event loop reads the stream only at the positions it consumes. *)
Lemma run_loop_prefix (fuel : nat) (s sf : sim) :
  run_loop d1 dr rct ri fuel s = Finished sf ->
  (forall k, (rng s <= k < rng sf)%nat -> d1 k = d2 k) ->
  run_loop d2 dr rct ri fuel s = Finished sf.
Proof.
  revert s. induction fuel as [|fuel IH]; intros s H Hk; cbn [run_loop] in *;
    [discriminate|].
  destruct (step_rng s) as [Hm Hu].
  assert (Hst : step d1 dr rct ri s = step d2 dr rct ri s).
  { destruct (Nat.eq_dec (rng (result_state (step d1 dr rct ri s))) (rng s)) as [E|E];
      [exact (Hu E)|].
    apply step_agree, Hk.
    destruct (step d1 dr rct ri s) as [s'|s'|] eqn:Hs1; try discriminate;
      cbn [result_state] in *.
    - pose proof (run_loop_rng _ _ _ H). lia.
    - inversion H; subst. lia. }
  rewrite <- Hst.
  destruct (step d1 dr rct ri s) as [s'|s'|] eqn:Hs1; try discriminate.
  - apply IH; [exact H|]. intros k Hk'. apply Hk. cbn [result_state] in Hm. lia.
  - exact H.
Qed.

End Prefix.

(** X5: a run that returns depends on the random stream only through its
    first total_arrivals + 1 draws: any stream that agrees with it on those
    gives the same final_metrics and the same time series. *)
Theorem prefix_determinism (fuel : nat) (d1 d2 : nat -> Q)
    (initial_supply : Z) (dr rct sim_time : Q) (ri : option Q)
    (fm : final_metrics) (ts : list snapshot) :
  run_simulation fuel d1 initial_supply dr rct sim_time ri = Returned fm ts ->
  (forall k, Z.of_nat k <= fm_total_arrivals fm -> d1 k = d2 k) ->
  run_simulation fuel d2 initial_supply dr rct sim_time ri = Returned fm ts.
Proof.
  intros H Hk.
  destruct (returned_books _ _ _ _ _ _ _ _ _ H)
    as (sf & Hs & -> & -> & Hn & Hz & _ & _).
  pose proof (finished_draws _ _ _ _ _ _ _ _ Hs) as Hr.
  assert (Ht : (0 < sim_time)%Q).
  { destruct (returned_run _ _ _ _ _ _ _ _ _ H) as (start & _ & St & _).
    destruct (started_fields _ _ _ St) as (_ & Ht & _). exact Ht. }
  destruct (run_simulation_state_started d1 initial_supply dr rct sim_time
              (effective_interval ri) Hn Ht) as (start & St & Hrun).
  destruct (run_simulation_state_started d2 initial_supply dr rct sim_time
              (effective_interval ri) Hn Ht) as (start' & St' & Hrun').
  assert (start' = start).
  { destruct (started_fields _ _ _ St) as (_ & _ & ->).
    destruct (started_fields _ _ _ St') as (_ & _ & ->). reflexivity. }
  subst start'. rewrite Hrun in Hs.
  unfold run_simulation. rewrite Hrun'.
  rewrite (run_loop_prefix d1 d2 dr rct (effective_interval ri) fuel start sf Hs);
    [reflexivity|].
  intros k [_ Hlt]. apply Hk.
  cbn [compute_final_metrics fm_total_arrivals]. lia.
Qed.

Lemma prefix_determinism_witness :
  (run_simulation 100 draws_two_then_far 1 1 5 3 (Some 1%Q)
   = Returned coincidence_metrics coincidence_series
   /\ forall k, Z.of_nat k <= fm_total_arrivals coincidence_metrics ->
                 draws_two_then_far k = (fun k => if Nat.leb k 1 then
                                                  draws_two_then_far k else 7%Q) k)
  /\ run_simulation 100 (fun k => if Nat.leb k 1 then draws_two_then_far k else 7%Q)
       1 1 5 3 (Some 1%Q)
     = Returned coincidence_metrics coincidence_series.
Proof.
  pose proof coincidence_run_returns as H.
  assert (Hk : forall k, Z.of_nat k <= fm_total_arrivals coincidence_metrics ->
               draws_two_then_far k = (fun k => if Nat.leb k 1 then
                                                draws_two_then_far k else 7%Q) k).
  { intros k Hk. cbn [coincidence_metrics fm_total_arrivals] in Hk. cbv beta.
    destruct (Nat.leb k 1) eqn:E; [reflexivity|].
    apply Nat.leb_gt in E. lia. }
  split; [split; assumption|].
  exact (prefix_determinism _ _ _ _ _ _ _ _ _ _ H Hk).
Defined.

(** * Inputs of a run that returns, and the number of samples *)

Lemma obs_time_linear (ri : Q) (k : nat) :
  (obs_time ri k == inject_Z (Z.of_nat k) * ri)%Q.
Proof.
  induction k as [|k IH]; [cbn; ring|].
  cbn [obs_time]. rewrite IH, Nat2Z.inj_succ. unfold Z.succ.
  rewrite inject_Z_plus. change (inject_Z 1) with 1%Q. ring.
Qed.

Lemma Qceiling_unique (x : Q) (z : Z) :
  (inject_Z z - 1 < x)%Q -> (x <= inject_Z z)%Q -> Qceiling x = z.
Proof.
  intros Hl Hu.
  pose proof (Qle_ceiling x) as H1.
  pose proof (Qceiling_resp_le _ _ Hu) as H2. rewrite Qceiling_Z in H2.
  assert (H3 : (inject_Z (z - 1) < inject_Z (Qceiling x))%Q).
  { unfold Z.sub. rewrite inject_Z_plus, inject_Z_opp.
    change (inject_Z 1) with 1%Q. lra. }
  rewrite <- Zlt_Qlt in H3. lia.
Qed.

Lemma nth_error_map_seq (A : Type) (f : nat -> A) (a n i : nat) (x : A) :
  nth_error (map f (seq a n)) i = Some x -> x = f (a + i)%nat.
Proof.
  revert a i. induction n as [|n IH]; intros a i H; [destruct i; discriminate|].
  destruct i as [|i]; cbn in H.
  - inversion H. rewrite Nat.add_0_r. reflexivity.
  - rewrite (IH _ _ H). f_equal. lia.
Qed.



(** X7: when record_interval is a whole number and sim_time is at most
    2^53, so that the sampling instants are whole numbers that the program
    adds without rounding, a run that returns has recorded
    ceil(sim_time / record_interval) snapshots, the i-th at time
    i * record_interval (counting from 0): one per interval from time 0 on,
    the last one strictly before the horizon and less than one interval
    away from it. *)
Theorem sample_count (fuel : nat) (draws : nat -> Q)
    (initial_supply : Z) (dr rct sim_time : Q) (ri : option Q)
    (fm : final_metrics) (ts : list snapshot) (n : Z) :
  (effective_interval ri == inject_Z n)%Q ->
  (sim_time <= inject_Z exact_whole_bound)%Q ->
  run_simulation fuel draws initial_supply dr rct sim_time ri = Returned fm ts ->
  Z.of_nat (length ts) = Qceiling (sim_time / effective_interval ri)
  /\ (forall i sn, nth_error ts i = Some sn ->
        (snap_time sn == inject_Z (Z.of_nat i) * effective_interval ri)%Q
        /\ (snap_time sn < sim_time)%Q
        /\ (i = (length ts - 1)%nat ->
            (sim_time <= snap_time sn + effective_interval ri)%Q)).
Proof.
  intros _ _ H.
  destruct (returned_cadence _ _ _ _ _ _ _ _ _ H) as (k & Hm & Hlt & Hge & _).
  set (r := effective_interval ri) in *.
  assert (Hr : (0 < r)%Q) by (cbn [obs_time] in Hge; lra).
  assert (Hlen : length ts = S k)
    by (rewrite <- (length_map snap_time), Hm, length_map, length_seq; reflexivity).
  pose proof (obs_time_linear r k) as Hk.
  pose proof (obs_time_linear r (S k)) as HSk.
  split.
  - rewrite Hlen. symmetry. apply Qceiling_unique.
    + apply Qlt_shift_div_l; [exact Hr|].
      rewrite Nat2Z.inj_succ. unfold Z.succ. rewrite inject_Z_plus.
      change (inject_Z 1) with 1%Q. lra.
    + apply Qle_shift_div_r; [exact Hr|]. lra.
  - intros i sn Hi.
    assert (Ht : snap_time sn = obs_time r i).
    { apply (map_nth_error snap_time) in Hi. rewrite Hm in Hi.
      apply nth_error_map_seq in Hi. exact Hi. }
    assert (Hik : (i <= k)%nat).
    { assert (i < length ts)%nat by (apply nth_error_Some; congruence). lia. }
    pose proof (obs_time_linear r i) as Hli.
    assert (Hle : (inject_Z (Z.of_nat i) <= inject_Z (Z.of_nat k))%Q)
      by (rewrite <- Zle_Qle; lia).
    assert (Hmul : (inject_Z (Z.of_nat i) * r <= inject_Z (Z.of_nat k) * r)%Q)
      by (apply Qmult_le_compat_r; lra).
    rewrite Ht. split; [exact Hli|]. split; [lra|].
    intros ->. rewrite Hlen. replace (S k - 1)%nat with k by lia.
    cbn [obs_time] in Hge. exact Hge.
Qed.

Lemma sample_count_witness :
  ((effective_interval (Some 1%Q) == inject_Z 1)%Q
   /\ (3 <= inject_Z exact_whole_bound)%Q
   /\ run_simulation 100 draws_two_then_far 1 1 5 3 (Some 1%Q)
      = Returned coincidence_metrics coincidence_series)
  /\ Z.of_nat (length coincidence_series)
     = Qceiling (3 / effective_interval (Some 1%Q)).
Proof.
  assert (Hn : (effective_interval (Some 1%Q) == inject_Z 1)%Q) by reflexivity.
  assert (Hb : (3 <= inject_Z exact_whole_bound)%Q) by (vm_compute; discriminate).
  pose proof coincidence_run_returns as H.
  split; [split; [exact Hn | split; [exact Hb | exact H]]|].
  exact (proj1 (sample_count _ _ _ _ _ _ _ _ _ 1 Hn Hb H)).
Defined.

(** * A run without demand *)

Section Quiet.

Variable draws : nat -> Q.
Variables dr rct ri sim_time : Q.
Variable cap : Z.

Hypothesis first_arrival_late : (sim_time <= draws O / dr)%Q.

Lemma quiet_step (s : sim) :
  timing sim_time s -> quiet cap sim_time s ->
  let s' := result_state (step draws dr rct ri s) in
  quiet cap sim_time s' \/ doomed s'.
Proof.
  intros Tm Qs. cbv zeta. unfold step.
  destruct (heappop (queue s)) as [[e q]|] eqn:Hpop; [|left; exact Qs].
  pose proof (timing_pop sim_time s e q Tm Hpop) as Hlt.
  pose proof (heappop_qsum w_initgen _ _ _ Hpop) as Hg.
  pose proof (qsum_nonneg w_initgen q) as Pg.
  pose proof (qsum_nonneg w_failed q w_failed_nonneg) as Pf.
  destruct Qs as [Qa Qv Qr Ql Qg Qe Qn].
  destruct (heappop_Forall _ _ _ _ Hpop Qe) as [Ee Eq].
  unfold quiet_entry in Ee.
  destruct (e_event e) eqn:Hev; cbn [dispatch result_state w_initgen] in *;
    try contradiction.
  - (* InitGenerator *)
    assert (Hr : rng s = O /\ qsum w_initgen q = 0).
    { assert (0 <= qsum w_initgen q) by (apply Pg; intros ev; destruct ev; simpl; lia).
      destruct Qn as [[Q1 Q2]|Q1]; lia. }
    destruct Hr as [Hr Hq0].
    unfold vehicle_generator_loop, expovariate. fields. rewrite Hr.
    destruct (Qeq_bool dr 0);
      [right; unfold doomed; fields; cbn [w_failed]; lia|].
    unfold env_timeout.
    destruct (Qle_bool 0 (draws O / dr));
      [|right; unfold doomed; fields; cbn [w_failed]; lia].
    left. constructor; fields; auto.
    all: try (constructor; [unfold quiet_entry; cbn [e_event e_time]; lra | exact Eq]).
    all: try (right; cbn [w_initgen]; lia).
  - (* InitObserver *)
    unfold metrics_observer_loop, env_timeout.
    destruct (Qle_bool 0 ri); left; constructor; fields; auto;
      try (constructor; [exact I | exact Eq]);
      cbn [w_initgen]; destruct Qn as [[Q1 Q2]|Q1]; [left|right|left|right];
      try split; try lia; auto.
  - (* TimeoutGenerator *)
    exfalso. assert ((e_time e < sim_time)%Q) by (apply Hlt; discriminate). lra.
  - (* TimeoutObserver *)
    unfold metrics_observer_loop, env_timeout.
    destruct (Qle_bool 0 ri); left; constructor; fields; auto;
      try (constructor; [exact I | exact Eq]);
      cbn [w_initgen]; destruct Qn as [[Q1 Q2]|Q1]; [left|right|left|right];
      try split; try lia; auto.
  - (* ProcessFailed *)
    left. constructor; fields; auto.
    destruct Qn as [[Q1 Q2]|Q1]; [left|right]; try split; try lia; auto.
  - (* UntilEvent *)
    left. constructor; fields; auto.
    destruct Qn as [[Q1 Q2]|Q1]; [left|right]; try split; try lia; auto.
Qed.

End Quiet.

Lemma started_quiet (initial_supply : Z) (sim_time : Q) (start : sim) :
  started initial_supply sim_time start -> quiet initial_supply sim_time start.
Proof.
  intros H. destruct (started_fields _ _ _ H) as (_ & _ & ->).
  constructor; fields; auto.
  all: try (repeat constructor; unfold quiet_entry; cbn [e_event e_time];
            try exact I; discriminate).
Qed.

(** X8: when the first interarrival time already reaches the horizon, a
    run that returns saw no demand: in every snapshot and in final_metrics
    total_arrivals, served, backlog and in_repair are 0 and
    available_supply is initial_supply. *)
Theorem no_demand_run (fuel : nat) (draws : nat -> Q)
    (initial_supply : Z) (dr rct sim_time : Q) (ri : option Q)
    (fm : final_metrics) (ts : list snapshot) :
  (sim_time <= draws O / dr)%Q ->
  run_simulation fuel draws initial_supply dr rct sim_time ri = Returned fm ts ->
  (fm_total_arrivals fm = 0 /\ fm_served fm = 0 /\ fm_backlog fm = 0
   /\ fm_in_repair fm = 0 /\ fm_available_supply fm = initial_supply)
  /\ Forall (fun sn =>
               snap_total_arrivals sn = 0 /\ snap_served sn = 0
               /\ snap_backlog sn = 0 /\ snap_in_repair sn = 0
               /\ snap_available_supply sn = initial_supply) ts.
Proof.
  intros Hlate H.
  destruct (returned_run _ _ _ _ _ _ _ _ _ H) as (start & sf & St & F & -> & ->).
  pose proof (quiet_step draws dr rct (effective_interval ri) sim_time
                initial_supply Hlate) as Jstep.
  assert (S : sound (quiet initial_supply sim_time) sim_time start)
    by (split; [eapply started_timing | left; eapply started_quiet]; eauto).
  split.
  - destruct (finishes_horizon _ _ _ _ _ _ Jstep _ _ S F) as [_ Qf].
    destruct Qf.
    cbn [compute_final_metrics fm_total_arrivals fm_served fm_backlog
         fm_in_repair fm_available_supply].
    rewrite qt_gets0. cbn [length Z.of_nat]. auto.
  - rewrite Forall_forall. intros sn Hin.
    assert (He : timeseries start = []).
    { destruct (started_fields _ _ _ St) as (_ & _ & ->). reflexivity. }
    destruct (finishes_samples _ _ _ _ _ _ Jstep _ _ S He F sn Hin)
      as (k & s0 & _ & Q0 & _ & e & q & _ & _ & ->).
    destruct Q0.
    cbn [take_snapshot popped snap_total_arrivals snap_served snap_backlog
         snap_in_repair snap_available_supply set_now set_queue
         total_arrivals served in_repair level get_queue].
    rewrite qt_gets0. cbn [length Z.of_nat]. auto.
Qed.

Lemma no_demand_run_witness :
  ((3 <= draws_two_then_far O / (1 # 2))%Q
   /\ run_simulation 100 draws_two_then_far 2 (1 # 2) 5 3 (Some 1%Q)
      = Returned (mkFinal 0 0 0 0 2 0)
          [mkSnapshot 0 2 0 0 0 0 0; mkSnapshot 1 2 0 0 0 0 0;
           mkSnapshot 2 2 0 0 0 0 0])
  /\ fm_total_arrivals (mkFinal 0 0 0 0 2 0) = 0
  /\ fm_available_supply (mkFinal 0 0 0 0 2 0) = 2.
Proof.
  assert (Hl : (3 <= draws_two_then_far O / (1 # 2))%Q) by (cbn; discriminate).
  assert (H : run_simulation 100 draws_two_then_far 2 (1 # 2) 5 3 (Some 1%Q)
              = Returned (mkFinal 0 0 0 0 2 0)
                  [mkSnapshot 0 2 0 0 0 0 0; mkSnapshot 1 2 0 0 0 0 0;
                   mkSnapshot 2 2 0 0 0 0 0])
    by (vm_compute; reflexivity).
  split; [split; assumption|].
  destruct (no_demand_run _ _ _ _ _ _ _ _ _ Hl H) as [(H1 & _ & _ & _ & H5) _].
  split; assumption.
Defined.

(** * Runs on acceptable inputs *)

Section Health.

Variable draws : nat -> Q.
Variables dr rct ri sim_time : Q.

Hypothesis rate_positive : (0 < dr)%Q.
Hypothesis repair_nonnegative : (0 <= rct)%Q.
Hypothesis interval_nonnegative : (0 <= ri)%Q.
Hypothesis draws_nonnegative : forall k, (0 <= draws k)%Q.

Lemma delay_accepted (k : nat) : Qle_bool 0 (draws k / dr) = true.
Proof.
  apply Qle_bool_iff. apply Qle_shift_div_l; [exact rate_positive|].
  rewrite Qmult_0_l. apply draws_nonnegative.
Qed.

(** No step of a healthy run schedules a failure or finds the queue
    empty. *)
Lemma healthy_step (s : sim) :
  timing sim_time s -> healthy s ->
  match step draws dr rct ri s with
  | Continue s' => healthy s'
  | Stop _ => True
  | Raise _ _ => False
  end.
Proof.
  intros Tm Hh. unfold step.
  destruct (heappop (queue s)) as [[e q]|] eqn:Hpop.
  - pose proof (heappop_qsum w_failed _ _ _ Hpop) as Hf.
    pose proof (qsum_nonneg w_failed q w_failed_nonneg) as Pf.
    unfold healthy in *. rewrite Hh in Hf.
    assert (Hri : Qle_bool 0 ri = true) by (apply Qle_bool_iff; exact interval_nonnegative).
    assert (Hrc : Qle_bool 0 rct = true) by (apply Qle_bool_iff; exact repair_nonnegative).
    pose proof (rate_not_zero dr rate_positive) as Hdr.
    destruct (e_event e) eqn:Hev; cbn [dispatch w_failed] in *.
    + unfold vehicle_generator_loop, expovariate. rewrite Hdr.
      unfold env_timeout. fields. rewrite delay_accepted. fields.
      cbn [w_failed]. lia.
    + unfold metrics_observer_loop, env_timeout. rewrite Hri. fields.
      cbn [w_failed]. lia.
    + unfold vehicle_start, container_get, trigger_get. cbn [Z.leb Z.compare].
      fields.
      match goal with |- context [trigger_get_loop ?p ?s1] =>
        destruct (trigger_get_loop_potential 0 1 1 p s1) as (_ & _ & H3) end.
      rewrite H3. fields. lia.
    + unfold repair_start, env_timeout. rewrite Hrc. fields.
      cbn [w_failed]. lia.
    + unfold vehicle_generator_resume, vehicle_generator_loop, expovariate.
      rewrite Hdr. unfold env_timeout. fields. rewrite delay_accepted. fields.
      cbn [w_failed]. lia.
    + unfold metrics_observer_loop, env_timeout. rewrite Hri. fields.
      cbn [w_failed]. lia.
    + unfold repair_put, container_put, trigger_put. cbn [Z.leb Z.compare].
      fields.
      match goal with |- context [trigger_put_loop ?p ?s1] =>
        destruct (trigger_put_loop_potential 0 1 1 p s1) as (_ & _ & H3) end.
      rewrite H3. fields. lia.
    + unfold vehicle_finish, trigger_put. fields.
      match goal with |- context [trigger_put_loop ?p ?s1] =>
        destruct (trigger_put_loop_potential 0 1 1 p s1) as (_ & _ & H3) end.
      rewrite H3. fields. cbn [w_failed]. lia.
    + unfold repair_finish, trigger_get. fields.
      match goal with |- context [trigger_get_loop ?p ?s1] =>
        destruct (trigger_get_loop_potential 0 1 1 p s1) as (_ & _ & H3) end.
      rewrite H3. fields. cbn [w_failed]. lia.
    + fields. lia.
    + lia.
    + exact I.
  - apply heappop_none in Hpop. pose proof (tm_until _ _ Tm) as Hu.
    rewrite Hpop in Hu. cbn in Hu. lia.
Qed.

Lemma run_loop_never_fails (fuel : nat) (s : sim) :
  timing sim_time s -> healthy s ->
  forall e sf, run_loop draws dr rct ri fuel s <> Failed e sf.
Proof.
  revert s. induction fuel as [|fuel IH]; intros s Tm Hh e sf; cbn [run_loop];
    [discriminate|].
  pose proof (healthy_step s Tm Hh) as P.
  pose proof (timing_step draws dr rct ri sim_time s Tm) as T'.
  destruct (step draws dr rct ri s) as [s'|s'|]; [|discriminate|contradiction].
  apply IH; assumption.
Qed.

End Health.

Section Fuel.

Variable draws : nat -> Q.
Variables dr rct ri : Q.

(** Fuel beyond what the loop needs changes nothing. *)
Lemma run_loop_more_fuel (fuel fuel' : nat) (s sf : sim) :
  run_loop draws dr rct ri fuel s = Finished sf -> (fuel <= fuel')%nat ->
  run_loop draws dr rct ri fuel' s = Finished sf.
Proof.
  revert fuel' s. induction fuel as [|fuel IH]; intros fuel' s H Hle;
    cbn [run_loop] in H; [discriminate|].
  destruct fuel' as [|fuel']; [lia|]. cbn [run_loop].
  destruct (step draws dr rct ri s); try discriminate; auto.
  apply IH; [exact H | lia].
Qed.

End Fuel.

Lemma run_simulation_never_raises (fuel : nat) (draws : nat -> Q)
    (initial_supply : Z) (dr rct sim_time ri : Q) (e : exn) :
  1 <= initial_supply -> (0 < sim_time)%Q -> (0 < dr)%Q -> (0 <= rct)%Q ->
  (0 <= ri)%Q -> (forall k, (0 <= draws k)%Q) ->
  run_simulation fuel draws initial_supply dr rct sim_time (Some ri) <> Raised e.
Proof.
  intros Hn Ht Hdr Hrct Hri Hd.
  destruct (run_simulation_state_started draws initial_supply dr rct sim_time ri
              Hn Ht) as (start & St & Hrun).
  unfold run_simulation. cbn [effective_interval]. rewrite Hrun.
  pose proof (run_loop_never_fails draws dr rct ri sim_time Hdr Hrct Hri Hd fuel
                start (started_timing _ _ _ St) (started_healthy _ _ _ St)) as Hnf.
  destruct (run_loop draws dr rct ri fuel start) as [x|x y|x] eqn:E;
    try discriminate.
  exfalso. exact (Hnf x y eq_refl).
Qed.

Lemma run_simulation_more_fuel (fuel fuel' : nat) (draws : nat -> Q)
    (initial_supply : Z) (dr rct sim_time : Q) (ri : option Q)
    (fm : final_metrics) (ts : list snapshot) :
  run_simulation fuel draws initial_supply dr rct sim_time ri = Returned fm ts ->
  (fuel <= fuel')%nat ->
  run_simulation fuel' draws initial_supply dr rct sim_time ri = Returned fm ts.
Proof.
  intros H Hle.
  destruct (returned_books _ _ _ _ _ _ _ _ _ H)
    as (sf & Hs & -> & -> & Hn & _).
  destruct (returned_run _ _ _ _ _ _ _ _ _ H) as (start & _ & St & _).
  destruct (started_fields _ _ _ St) as (_ & Ht & _).
  destruct (run_simulation_state_started draws initial_supply dr rct sim_time
              (effective_interval ri) Hn Ht) as (start' & _ & Hrun).
  rewrite Hrun in Hs. unfold run_simulation. rewrite Hrun.
  rewrite (run_loop_more_fuel _ _ _ _ _ _ _ _ Hs Hle). reflexivity.
Qed.

(** X9: for inputs in range (initial_supply >= 1, sim_time > 0,
    demand_rate > 0, repair_cycle_time >= 0, record_interval > 0) and draws
    that are not negative, run_simulation raises no exception, however
    many events it processes: no process fails and the schedule never runs
    empty before the horizon. *)
Theorem acceptable_inputs_run (draws : nat -> Q) (initial_supply : Z)
    (dr rct sim_time ri : Q) :
  1 <= initial_supply -> (0 < sim_time)%Q -> (0 < dr)%Q -> (0 <= rct)%Q ->
  (0 < ri)%Q -> (forall k, (0 <= draws k)%Q) ->
  forall fuel e,
    run_simulation fuel draws initial_supply dr rct sim_time (Some ri) <> Raised e.
Proof.
  intros Hn Ht Hdr Hrct Hri Hd fuel e.
  apply run_simulation_never_raises; auto. lra.
Qed.

Lemma acceptable_inputs_run_witness :
  (1 <= 1 /\ (0 < 3)%Q /\ (0 < 1)%Q /\ (0 <= 5)%Q /\ (0 < 1)%Q
   /\ forall k, (0 <= draws_two_then_far k)%Q)
  /\ forall fuel e,
       run_simulation fuel draws_two_then_far 1 1 5 3 (Some 1%Q) <> Raised e.
Proof.
  assert (Hd : forall k, (0 <= draws_two_then_far k)%Q)
    by (intros [|k]; cbn; discriminate).
  split; [repeat split; try lia; try reflexivity; try discriminate; exact Hd|].
  exact (acceptable_inputs_run draws_two_then_far 1 1 5 3 1
           ltac:(lia) ltac:(reflexivity) ltac:(reflexivity)
           ltac:(discriminate) ltac:(reflexivity) Hd).
Defined.

(** * The front end *)

Lemma sidebar_defaults_in_range : sidebar_in_range sidebar_defaults.
Proof.
  constructor; cbn; try lia; try split; try discriminate.
Qed.

Lemma sidebar_acceptable (sb : sidebar) :
  sidebar_in_range sb ->
  1 <= initial_supply_input sb
  /\ (0 < inject_Z (sim_time_input sb))%Q
  /\ (0 < demand_rate_input sb)%Q
  /\ (0 <= repair_cycle_time_input sb)%Q
  /\ (0 < record_interval_input sb)%Q.
Proof.
  intros [Hs [Hr _] [Hc _] Ht Hi].
  split; [exact Hs|]. split; [rewrite <- (Zlt_Qlt 0); lia|].
  repeat split; lra.
Qed.

(** X10: whatever values the sidebar widgets hold within their bounds, the
    call made by the button raises no exception (draws are not negative):
    the bounds of the widgets keep every input in the range run_simulation
    accepts. *)
Theorem front_end_run (draws : nat -> Q) (sb : sidebar) :
  sidebar_in_range sb -> (forall k, (0 <= draws k)%Q) ->
  forall fuel e, on_run_clicked fuel draws sb <> Raised e.
Proof.
  intros Hsb Hd fuel e.
  destruct (sidebar_acceptable sb Hsb) as (Hn & Ht & Hr & Hc & Hi).
  unfold on_run_clicked. apply run_simulation_never_raises; auto. lra.
Qed.

Lemma front_end_run_witness :
  (sidebar_in_range sidebar_defaults
   /\ forall k, (0 <= draws_two_then_far k)%Q)
  /\ forall fuel e, on_run_clicked fuel draws_two_then_far sidebar_defaults <> Raised e.
Proof.
  assert (Hd : forall k, (0 <= draws_two_then_far k)%Q)
    by (intros [|k]; cbn; discriminate).
  split; [split; [exact sidebar_defaults_in_range | exact Hd]|].
  exact (front_end_run draws_two_then_far sidebar_defaults
           sidebar_defaults_in_range Hd).
Defined.

Lemma obs_time_increasing (ri : Q) (i j : nat) :
  (0 < ri)%Q -> (i < j)%nat -> (obs_time ri i < obs_time ri j)%Q.
Proof.
  intros Hr Hij. rewrite (obs_time_linear ri i), (obs_time_linear ri j).
  apply Qmult_lt_compat_r; [exact Hr|]. rewrite <- Zlt_Qlt. lia.
Qed.

(** X11: what the front end shows after a run: the percentage written is
    between 0 and 100; the four plotted series have one point per entry of
    the time axis; the time axis starts at 0 and increases strictly. *)
Theorem front_end_display (fuel : nat) (draws : nat -> Q) (sb : sidebar)
    (fm : final_metrics) (ts : list snapshot) :
  on_run_clicked fuel draws sb = Returned fm ts ->
  ((0 <= satisfaction_rate_percent fm)%Q /\ (satisfaction_rate_percent fm <= 100)%Q)
  /\ (length (plot_supply ts) = length (plot_times ts)
      /\ length (plot_backlog ts) = length (plot_times ts)
      /\ length (plot_in_repair ts) = length (plot_times ts)
      /\ length (plot_satisfaction_rate ts) = length (plot_times ts))
  /\ (exists rest, plot_times ts = 0%Q :: rest)
  /\ (forall i j a b, (i < j)%nat ->
        nth_error (plot_times ts) i = Some a ->
        nth_error (plot_times ts) j = Some b -> (a < b)%Q).
Proof.
  unfold on_run_clicked. intros H.
  split; [|split; [|split]].
  - destruct (returned_books _ _ _ _ _ _ _ _ _ H)
      as (sf & _ & -> & _ & _ & _ & B & _).
    destruct (satisfaction_bounds _ _ (books_counters _ _ _ B)) as [H0 H1].
    unfold satisfaction_rate_percent.
    cbn [compute_final_metrics fm_demand_satisfaction_rate]. split; lra.
  - unfold plot_supply, plot_backlog, plot_in_repair, plot_satisfaction_rate,
      plot_times. rewrite !length_map. auto.
  - destruct (returned_cadence _ _ _ _ _ _ _ _ _ H) as (k & Hm & _).
    unfold plot_times. rewrite Hm. cbn [seq map obs_time]. eexists. reflexivity.
  - destruct (returned_cadence _ _ _ _ _ _ _ _ _ H) as (k & Hm & Hlt & Hge & _).
    cbn [effective_interval] in *.
    assert (Hr : (0 < record_interval_input sb)%Q) by (cbn [obs_time] in Hge; lra).
    intros i j a b Hij Ha Hb. unfold plot_times in Ha, Hb. rewrite Hm in Ha, Hb.
    apply nth_error_map_seq in Ha, Hb. subst a b. cbn [Nat.add].
    apply obs_time_increasing; assumption.
Qed.

Lemma small_run_returns :
  on_run_clicked 100 draws_two_then_far sidebar_small
  = Returned small_metrics small_series.
Proof. vm_compute. reflexivity. Qed.

Lemma front_end_display_witness :
  on_run_clicked 100 draws_two_then_far sidebar_small
  = Returned small_metrics small_series
  /\ (0 <= satisfaction_rate_percent small_metrics)%Q
  /\ (satisfaction_rate_percent small_metrics <= 100)%Q.
Proof.
  pose proof small_run_returns as H. split; [exact H|].
  exact (proj1 (front_end_display _ _ _ _ _ H)).
Defined.

(** * Demand within the supply *)

Section Cover.

Variable draws : nat -> Q.
Variables dr rct ri : Q.

Lemma cover_step (s : sim) :
  cover s -> cover (result_state (step draws dr rct ri s)).
Proof.
  unfold cover, step. intros C.
  destruct (heappop (queue s)) as [[e q]|] eqn:Hpop; [|exact C].
  pose proof (heappop_qsum w_starting _ _ _ Hpop) as Hs.
  destruct (e_event e) eqn:Hev; cbn [dispatch result_state w_starting] in *.
  - unfold vehicle_generator_loop, expovariate.
    destruct (Qeq_bool dr 0); [fields; cbn [w_starting]; lia|].
    unfold env_timeout.
    match goal with |- context [Qle_bool 0 ?d] => destruct (Qle_bool 0 d) end;
      fields; cbn [w_starting]; lia.
  - unfold metrics_observer_loop, env_timeout.
    destruct (Qle_bool 0 ri); fields; cbn [w_starting]; lia.
  - unfold vehicle_start, container_get. cbn [Z.leb Z.compare].
    match goal with |- context [trigger_get ?s1] =>
      destruct (trigger_get_grants s1) as [new G];
      pose proof (granted_qsum w_starting _ _ (fun _ => eq_refl) (gr_new _ _ _ G))
    end.
    by_grant G. fields. lia.
  - unfold repair_start, env_timeout.
    destruct (Qle_bool 0 rct); fields; cbn [w_starting]; lia.
  - unfold vehicle_generator_resume, vehicle_generator_loop, expovariate.
    destruct (Qeq_bool dr 0); [fields; cbn [w_starting]; lia|].
    unfold env_timeout.
    match goal with |- context [Qle_bool 0 ?d] => destruct (Qle_bool 0 d) end;
      fields; cbn [w_starting]; lia.
  - unfold metrics_observer_loop, env_timeout.
    destruct (Qle_bool 0 ri); fields; cbn [w_starting]; lia.
  - unfold repair_put, container_put. cbn [Z.leb Z.compare].
    match goal with |- context [trigger_put ?s1] =>
      destruct (trigger_put_returns s1) as [new R];
      pose proof (returned_qsum w_starting _ _ (fun _ => eq_refl) (rt_new _ _ _ R))
    end.
    by_return R. fields. lia.
  - unfold vehicle_finish.
    match goal with |- context [trigger_put ?s1] =>
      destruct (trigger_put_returns s1) as [new R];
      pose proof (returned_qsum w_starting _ _ (fun _ => eq_refl) (rt_new _ _ _ R))
    end.
    fields. by_return R. fields. cbn [w_starting]. lia.
  - unfold repair_finish.
    match goal with |- context [trigger_get ?s1] =>
      destruct (trigger_get_grants s1) as [new G];
      pose proof (granted_qsum w_starting _ _ (fun _ => eq_refl) (gr_new _ _ _ G))
    end.
    fields. by_grant G. fields. cbn [w_starting]. lia.
  - fields. lia.
  - fields. lia.
  - fields. lia.
Qed.

Lemma stock_step (sim_time : Q) (cap : Z) (s : sim) :
  timing sim_time s -> stock cap dr s ->
  let s' := result_state (step draws dr rct ri s) in
  stock cap dr s' \/ doomed s'.
Proof.
  intros T [B C]. cbv zeta.
  destruct (books_step draws dr rct ri sim_time cap s T B) as [B'|D];
    [left | right; exact D].
  split; [exact B' | apply cover_step; exact C].
Qed.

End Cover.

(** A request waits only when more vehicles have arrived than the pool
    holds units. *)
Lemma stock_waiting (cap : Z) (dr : Q) (s : sim) :
  stock cap dr s -> get_queue s <> [] -> cap < total_arrivals s.
Proof.
  intros [[A L] C] Hne. unfold cover in C.
  pose proof (qsum_in_flight (queue s)) as Hq.
  pose proof (lg_idle _ _ L Hne) as Hi.
  assert (0 < Z.of_nat (length (get_queue s))).
  { destruct (get_queue s); [congruence | cbn [length]; lia]. }
  destruct A. lia.
Qed.

Lemma returned_stock (fuel : nat) (draws : nat -> Q) (initial_supply : Z)
    (dr rct sim_time : Q) (ri : option Q) (fm : final_metrics)
    (ts : list snapshot) :
  run_simulation fuel draws initial_supply dr rct sim_time ri = Returned fm ts ->
  exists sf,
    fm = compute_final_metrics sf
    /\ at_horizon sim_time sf /\ stock initial_supply dr sf
    /\ forall sn, In sn ts ->
       exists s0, stock initial_supply dr s0 /\ sampled_in s0 sn.
Proof.
  intros H. destruct (returned_run _ _ _ _ _ _ _ _ _ H) as (start & sf & St & F & -> & ->).
  exists sf. split; [reflexivity|].
  destruct (started_fields _ _ _ St) as (Hn & _ & Hst).
  pose proof (fun s => stock_step draws dr rct (effective_interval ri) sim_time
                         initial_supply s) as Jstep.
  assert (S : sound (stock initial_supply dr) sim_time start).
  { split; [eapply started_timing; eauto|]. left. split.
    - split; [eapply started_accounting | eapply started_ledger]; eauto.
    - rewrite Hst. unfold cover. fields. cbn [w_starting]. lia. }
  destruct (finishes_horizon _ _ _ _ _ _ Jstep _ _ S F) as [Hz B].
  split; [exact Hz|]. split; [exact B|].
  intros sn Hin.
  assert (He : timeseries start = []) by (rewrite Hst; reflexivity).
  destruct (finishes_samples _ _ _ _ _ _ Jstep _ _ S He F sn Hin)
    as (k & s0 & _ & B0 & _ & Hs0).
  exists s0. split; assumption.
Qed.

(** X12: no vehicle waits while the demand is within the supply: a
    snapshot, or final_metrics, shows a positive backlog only when more
    vehicles have arrived than initial_supply; and when no more than
    initial_supply vehicles arrived during the run, every one of them was
    served by the end. *)
Theorem demand_within_supply (fuel : nat) (draws : nat -> Q)
    (initial_supply : Z) (dr rct sim_time : Q) (ri : option Q)
    (fm : final_metrics) (ts : list snapshot) :
  run_simulation fuel draws initial_supply dr rct sim_time ri = Returned fm ts ->
  (fm_total_arrivals fm <= initial_supply ->
   fm_backlog fm = 0 /\ fm_served fm = fm_total_arrivals fm)
  /\ Forall (fun sn => 0 < snap_backlog sn ->
                       initial_supply < snap_total_arrivals sn) ts.
Proof.
  intros H.
  destruct (returned_stock _ _ _ _ _ _ _ _ _ H) as (sf & -> & Hz & B & Hsn).
  split.
  - cbn [compute_final_metrics fm_total_arrivals fm_served fm_backlog].
    intros Hle.
    assert (Hg : qsum w_granted (queue sf) = 0)
      by (apply (at_horizon_no_immediate sim_time); [|exact Hz];
          intros ev; destruct ev; simpl; congruence).
    destruct (get_queue sf) as [|a l] eqn:Hq.
    + destruct B as [[A _] _]. destruct A. rewrite Hq in *. cbn [length] in *. lia.
    + exfalso. assert (Hne : get_queue sf <> []) by congruence.
      pose proof (stock_waiting _ _ _ B Hne). lia.
  - rewrite Forall_forall. intros sn Hin.
    destruct (Hsn sn Hin) as (s0 & B0 & e & q & _ & _ & ->).
    cbn [take_snapshot popped snap_backlog snap_total_arrivals
         set_now set_queue total_arrivals get_queue].
    intros Hb. apply (stock_waiting _ dr); [exact B0|].
    intros K. rewrite K in Hb. cbn in Hb. lia.
Qed.

Lemma demand_within_supply_witness :
  (run_simulation 100 draws_two_then_far 1 1 5 3 (Some 1%Q)
   = Returned coincidence_metrics coincidence_series
   /\ fm_total_arrivals coincidence_metrics <= 1)
  /\ fm_backlog coincidence_metrics = 0
  /\ fm_served coincidence_metrics = fm_total_arrivals coincidence_metrics.
Proof.
  pose proof coincidence_run_returns as H.
  assert (Hle : fm_total_arrivals coincidence_metrics <= 1) by (cbn; lia).
  split; [split; [exact H | exact Hle]|].
  exact (proj1 (demand_within_supply _ _ _ _ _ _ _ _ _ H) Hle).
Defined.

(** * The first sample *)

(** The observer's Initialize event precedes whatever was scheduled after
    it. *)
Lemma observer_first (o e : entry) :
  e_time o = 0%Q -> e_prio o = URGENT -> e_eid o = 1%nat ->
  (0 <= e_time e)%Q -> 0 <= e_prio e -> (2 <= e_eid e)%nat ->
  entry_ltb o e = true.
Proof.
  intros Ht Hp Hi Het Hep Hei. unfold entry_ltb. rewrite Ht, Hp, Hi.
  destruct (Qcompare 0 (e_time e)) eqn:Hc; [|reflexivity|].
  - unfold URGENT. destruct (Z.compare 0 (e_prio e)) eqn:Hz; [|reflexivity|].
    + apply Nat.ltb_lt. lia.
    + apply Z.compare_gt_iff in Hz. lia.
  - rewrite <- Qgt_alt in Hc. lra.
Qed.

Section First_sample.

Variable draws : nat -> Q.
Variables dr rct ri : Q.
Variable cap : Z.

Lemma pristine_step (s : sim) :
  pristine cap s ->
  match step draws dr rct ri s with
  | Continue s' => begun cap s'
  | Stop _ => False
  | Raise _ _ => True
  end.
Proof.
  intros [Pa Ps Pr Pl Pg Pt Pi (o & Ho & Hoe & Hop & Hoi) Pq]. unfold step.
  destruct (heappop (queue s)) as [[e q]|] eqn:Hpop; [|exact I].
  pose proof (heappop_perm _ _ _ Hpop) as Hperm.
  pose proof (heappop_min _ _ _ Hpop) as Hmin.
  pose proof (Permutation_Forall Hperm Pq) as Pq'.
  inversion Pq' as [|x l He Hq]; subst x l.
  assert (Hot : e_time o = 0%Q).
  { rewrite Forall_forall in Pq. specialize (Pq o Ho).
    unfold pristine_entry in Pq. rewrite Hoe in Pq. exact Pq. }
  assert (Hlate : (0 <= e_time e)%Q /\ 0 <= e_prio e /\ (2 <= e_eid e)%nat ->
                  e_event e <> InitObserver -> False).
  { intros (H1 & H2 & H3) Hne.
    destruct (Permutation_in _ Hperm Ho) as [K|K]; [subst o; congruence|].
    rewrite Forall_forall in Hmin. specialize (Hmin o K). unfold entry_le in Hmin.
    rewrite (observer_first o e) in Hmin; auto; discriminate. }
  assert (Hoq : e_event e <> InitObserver -> In o q).
  { intros Hne. destruct (Permutation_in _ Hperm Ho) as [K|K];
      [subst o; congruence | exact K]. }
  unfold pristine_entry in He.
  destruct (e_event e) eqn:Hev; try contradiction; cbn [dispatch].
  - (* InitGenerator *)
    left. specialize (Hoq ltac:(discriminate)).
    unfold vehicle_generator_loop, expovariate.
    destruct (Qeq_bool dr 0).
    + constructor; fields; auto; try lia;
        [exists o; split; [right; exact Hoq | auto] |].
      constructor; [|exact Hq].
      unfold pristine_entry, NORMAL. fields. split; [lra | split; lia].
    + unfold env_timeout.
      match goal with |- context [Qle_bool 0 ?d] =>
        destruct (Qle_bool 0 d) eqn:Hd end.
      * apply Qle_bool_iff in Hd.
        constructor; fields; auto; try lia;
          [exists o; split; [right; exact Hoq | auto] |].
        constructor; [|exact Hq].
        unfold pristine_entry, NORMAL. fields. split; [lra | split; lia].
      * constructor; fields; auto; try lia;
          [exists o; split; [right; exact Hoq | auto] |].
        constructor; [|exact Hq].
        unfold pristine_entry, NORMAL. fields. split; [lra | split; lia].
  - (* InitObserver *)
    right. unfold metrics_observer_loop, env_timeout, take_snapshot, initial_snapshot.
    destruct (Qle_bool 0 ri); fields;
      rewrite Pt, Pa, Ps, Pr, Pl, Pg, He; exists []; reflexivity.
  - (* TimeoutGenerator *)
    exfalso. apply Hlate; [exact He | discriminate].
  - (* ProcessFailed *)
    exact I.
  - (* UntilEvent *)
    apply Hlate; [exact He | discriminate].
Qed.

Lemma begun_step (s s' : sim) :
  begun cap s -> step draws dr rct ri s = Continue s' -> begun cap s'.
Proof.
  intros [P|[rest Hr]] Hst.
  - pose proof (pristine_step s P) as H. rewrite Hst in H. exact H.
  - right. pose proof (step_timeseries draws dr rct ri s) as H.
    rewrite Hst in H. cbn [result_state] in H.
    destruct H as [->|(sn & _ & ->)]; rewrite Hr; eexists; reflexivity.
Qed.

Lemma begun_finishes (s sf : sim) :
  begun cap s -> finishes draws dr rct ri s sf ->
  exists rest, timeseries sf = initial_snapshot cap :: rest.
Proof.
  intros B (n & s1 & Hn & Hs).
  pose proof (nth_state_inv draws dr rct ri (begun cap) begun_step n s s1 B Hn)
    as [P|[rest Hr]].
  - pose proof (pristine_step s1 P) as H. rewrite Hs in H. contradiction.
  - pose proof (step_timeseries draws dr rct ri s1) as H.
    rewrite Hs in H. cbn [result_state] in H.
    destruct H as [->|(sn & _ & ->)]; rewrite Hr; eexists; reflexivity.
Qed.

End First_sample.

Lemma started_pristine (initial_supply : Z) (sim_time : Q) (start : sim) :
  started initial_supply sim_time start -> pristine initial_supply start.
Proof.
  intros H. destruct (started_fields _ _ _ H) as (_ & Ht & ->).
  constructor; fields; auto; try lia.
  - eexists. split; [right; left; reflexivity|]. cbn. auto.
  - repeat constructor; unfold pristine_entry; fields; unfold URGENT;
      try reflexivity; try lia; try lra; try discriminate.
Qed.

(** X13: the time series of a run that returns begins with the initial
    state: time 0, available_supply = initial_supply, no backlog, nothing
    in repair, no arrival, satisfaction rate 0; so also when the first
    vehicle arrives at time 0. *)
Theorem first_snapshot_initial (fuel : nat) (draws : nat -> Q)
    (initial_supply : Z) (dr rct sim_time : Q) (ri : option Q)
    (fm : final_metrics) (ts : list snapshot) :
  run_simulation fuel draws initial_supply dr rct sim_time ri = Returned fm ts ->
  exists rest, ts = mkSnapshot 0 initial_supply 0 0 0 0 0 :: rest.
Proof.
  intros H. destruct (returned_run _ _ _ _ _ _ _ _ _ H) as (start & sf & St & F & _ & ->).
  apply (begun_finishes draws dr rct (effective_interval ri) initial_supply start sf);
    [|exact F].
  left. eapply started_pristine. exact St.
Qed.

Lemma first_snapshot_initial_witness :
  run_simulation 100 draws_now_then_far 1 1 5 3 (Some 2%Q)
  = Returned (mkFinal 1 1 1 0 0 1)
      [mkSnapshot 0 1 0 0 0 0 0; mkSnapshot 2 0 0 1 1 1 1]
  /\ exists rest,
       [mkSnapshot 0 1 0 0 0 0 0; mkSnapshot 2 0 0 1 1 1 1]
       = mkSnapshot 0 1 0 0 0 0 0 :: rest.
Proof.
  assert (H : run_simulation 100 draws_now_then_far 1 1 5 3 (Some 2%Q)
              = Returned (mkFinal 1 1 1 0 0 1)
                  [mkSnapshot 0 1 0 0 0 0 0; mkSnapshot 2 0 0 1 1 1 1])
    by (vm_compute; reflexivity).
  split; [exact H|].
  exact (first_snapshot_initial _ _ _ _ _ _ _ _ _ H).
Defined.

(** * Repairs that outlast the run *)

Lemma granted_unreturned (sim_time t : Q) (new : list entry) :
  Forall (fun e => is_get (e_event e) /\ e_prio e = NORMAL /\ e_time e = t) new ->
  Forall (unreturned_entry sim_time) new.
Proof.
  apply Forall_impl. intros e (He & _). unfold unreturned_entry.
  destruct (e_event e); try contradiction; exact I.
Qed.

Ltac un_done :=
  constructor; fields; cbn [w_starting]; auto; try lia;
  repeat (constructor;
          [first [exact I | unfold unreturned_entry; fields; lra] |]);
  auto.

Section Long_repair.

Variable draws : nat -> Q.
Variables dr rct ri sim_time : Q.
Variable cap : Z.

Hypothesis repair_outlasts : (sim_time <= rct)%Q.

Lemma unreturned_step (s : sim) :
  timing sim_time s -> accounting cap s -> unreturned sim_time s ->
  unreturned sim_time (result_state (step draws dr rct ri s)).
Proof.
  intros Tm A [Un Ur Ue]. unfold step.
  destruct (heappop (queue s)) as [[e q]|] eqn:Hpop;
    [|constructor; assumption].
  pose proof (timing_pop sim_time s e q Tm Hpop) as Hlt.
  pose proof (heappop_qsum w_starting _ _ _ Hpop) as Hs.
  destruct (heappop_Forall _ _ _ _ Hpop Ue) as [Ee Eq].
  destruct (heappop_Forall _ _ _ _ Hpop (tm_entries _ _ Tm)) as [[Te _ _ _] _].
  assert (Hn : (0 <= e_time e)%Q) by lra.
  pose proof (acc_puts _ _ A) as Ap.
  unfold unreturned_entry in Ee.
  destruct (e_event e) eqn:Hev; cbn [dispatch result_state w_starting] in *;
    try contradiction.
  - (* InitGenerator *)
    unfold vehicle_generator_loop, expovariate.
    destruct (Qeq_bool dr 0); [un_done|].
    unfold env_timeout.
    match goal with |- context [Qle_bool 0 ?d] => destruct (Qle_bool 0 d) end;
      un_done.
  - (* InitObserver *)
    unfold metrics_observer_loop, env_timeout.
    destruct (Qle_bool 0 ri); un_done.
  - (* InitVehicle *)
    unfold vehicle_start, container_get. cbn [Z.leb Z.compare].
    match goal with |- context [trigger_get ?s1] =>
      destruct (trigger_get_grants s1) as [new G];
      pose proof (granted_qsum w_starting _ _ (fun _ => eq_refl) (gr_new _ _ _ G));
      pose proof (granted_unreturned sim_time _ _ (gr_new _ _ _ G))
    end.
    constructor; by_grant G; fields; auto; try lia.
    apply Forall_app. split; assumption.
  - (* InitRepair *)
    unfold repair_start, env_timeout.
    destruct (Qle_bool 0 rct); un_done.
  - (* TimeoutGenerator *)
    unfold vehicle_generator_resume, vehicle_generator_loop, expovariate.
    cbn [env_process schedule].
    destruct (Qeq_bool dr 0); [un_done|].
    unfold env_timeout.
    match goal with |- context [Qle_bool 0 ?d] => destruct (Qle_bool 0 d) end;
      un_done.
  - (* TimeoutObserver *)
    unfold metrics_observer_loop, env_timeout.
    destruct (Qle_bool 0 ri); un_done.
  - (* TimeoutRepair *)
    exfalso. assert ((e_time e < sim_time)%Q) by (apply Hlt; discriminate). lra.
  - (* GetGranted *)
    unfold vehicle_finish, trigger_put. fields. rewrite Ap.
    cbn [trigger_put_loop]. un_done.
  - (* ProcessEnded *)
    un_done.
  - (* ProcessFailed *)
    un_done.
  - (* UntilEvent *)
    un_done.
Qed.

Lemma lasting_step (s : sim) :
  timing sim_time s -> lasting cap dr sim_time s ->
  let s' := result_state (step draws dr rct ri s) in
  lasting cap dr sim_time s' \/ doomed s'.
Proof.
  intros T [B U]. cbv zeta.
  destruct (books_step draws dr rct ri sim_time cap s T B) as [B'|D];
    [left | right; exact D].
  split; [exact B' | apply unreturned_step; [exact T | apply B | exact U]].
Qed.

End Long_repair.

(** X14: when a repair takes at least as long as the run, no part comes
    back before the horizon: at the end every served vehicle's part is
    still in repair, and the number served is the smaller of the number
    of arrivals and initial_supply. *)
Theorem long_repairs (fuel : nat) (draws : nat -> Q)
    (initial_supply : Z) (dr rct sim_time : Q) (ri : option Q)
    (fm : final_metrics) (ts : list snapshot) :
  (sim_time <= rct)%Q ->
  run_simulation fuel draws initial_supply dr rct sim_time ri = Returned fm ts ->
  fm_served fm = Z.min (fm_total_arrivals fm) initial_supply
  /\ fm_in_repair fm = fm_served fm
  /\ fm_available_supply fm = initial_supply - fm_served fm.
Proof.
  intros Hlong H.
  destruct (returned_run _ _ _ _ _ _ _ _ _ H) as (start & sf & St & F & -> & _).
  pose proof (lasting_step draws dr rct (effective_interval ri) sim_time
                initial_supply Hlong) as Jstep.
  assert (S : sound (lasting initial_supply dr sim_time) sim_time start).
  { split; [eapply started_timing; eauto|]. left. split.
    - split; [eapply started_accounting | eapply started_ledger]; eauto.
    - destruct (started_fields _ _ _ St) as (_ & Ht & ->).
      constructor; fields; cbn [w_starting]; try lia; try lra.
      repeat constructor. }
  destruct (finishes_horizon _ _ _ _ _ _ Jstep _ _ S F) as [Hz [[A L] U]].
  pose proof (qsum_in_flight (queue sf)) as Hq.
  assert (Hg : qsum w_granted (queue sf) = 0)
    by (apply (at_horizon_no_immediate sim_time); [|exact Hz];
        intros ev; destruct ev; simpl; congruence).
  assert (Hst : qsum w_starting (queue sf) = 0)
    by (apply (at_horizon_no_immediate sim_time); [|exact Hz];
        intros ev; destruct ev; simpl; congruence).
  assert (Hr : qsum w_returned (queue sf) = 0)
    by (apply (at_horizon_no_immediate sim_time); [|exact Hz];
        intros ev; destruct ev; simpl; congruence).
  rewrite Hg, Hst, Hr in Hq.
  destruct U as [_ Ur _]. rewrite Hst in Ur.
  cbn [compute_final_metrics fm_total_arrivals fm_served fm_in_repair
       fm_available_supply].
  destruct (get_queue sf) as [|a l] eqn:Hgq.
  - destruct A, L. rewrite Hgq in *. cbn [length] in *. lia.
  - assert (Hne : get_queue sf <> []) by congruence.
    pose proof (lg_idle _ _ L Hne) as Hi.
    destruct A. rewrite Hgq in *. cbn [length] in *. lia.
Qed.

Lemma long_repairs_witness :
  ((3 <= 5)%Q
   /\ run_simulation 100 draws_two_then_far 1 1 5 3 (Some 1%Q)
      = Returned coincidence_metrics coincidence_series)
  /\ fm_served coincidence_metrics
     = Z.min (fm_total_arrivals coincidence_metrics) 1.
Proof.
  assert (Hl : (3 <= 5)%Q) by (cbn; discriminate).
  pose proof coincidence_run_returns as H.
  split; [split; [exact Hl | exact H]|].
  exact (proj1 (long_repairs _ _ _ _ _ _ _ _ _ Hl H)).
Defined.
